(** * Governance layer of the tool-using agent: a shallow embedding

    The development follows the Python sources:
    - [security.py]   (PathSanitizer.validate_safe_path)      -> Module PathGuard
    - [manager.py]    (ToolRateLimiter)                       -> Module RateLimiter
    - [base.py]       (BaseTool, as its callers use it)       -> Module Base
    - [registry.py]   (ToolRegistry)                          -> Module Registry
    - [cost_tracker.py] (CostTracker)                         -> Module Cost
    - [observable_agent.py] (ObservableAgent.run)             -> Module Agent
    - [filesystem.py] (ListFilesTool.execute)                 -> Module ListFiles
    - [hf_client.py]  (HuggingFaceClient.query)               -> Module HFClient

    Python floats (time stamps, token allowance, cost, sleep durations) are
    idealised as exact rationals [Q]: a statement about them is a statement
    about the code where the float operations involved are exact (whole
    tokens and no elapsed time below 2^53 for the limiter, power-of-two
    multiples for the backoff) or where rounding cannot change it (the
    bounds of the allowance); the properties stated of token counts, steps,
    messages and traces do not involve floats. Python exceptions are values
    of [PyExc]; a call that may raise returns an [outcome]. *)

From Stdlib Require Import ZArith QArith Lqa Lia List Bool Ascii String.
From stdpp Require Import base option gmap strings.
Import ListNotations.

Local Open Scope string_scope.
Local Open Scope list_scope.

(** ** Python exceptions and results of calls that may raise *)

Inductive ExcClass : Type :=
  | SecurityError      (* security.py / registry.py: class SecurityError(Exception) *)
  | ValidationError    (* pydantic.ValidationError *)
  | OtherException.    (* any other subclass of Exception *)

Record PyExc : Type := Exc { exc_class : ExcClass; exc_msg : string }.

Inductive outcome (A : Type) : Type :=
  | Returns (a : A)
  | Raises (e : PyExc).
Arguments Returns {A} a.
Arguments Raises {A} e.

Definition is_SecurityError {A} (o : outcome A) : bool :=
  match o with
  | Raises (Exc SecurityError _) => true
  | _ => false
  end.

(** [not l] for a Python list *)
Definition is_nil {A} (l : list A) : bool :=
  match l with [] => true | _ => false end.

(** ** PathGuard: security.py over posixpath *)

Module PathGuard.

(** [s.startswith(p)] *)
Definition startswith (s p : string) : bool := String.prefix p s.

(** [s.endswith("/")] *)
Fixpoint endswith_sep (s : string) : bool :=
  match s with
  | EmptyString => false
  | String c EmptyString => Ascii.eqb c "/"
  | String _ s' => endswith_sep s'
  end.

(** [s.split("/")]: never returns the empty list *)
Fixpoint split (s : string) : list string :=
  match s with
  | EmptyString => [EmptyString]
  | String c s' =>
      if Ascii.eqb c "/" then EmptyString :: split s'
      else match split s' with
           | h :: t => String c h :: t
           | [] => [String c EmptyString]
           end
  end.

(** ["/".join(comps)] *)
Fixpoint join_sep (comps : list string) : string :=
  match comps with
  | [] => EmptyString
  | [c] => c
  | c :: cs => c +:+ "/" +:+ join_sep cs
  end.

(** [posixpath.isabs] *)
Definition isabs (s : string) : bool := startswith s "/".

(** [posixpath.join(a, b)] with one extra argument *)
Definition join (a b : string) : string :=
  if startswith b "/" then b
  else if String.eqb a "" || endswith_sep a then a +:+ b
  else a +:+ "/" +:+ b.

(** one iteration of the [for comp in comps] loop of [posixpath.normpath] *)
Definition norm_step (initial_slashes : nat) (new_comps : list string)
    (comp : string) : list string :=
  if String.eqb comp "" || String.eqb comp "." then new_comps
  else if negb (String.eqb comp "..")
          || (Nat.eqb initial_slashes 0 && is_nil new_comps)
          || (negb (is_nil new_comps) && String.eqb (List.last new_comps "") "..")
       then new_comps ++ [comp]
  else if negb (is_nil new_comps) then List.removelast new_comps
  else new_comps.

Definition initial_slashes (path : string) : nat :=
  if startswith path "/" then
    if startswith path "//" && negb (startswith path "///") then 2 else 1
  else 0.

Fixpoint slashes (n : nat) : string :=
  match n with
  | O => EmptyString
  | S n' => String "/" (slashes n')
  end.

Definition norm_comps (path : string) : list string :=
  List.fold_left (norm_step (initial_slashes path)) (split path) [].

(** [posixpath.normpath] *)
Definition normpath (path : string) : string :=
  if String.eqb path "" then "."
  else
    let p := slashes (initial_slashes path) +:+ join_sep (norm_comps path) in
    if String.eqb p "" then "." else p.

Section WithCwd.

(** the process' working directory, [os.getcwd()] *)
Variable cwd : string.

(** the path that [abspath] hands to [normpath] *)
Definition absolute (path : string) : string :=
  if isabs path then path else join cwd path.

(** [posixpath.abspath] *)
Definition abspath (path : string) : string := normpath (absolute path).

(** [PathSanitizer.validate_safe_path(base_dir, target_path)] *)
Definition validate_safe_path (base_dir target_path : string) : outcome string :=
  let abs_base := abspath base_dir in
  let abs_target := abspath (join base_dir target_path) in
  if negb (startswith abs_target abs_base) then
    Raises (Exc SecurityError ("Path traversal blocked: " +:+ target_path))
  else Returns abs_target.

End WithCwd.

(** [posixpath.dirname] *)
Fixpoint rfind_sep (s : string) : option nat :=
  match s with
  | EmptyString => None
  | String c s' =>
      match rfind_sep s' with
      | Some i => Some (S i)
      | None => if Ascii.eqb c "/" then Some 0%nat else None
      end
  end.

Fixpoint all_slashes (s : string) : bool :=
  match s with
  | EmptyString => true
  | String c s' => Ascii.eqb c "/" && all_slashes s'
  end.

Fixpoint rstrip_sep (s : string) : string :=
  match s with
  | EmptyString => EmptyString
  | String c s' => if all_slashes s then EmptyString else String c (rstrip_sep s')
  end.

Definition dirname (p : string) : string :=
  let i := match rfind_sep p with Some i => S i | None => 0%nat end in
  let head := String.substring 0 i p in
  if negb (String.eqb head "") && negb (all_slashes head)
  then rstrip_sep head else head.

(** [posixpath.basename]: the text after the last separator *)
Definition basename (p : string) : string :=
  let i := match rfind_sep p with Some i => S i | None => 0%nat end in
  String.substring i (String.length p - i) p.

(** a component: no separator inside *)
Fixpoint no_slash (s : string) : bool :=
  match s with
  | EmptyString => true
  | String c s' => negb (Ascii.eqb c "/") && no_slash s'
  end.

(** a component kept by [normpath] of an absolute path *)
Definition good (c : string) : Prop :=
  c <> "" /\ c <> ".." /\ no_slash c = true.

(** the text of the directories in front of a last component *)
Fixpoint dirs (pre : list string) : string :=
  match pre with
  | [] => ""
  | d :: ds => d +:+ "/" +:+ dirs ds
  end.

(** the components of a path, empty ones dropped *)
Definition path_comps (p : string) : list string :=
  List.filter (fun c => negb (String.eqb c "")) (split p).

(** component-wise containment of a normalised target in a normalised base *)
Definition contained (base target : string) : Prop :=
  initial_slashes base = initial_slashes target /\
  path_comps base `prefix_of` path_comps target.

End PathGuard.


(** ** RateLimiter: manager.py *)

Module RateLimiter.

Definition Qltb (x y : Q) : bool := negb (Qle_bool y x).

(** attributes of [ToolRateLimiter]; the lock is not modelled (calls are
    sequential), [time.time()] is the argument [now] of each call *)
Record ToolRateLimiter : Type := mkLimiter {
  calls_per_minute : Z;
  allowance : Q;
  last_check : Q
}.

(** [ToolRateLimiter.__init__(calls_per_minute)] at clock value [now] *)
Definition init (cpm : Z) (now : Q) : ToolRateLimiter :=
  {| calls_per_minute := cpm; allowance := inject_Z cpm; last_check := now |}.

(** [ToolRateLimiter.is_allowed()] at clock value [current]; the refill is
    computed exactly here and in binary64 in the code, so that at fractional
    refills the code can answer differently within one rounding error of a
    whole token *)
Definition is_allowed (current : Q) (self : ToolRateLimiter)
    : bool * ToolRateLimiter :=
  let time_passed := (current - last_check self)%Q in
  let refill_rate := (inject_Z (calls_per_minute self) / 60)%Q in
  let a := (allowance self + time_passed * refill_rate)%Q in
  let a := if Qltb (inject_Z (calls_per_minute self)) a
           then inject_Z (calls_per_minute self) else a in
  if Qltb a 1
  then (false, mkLimiter (calls_per_minute self) a current)
  else (true, mkLimiter (calls_per_minute self) (a - 1)%Q current).

(** the allowance of [is_allowed] after the refill and the cap *)
Definition refilled (current : Q) (self : ToolRateLimiter) : Q :=
  let a := (allowance self
            + (current - last_check self)
              * (inject_Z (calls_per_minute self) / 60))%Q in
  if Qltb (inject_Z (calls_per_minute self)) a
  then inject_Z (calls_per_minute self) else a.

(** a sequence of calls, each made [dt] seconds after the previous check *)
Fixpoint calls (dts : list Q) (self : ToolRateLimiter)
    : list bool * ToolRateLimiter :=
  match dts with
  | [] => ([], self)
  | dt :: rest =>
      let '(b, self') := is_allowed (last_check self + dt)%Q self in
      let '(bs, self'') := calls rest self' in
      (b :: bs, self'')
  end.

End RateLimiter.

(** ** Python values that cross the tool boundary *)

#[local] Unset Elimination Schemes.
Inductive PyVal : Type :=
  | PNone
  | PBool (b : bool)
  | PInt (z : Z)
  | PNum (q : Q)
  | PStr (s : string)
  | PList (l : list PyVal)
  | PDict (d : list (string * PyVal)).
#[local] Set Elimination Schemes.

(** [d.keys()] in insertion order *)
Definition keys (v : PyVal) : list string :=
  match v with
  | PDict d => List.map fst d
  | _ => []
  end.

(** [d.get(k)] *)
Fixpoint assoc (k : string) (d : list (string * PyVal)) : option PyVal :=
  match d with
  | [] => None
  | (k', v) :: d' => if String.eqb k k' then Some v else assoc k d'
  end.

Definition dict_get (k : string) (v : PyVal) : option PyVal :=
  match v with
  | PDict d => assoc k d
  | _ => None
  end.

(** [type(v).__name__] *)
Definition type_name (v : PyVal) : string :=
  match v with
  | PNone => "NoneType"
  | PBool _ => "bool"
  | PInt _ => "int"
  | PNum _ => "float"
  | PStr _ => "str"
  | PList _ => "list"
  | PDict _ => "dict"
  end.

(** ** ToolRegistry: registry.py *)

(** ** BaseTool: the interface of base.py that the registry and the agent
    use. [execute] is the method applied to positional and to keyword
    arguments: the registry calls [tool.execute(arguments)], one positional
    argument, and the agent calls [tool.execute] on the unpacked [args_dict],
    keyword arguments only, so the same tool may answer the two callers
    differently.
    [qualname] is the module and qualified name of the method, as CPython
    (3.9 and later) prints it in the TypeError of a call. *)

Module Base.

Record BaseTool : Type := mkTool {
  name : string;
  permissions : list string;
  qualname : string;
  execute : list PyVal -> list (string * PyVal) -> outcome PyVal
}.

End Base.

Module Registry.
Import RateLimiter.

Record ToolRegistry : Type := mkRegistry {
  _tools : gmap string Base.BaseTool;
  _limiters : gmap string ToolRateLimiter
}.

(** [ToolRegistry.__init__] *)
Definition empty : ToolRegistry := mkRegistry ∅ ∅.

(** [ToolRegistry.register(tool, calls_per_minute)] at clock value [now] *)
Definition register (now : Q) (tool : Base.BaseTool) (cpm : Z) (self : ToolRegistry)
    : ToolRegistry :=
  mkRegistry (<[Base.name tool := tool]> (_tools self))
             (<[Base.name tool := RateLimiter.init cpm now]> (_limiters self)).

(** [ToolRegistry.get_tool(name)] *)
Definition get_tool (tool_name : string) (self : ToolRegistry) : option Base.BaseTool :=
  _tools self !! tool_name.

(** the three-key result dict built by every return of [execute] *)
Definition result_dict (success : bool) (result error : PyVal) : PyVal :=
  PDict [("success", PBool success); ("result", result); ("error", error)].

Definition failure (msg : string) : PyVal := result_dict false PNone (PStr msg).

(** the [try: ... except Exception as e:] block at the end of [execute],
    around [result = tool.execute(arguments)] *)
Definition guarded_call (tool : Base.BaseTool) (arguments : PyVal) : PyVal :=
  match Base.execute tool [arguments] [] with
  | Returns result => result_dict true result PNone
  | Raises e => failure (exc_msg e)
  end.

(** [ToolRegistry.execute(tool_name, arguments)] at clock value [now];
    [limiter.is_allowed()] updates the limiter in place also when it denies *)
Definition execute (now : Q) (self : ToolRegistry) (tool_name : string)
    (arguments : PyVal) : PyVal * ToolRegistry :=
  match get_tool tool_name self with
  | None => (failure ("Tool '" +:+ tool_name +:+ "' not found."), self)
  | Some tool =>
      match _limiters self !! tool_name with
      | Some limiter =>
          let '(ok, limiter') := is_allowed now limiter in
          let self' := mkRegistry (_tools self)
                                  (<[tool_name := limiter']> (_limiters self)) in
          if negb ok
          then (failure ("Rate limit exceeded for tool '" +:+ tool_name +:+ "'."),
                self')
          else (guarded_call tool arguments, self')
      | None => (guarded_call tool arguments, self)
      end
  end.

(** the boundary shape: exactly the keys success, result, error, holding a
    boolean, any value, and a string or None; a failure has no result *)
Definition well_shaped (v : PyVal) : Prop :=
  exists (success : bool) (result error : PyVal),
    v = PDict [("success", PBool success); ("result", result); ("error", error)] /\
    (error = PNone \/ exists msg, error = PStr msg) /\
    (success = false -> result = PNone /\ exists msg, error = PStr msg).

Section Secure.

(** Python's [str()] of a list of strings, used by the f-string of the
    access-denied message *)
Variable list_str : list string -> string.

(** [missing = [p for p in tool.permissions if p not in user_permissions]] *)
Definition missing_permissions (tool : Base.BaseTool) (user_permissions : list string)
    : list string :=
  List.filter (fun p => negb (bool_decide (p ∈ user_permissions)))
              (Base.permissions tool).

(** [ToolRegistry.execute_secure(tool_name, arguments, user_permissions)] *)
Definition execute_secure (now : Q) (self : ToolRegistry) (tool_name : string)
    (arguments : PyVal) (user_permissions : list string) : PyVal * ToolRegistry :=
  match get_tool tool_name self with
  | None => (failure ("Tool '" +:+ tool_name +:+ "' not found."), self)
  | Some tool =>
      let missing := missing_permissions tool user_permissions in
      if negb (is_nil missing)
      then (failure ("Access Denied. Missing permissions: " +:+ list_str missing),
            self)
      else execute now self tool_name arguments
  end.

End Secure.

End Registry.

(** ** The completion transport's response objects (litellm), as the agent
    and the cost tracker read them *)

Module LLM.

Record Usage : Type := mkUsage {
  prompt_tokens : option Z;        (* absent attribute = None *)
  completion_tokens : option Z
}.

(** [call.function.name], [call.function.arguments] *)
Record ToolCall : Type := mkToolCall {
  function_name : string;
  function_arguments : string
}.

Record Message : Type := mkMessage {
  content : option string;
  tool_calls : option (list ToolCall)
}.

Record Response : Type := mkResponse {
  usage : option Usage;
  model : option string;
  choices : list Message
}.

End LLM.

(** ** CostTracker: cost_tracker.py *)

Module Cost.

Record StepCost : Type := mkStepCost {
  step_number : Z;
  model : string;
  input_tokens : Z;
  output_tokens : Z;
  cost_usd : Q;
  is_tool_call : bool
}.

Record QueryCost : Type := mkQueryCost {
  query : string;
  steps : list StepCost;
  total_cost_usd : Q;
  total_input_tokens : Z;
  total_output_tokens : Z
}.

(** [QueryCost(query=query)] *)
Definition new_query (q : string) : QueryCost := mkQueryCost q [] 0%Q 0%Z 0%Z.

(** [QueryCost.add_step] *)
Definition add_step (step : StepCost) (self : QueryCost) : QueryCost :=
  mkQueryCost (query self)
              (steps self ++ [step])
              (total_cost_usd self + cost_usd step)%Q
              (total_input_tokens self + input_tokens step)%Z
              (total_output_tokens self + output_tokens step)%Z.

Record CostTracker : Type := mkTracker {
  queries : list QueryCost;
  _current_query : option QueryCost
}.

(** [CostTracker.__init__] *)
Definition init : CostTracker := mkTracker [] None.

(** [CostTracker.start_query] *)
Definition start_query (q : string) (self : CostTracker) : CostTracker :=
  mkTracker (queries self) (Some (new_query q)).

(** [CostTracker.log_completion]; the token counts are Python ints, the
    cost is the float product [(input + output) * 0.00001] in the code and
    the exact rational here, and likewise the running sum of [add_step] *)
Definition log_completion (step_no : Z) (response : LLM.Response)
    (tool_call : bool) (self : CostTracker) : CostTracker :=
  match _current_query self with
  | None => self
  | Some current =>
      let '(input, output) :=
        match LLM.usage response with
        | Some u => (default 0%Z (LLM.prompt_tokens u),
                     default 0%Z (LLM.completion_tokens u))
        | None => (0%Z, 0%Z)
        end in
      let m := default "unknown" (LLM.model response) in
      let cost := (inject_Z (input + output) * (1 # 100000))%Q in
      let step_cost := mkStepCost step_no m input output cost tool_call in
      mkTracker (queries self) (Some (add_step step_cost current))
  end.

(** [CostTracker.end_query] *)
Definition end_query (self : CostTracker) : CostTracker :=
  match _current_query self with
  | Some current => mkTracker (queries self ++ [current]) None
  | None => self
  end.

(** the calls a client can make on a tracker *)
Inductive op : Type :=
  | StartQuery (q : string)
  | LogCompletion (step_no : Z) (response : LLM.Response) (tool_call : bool)
  | EndQuery.

Definition apply_op (o : op) (self : CostTracker) : CostTracker :=
  match o with
  | StartQuery q => start_query q self
  | LogCompletion n r b => log_completion n r b self
  | EndQuery => end_query self
  end.

Definition apply_ops (os : list op) (self : CostTracker) : CostTracker :=
  List.fold_left (fun t o => apply_op o t) os self.

End Cost.

(** ** AgentTracer *)

Module Tracer.

Record ToolCallRecord : Type := mkRecord {
  tool_name : string;
  tool_input : PyVal;
  tool_output : string
}.

Record AgentStep : Type := mkStep {
  step_number : Z;
  reasoning : option string;
  tool_calls : list ToolCallRecord
}.

Inductive event : Type :=
  | StartTrace (trace_id : nat) (agent_name query model : string)
  | LogStep (trace_id : nat) (step : AgentStep)
  | EndTrace (trace_id : nat) (output status : string) (error : option string).

(** Modelled from the spec: src/observability/tracer.py (AgentTracer) is not
    among the sources. The tracer is the ordered log of the calls made on it;
    [start_trace] generates the trace id, [log_step] appends in step order,
    [end_trace] records the terminal status and the optional error text. *)
Definition AgentTracer : Type := list event.

Definition is_start (e : event) : bool :=
  match e with StartTrace _ _ _ _ => true | _ => false end.

Definition start_trace (agent_name query model : string) (self : AgentTracer)
    : nat * AgentTracer :=
  let trace_id := List.length (List.filter is_start self) in
  (trace_id, self ++ [StartTrace trace_id agent_name query model]).

Definition is_log_step (e : event) : bool :=
  match e with LogStep _ _ => true | _ => false end.

(** the number of steps logged so far *)
Definition steps_logged (self : AgentTracer) : nat :=
  List.length (List.filter is_log_step self).

Definition log_step (trace_id : nat) (step : AgentStep) (self : AgentTracer)
    : AgentTracer :=
  self ++ [LogStep trace_id step].

Definition end_trace (trace_id : nat) (output status : string)
    (error : option string) (self : AgentTracer) : AgentTracer :=
  self ++ [EndTrace trace_id output status error].

End Tracer.

(** ** ObservableAgent: observable_agent.py *)

Module Agent.

(** the dicts appended to [messages] *)
Inductive ChatMessage : Type :=
  | SystemMsg (content : string)
  | UserMsg (content : string)
  | AssistantMsg (content : option string) (tool_calls : list LLM.ToolCall)
  | ToolMsg (name content : string).

(** result of [check_tool_call] / [check_output_stagnation] *)
Record LoopCheck : Type := mkLoopCheck {
  is_looping : bool;
  message : string
}.

(** attributes of the agent set by [__init__] *)
Record ObservableAgent : Type := mkAgent {
  model : string;
  max_steps : Z;
  agent_name : string;
  system_prompt : option string
}.

(** [if x:] for an optional string: neither [None] nor empty *)
Definition truthy (x : option string) : bool :=
  match x with
  | Some s => negb (String.eqb s "")
  | None => false
  end.

(** [if not tool_calls:] for an optional list *)
Definition no_tool_calls (x : option (list LLM.ToolCall)) : bool :=
  match x with
  | Some (_ :: _) => false
  | _ => true
  end.

Inductive control : Type := Break | Continue.

Section Run.

(** the completion transport [litellm.acompletion]: its own state, and a
    call on the accumulated conversation that returns a response or raises;
    the tool schemas, tool_choice and max_tokens are the same at every call *)
Variable TS : Type.
Variable acompletion :
  TS -> string -> list ChatMessage -> outcome LLM.Response * TS.

(** the loop detector [AdvancedLoopDetector] (src/observability/loop_detector.py
    is not among the sources): its state and the three calls the agent makes *)
Variable LD : Type.
Variable reset : LD -> LD.
Variable check_tool_call : LD -> string -> string -> LoopCheck * LD.
Variable check_output_stagnation : LD -> option string -> LoopCheck * LD.

(** [json.loads] and [str] *)
Variable json_loads : string -> outcome PyVal.
Variable py_str : PyVal -> string.

(** everything [run] reads and updates: the collaborators held by the agent,
    the module-level [registry], and the locals of [run] *)
Record State : Type := mkState {
  tracer : Tracer.AgentTracer;
  cost_tracker : Cost.CostTracker;
  loop_detector : LD;
  transport : TS;
  registry : Registry.ToolRegistry;
  _step_number : Z;
  messages : list ChatMessage;
  final_answer : option string
}.

Definition set_tracer (t : Tracer.AgentTracer) (s : State) : State :=
  mkState t (cost_tracker s) (loop_detector s) (transport s) (registry s)
          (_step_number s) (messages s) (final_answer s).
Definition set_cost (c : Cost.CostTracker) (s : State) : State :=
  mkState (tracer s) c (loop_detector s) (transport s) (registry s)
          (_step_number s) (messages s) (final_answer s).
Definition set_detector (d : LD) (s : State) : State :=
  mkState (tracer s) (cost_tracker s) d (transport s) (registry s)
          (_step_number s) (messages s) (final_answer s).
Definition set_transport (t : TS) (s : State) : State :=
  mkState (tracer s) (cost_tracker s) (loop_detector s) t (registry s)
          (_step_number s) (messages s) (final_answer s).
Definition set_step_number (n : Z) (s : State) : State :=
  mkState (tracer s) (cost_tracker s) (loop_detector s) (transport s)
          (registry s) n (messages s) (final_answer s).
Definition set_messages (m : list ChatMessage) (s : State) : State :=
  mkState (tracer s) (cost_tracker s) (loop_detector s) (transport s)
          (registry s) (_step_number s) m (final_answer s).
Definition set_final_answer (a : option string) (s : State) : State :=
  mkState (tracer s) (cost_tracker s) (loop_detector s) (transport s)
          (registry s) (_step_number s) (messages s) a.

(** [tool.execute] on the unpacked [args_dict], where
    [tool = registry.get_tool(tool_name)]:
    the attribute lookup on [None] fails first, then the unpacking of a value
    that is no mapping, else the method is called on the keyword arguments *)
Definition call_tool (tool : option Base.BaseTool) (args_dict : PyVal)
    : outcome PyVal :=
  match tool with
  | None =>
      Raises (Exc OtherException "'NoneType' object has no attribute 'execute'")
  | Some t =>
      match args_dict with
      | PDict kwargs => Base.execute t [] kwargs
      | _ => Raises (Exc OtherException
                       (Base.qualname t
                        +:+ "() argument after ** must be a mapping, not "
                        +:+ type_name args_dict))
      end
  end.

(** the body of the inner [try:] up to the call of the tool *)
Definition invoke (reg : Registry.ToolRegistry) (tool_name tool_args : string)
    : outcome (PyVal * PyVal) :=
  match json_loads tool_args with
  | Raises e => Raises e
  | Returns args_dict =>
      match call_tool (Registry.get_tool tool_name reg) args_dict with
      | Raises e => Raises e
      | Returns result => Returns (args_dict, result)
      end
  end.

(** the two [except] clauses of the inner [try:] *)
Definition tool_error_answer (e : PyExc) : string :=
  match exc_class e with
  | ValidationError => "Tool validation error: " +:+ exc_msg e
  | _ => "Tool execution error: " +:+ exc_msg e
  end.

(** [for call in tool_calls: ...] *)
Fixpoint dispatch (calls : list LLM.ToolCall) (step : Tracer.AgentStep)
    (s : State) : Tracer.AgentStep * State :=
  match calls with
  | [] => (step, s)
  | call :: rest =>
      let tool_name := LLM.function_name call in
      let tool_args := LLM.function_arguments call in
      let '(loop_result, d) :=
        check_tool_call (loop_detector s) tool_name tool_args in
      let s := set_detector d s in
      if is_looping loop_result
      then (step, set_final_answer (Some (message loop_result)) s)
      else
        match invoke (registry s) tool_name tool_args with
        | Returns (args_dict, result) =>
            let tool_record :=
              Tracer.mkRecord tool_name args_dict (py_str result) in
            let step :=
              Tracer.mkStep (Tracer.step_number step) (Tracer.reasoning step)
                            (Tracer.tool_calls step ++ [tool_record]) in
            let s :=
              set_messages (messages s ++ [ToolMsg tool_name (py_str result)]) s in
            dispatch rest step s
        | Raises e => (step, set_final_answer (Some (tool_error_answer e)) s)
        end
  end.

(** one iteration of [while self._step_number < self.max_steps:] *)
Definition iteration (self : ObservableAgent) (trace_id : nat) (s : State)
    : outcome control * State :=
  let s := set_step_number (_step_number s + 1) s in
  let '(r, ts) := acompletion (transport s) (model self) (messages s) in
  let s := set_transport ts s in
  match r with
  | Raises e => (Raises e, s)
  | Returns response =>
      let s := set_cost (Cost.log_completion (_step_number s) response false
                                             (cost_tracker s)) s in
      match LLM.choices response with
      | [] => (Raises (Exc OtherException "list index out of range"), s)
      | msg :: _ =>
          let step := Tracer.mkStep (_step_number s) (LLM.content msg) [] in
          if no_tool_calls (LLM.tool_calls msg) then
            let '(loop_check, d) :=
              check_output_stagnation (loop_detector s) (LLM.content msg) in
            let s := set_detector d s in
            let s := set_final_answer
                       (if is_looping loop_check
                        then Some (message loop_check)
                        else LLM.content msg) s in
            let s := set_tracer (Tracer.log_step trace_id step (tracer s)) s in
            (Returns Break, s)
          else
            let calls := default [] (LLM.tool_calls msg) in
            let s := set_messages
                       (messages s ++ [AssistantMsg (LLM.content msg) calls]) s in
            let '(step, s) := dispatch calls step s in
            let s := set_tracer (Tracer.log_step trace_id step (tracer s)) s in
            if truthy (final_answer s) then (Returns Break, s)
            else (Returns Continue, s)
      end
  end.

(** the [while] loop: [_step_number] starts at 0 and grows by one per
    iteration, so [remaining] iterations are left while
    [_step_number = max_steps - remaining] *)
Fixpoint while_loop (self : ObservableAgent) (trace_id : nat)
    (remaining : nat) (s : State) : outcome unit * State :=
  match remaining with
  | O => (Returns tt, s)
  | S remaining' =>
      match iteration self trace_id s with
      | (Raises e, s') => (Raises e, s')
      | (Returns Break, s') => (Returns tt, s')
      | (Returns Continue, s') => while_loop self trace_id remaining' s'
      end
  end.

Definition fallback : string := "Max steps reached without final answer.".

Definition answer_dict (a : string) : PyVal := PDict [("answer", PStr a)].

(** the statements of [run] before the [try:]; the fields [_step_number],
    [messages] and [final_answer] of the incoming state are overwritten *)
Definition begin_run (self : ObservableAgent) (user_query : string) (s : State)
    : nat * State :=
  let '(trace_id, tr) :=
    Tracer.start_trace (agent_name self) user_query (model self) (tracer s) in
  let s := set_tracer tr s in
  let s := set_cost (Cost.start_query user_query (cost_tracker s)) s in
  let s := set_step_number 0 s in
  let s := set_detector (reset (loop_detector s)) s in
  let s := set_messages
             ((if truthy (system_prompt self)
               then [SystemMsg (default "" (system_prompt self))] else [])
              ++ [UserMsg user_query]) s in
  (trace_id, set_final_answer None s).

(** [ObservableAgent.run(user_query)] *)
Definition run (self : ObservableAgent) (user_query : string) (s : State)
    : PyVal * State :=
  let '(trace_id, s) := begin_run self user_query s in
  match while_loop self trace_id (Z.to_nat (max_steps self)) s with
  | (Returns _, s) =>
      let s := if negb (truthy (final_answer s))
               then set_final_answer (Some fallback) s else s in
      let answer := default "" (final_answer s) in
      let s := set_tracer
                 (Tracer.end_trace trace_id answer "completed" None (tracer s)) s in
      let s := set_cost (Cost.end_query (cost_tracker s)) s in
      (answer_dict answer, s)
  | (Raises e, s) =>
      let s := set_tracer
                 (Tracer.end_trace trace_id "" "error" (Some (exc_msg e))
                                   (tracer s)) s in
      let s := set_cost (Cost.end_query (cost_tracker s)) s in
      (answer_dict ("Agent failed: " +:+ exc_msg e), s)
  end.

(** the state at the top of the loop after [k] iterations that all went on
    to the next one *)
Fixpoint after (self : ObservableAgent) (trace_id : nat) (k : nat) (s : State)
    : option State :=
  match k with
  | O => Some s
  | S k' =>
      match iteration self trace_id s with
      | (Returns Continue, s') => after self trace_id k' s'
      | _ => None
      end
  end.

(** every call of a tool-call list passes the loop check, parses and
    executes without raising; the result is the detector state afterwards *)
Fixpoint smooth_calls (reg : Registry.ToolRegistry) (calls : list LLM.ToolCall)
    (d : LD) : option LD :=
  match calls with
  | [] => Some d
  | call :: rest =>
      let '(loop_result, d') :=
        check_tool_call d (LLM.function_name call) (LLM.function_arguments call) in
      if is_looping loop_result then None
      else match invoke reg (LLM.function_name call)
                        (LLM.function_arguments call) with
           | Returns _ => smooth_calls reg rest d'
           | Raises _ => None
           end
  end.

(** at state [s] the transport answers with a non-empty tool-call list all
    of whose calls go through *)
Definition step_ok (self : ObservableAgent) (s : State) : bool :=
  match acompletion (transport s) (model self) (messages s) with
  | (Returns response, _) =>
      match LLM.choices response with
      | msg :: _ =>
          match LLM.tool_calls msg with
          | Some (call :: rest) =>
              match smooth_calls (registry s) (call :: rest)
                                 (loop_detector s) with
              | Some _ => true
              | None => false
              end
          | _ => false
          end
      | [] => false
      end
  | (Raises _, _) => false
  end.

End Run.

Arguments mkState {TS LD}.
Arguments tracer {TS LD} s.
Arguments cost_tracker {TS LD} s.
Arguments loop_detector {TS LD} s.
Arguments transport {TS LD} s.
Arguments registry {TS LD} s.
Arguments _step_number {TS LD} s.
Arguments messages {TS LD} s.
Arguments final_answer {TS LD} s.
Arguments set_tracer {TS LD} t s.
Arguments set_cost {TS LD} c s.
Arguments set_detector {TS LD} d s.
Arguments set_transport {TS LD} t s.
Arguments set_step_number {TS LD} n s.
Arguments set_messages {TS LD} m s.
Arguments set_final_answer {TS LD} a s.

(** what the tool-call loop leaves alone *)
Definition same_outside {TS LD : Type} (s s' : State TS LD) : Prop :=
  tracer s' = tracer s /\ cost_tracker s' = cost_tracker s /\
  transport s' = transport s /\ registry s' = registry s /\
  _step_number s' = _step_number s.

End Agent.

(** ** Concrete tools, registries, transports and a loop detector, used to
    run the definitions on examples *)

Module Demo.

(** a tool without permissions; the bodies of the example tools accept any
    arguments *)
Definition ping : Base.BaseTool :=
  Base.mkTool "ping" [] "demo.PingTool.execute"
    (fun _ _ => Returns (PStr "pong")).

(** a tool guarded by a permission scope, as [ListFilesTool] is *)
Definition list_files : Base.BaseTool :=
  Base.mkTool "list_files" ["filesystem:read"] "demo.ListTool.execute"
    (fun _ _ =>
       Returns (Registry.result_dict true (PList [PStr "notes.txt"]) PNone)).

(** a tool whose body raises *)
Definition divide : Base.BaseTool :=
  Base.mkTool "divide" [] "demo.DivideTool.execute"
    (fun _ _ => Raises (Exc OtherException "division by zero")).

(** three registrations at clock value 0; [ping] is limited to one call per
    minute *)
Definition registry0 : Registry.ToolRegistry :=
  Registry.register 0 divide 60
    (Registry.register 0 list_files 60
       (Registry.register 0 ping 1 Registry.empty)).

(** the same registry after one governed call of [ping] at clock value 0 *)
Definition registry1 : Registry.ToolRegistry :=
  snd (Registry.execute 0 registry0 "ping" (PDict [])).

(** [str()] of a list of plain strings *)
Definition list_str (l : list string) : string :=
  "[" +:+ String.concat ", " (List.map (fun s => "'" +:+ s +:+ "'") l) +:+ "]".

(** [json.loads] on the argument strings of the examples *)
Definition json_loads (s : string) : outcome PyVal :=
  if String.eqb s "{}" then Returns (PDict [])
  else if String.eqb s "[]" then Returns (PList [])
  else Raises (Exc OtherException
                 "Expecting property name enclosed in double quotes: line 1 column 2 (char 1)").

(** [str()] of the values the example tools return *)
Definition py_str (v : PyVal) : string :=
  match v with
  | PStr s => s
  | PNone => "None"
  | PBool true => "True"
  | PBool false => "False"
  | _ => "<object>"
  end.

Record Detector : Type := mkDetector {
  recent_calls : list (string * string);   (* most recent first *)
  last_output : option (option string)
}.

Definition same_call (a b : string * string) : bool :=
  String.eqb (fst a) (fst b) && String.eqb (snd a) (snd b).

Fixpoint streak (c : string * string) (h : list (string * string)) : nat :=
  match h with
  | c' :: h' => if same_call c c' then S (streak c h') else O
  | [] => O
  end.

Definition threshold : nat := 3.

(** Modelled from the spec: src/observability/loop_detector.py is not among
    the sources. [check_tool_call] flags a (name, arguments) pair on its K-th
    consecutive occurrence, [check_output_stagnation] flags a final text
    identical to the previous one, [reset] clears the history. *)
Definition detector_reset (d : Detector) : Detector := mkDetector [] None.

Definition check_tool_call (d : Detector) (tool_name tool_args : string)
    : Agent.LoopCheck * Detector :=
  let c := (tool_name, tool_args) in
  let d' := mkDetector (c :: recent_calls d) (last_output d) in
  if Nat.leb threshold (S (streak c (recent_calls d)))
  then (Agent.mkLoopCheck true "Loop detected: the same tool call was repeated.", d')
  else (Agent.mkLoopCheck false "", d').

Definition same_output (a b : option string) : bool :=
  match a, b with
  | Some x, Some y => String.eqb x y
  | None, None => true
  | _, _ => false
  end.

Definition check_output_stagnation (d : Detector) (text : option string)
    : Agent.LoopCheck * Detector :=
  let d' := mkDetector (recent_calls d) (Some text) in
  match last_output d with
  | Some prev =>
      if same_output prev text
      then (Agent.mkLoopCheck true "Loop detected: the output is not changing.", d')
      else (Agent.mkLoopCheck false "", d')
  | None => (Agent.mkLoopCheck false "", d')
  end.

(** a scripted transport: each call pops the next scripted outcome *)
Definition scripted (script : list (outcome LLM.Response)) (model : string)
    (messages : list Agent.ChatMessage)
    : outcome LLM.Response * list (outcome LLM.Response) :=
  match script with
  | r :: rest => (r, rest)
  | [] => (Raises (Exc OtherException "no scripted response left"), [])
  end.

(** a transport that requests the same tool calls on every step *)
Definition always (calls : list LLM.ToolCall) (ts : unit) (model : string)
    (messages : list Agent.ChatMessage) : outcome LLM.Response * unit :=
  (Returns (LLM.mkResponse (Some (LLM.mkUsage (Some 12%Z) (Some 5%Z)))
              (Some "gpt-4o")
              [LLM.mkMessage None (Some calls)]), tt).

Definition requests (calls : list LLM.ToolCall) : outcome LLM.Response :=
  Returns (LLM.mkResponse (Some (LLM.mkUsage (Some 12%Z) (Some 5%Z)))
             (Some "gpt-4o") [LLM.mkMessage None (Some calls)]).

(** a script that requests a tool on step 1 and raises on step 2 *)
Definition script_raising : list (outcome LLM.Response) :=
  [requests [LLM.mkToolCall "ping" "{}"];
   Raises (Exc OtherException "connection reset")].

Definition agent (n : Z) : Agent.ObservableAgent :=
  Agent.mkAgent "gpt-4o" n "ObservableAgent" None.

(** a state before any run, on a given transport state and registry *)
Definition fresh {TS : Type} (ts : TS) (reg : Registry.ToolRegistry)
    : Agent.State TS Detector :=
  Agent.mkState [] Cost.init (mkDetector [] None) ts reg 0 [] None.

(** [run] on the scripted transport and on the constant one *)
Definition run_scripted :=
  Agent.run (list (outcome LLM.Response)) scripted Detector detector_reset
            check_tool_call check_output_stagnation json_loads py_str.

Definition run_always (calls : list LLM.ToolCall) :=
  Agent.run unit (always calls) Detector detector_reset
            check_tool_call check_output_stagnation json_loads py_str.

End Demo.


(** ** Repeated governed calls *)
Section RegistryNotions.
Import RateLimiter Registry.

(** [n] successive calls of [execute], all at clock value [now] *)
Fixpoint executes (now : Q) (tool_name : string) (arguments : PyVal) (n : nat)
    (self : ToolRegistry) : list PyVal * ToolRegistry :=
  match n with
  | O => ([], self)
  | S n' =>
      let '(r, self') := execute now self tool_name arguments in
      let '(rs, self'') := executes now tool_name arguments n' self' in
      (r :: rs, self'')
  end.

End RegistryNotions.

(** ** Notions used to state the properties of the cost tracker *)
Section CostNotions.
Import Cost.

Fixpoint Zsum (l : list Z) : Z :=
  match l with
  | [] => 0
  | x :: l' => x + Zsum l'
  end.

(** the running token totals of a query are the sums over its steps *)
Definition consistent (q : QueryCost) : Prop :=
  total_input_tokens q = Zsum (List.map input_tokens (steps q)) /\
  total_output_tokens q = Zsum (List.map output_tokens (steps q)).

(** the calls that open a query *)
Definition starts_query (o : op) : bool :=
  match o with StartQuery _ => true | _ => false end.

(** every recorded query and the open one have consistent token totals *)
Definition tracker_consistent (t : CostTracker) : Prop :=
  Forall consistent (queries t) /\
  match _current_query t with
  | Some q => consistent q
  | None => True
  end.

(** the [log_completion] calls for a list of completions *)
Definition completions (cs : list (Z * LLM.Response * bool)) : list op :=
  List.map (fun c => LogCompletion (fst (fst c)) (snd (fst c)) (snd c)) cs.

End CostNotions.

(** ** Notions and scenarios used to state the properties of the agent loop *)
(** the step numbers [start], [start + 1], ... *)
Fixpoint zrange (start : Z) (len : nat) : list Z :=
  match len with
  | O => []
  | S len' => start :: zrange (start + 1) len'
  end.

(** the conversation at the start of a run *)
Definition opening (self : Agent.ObservableAgent) (user_query : string)
    : list Agent.ChatMessage :=
  (if Agent.truthy (Agent.system_prompt self)
   then [Agent.SystemMsg (default "" (Agent.system_prompt self))] else [])
  ++ [Agent.UserMsg user_query].

Section Observed.

Variable json_loads : string -> outcome PyVal.
Variable py_str : PyVal -> string.

(** the tool-call records that the calls of a list leave in the step, up to
    the first call that does not return *)
Fixpoint tool_records (reg : Registry.ToolRegistry) (calls : list LLM.ToolCall)
    : list Tracer.ToolCallRecord :=
  match calls with
  | [] => []
  | call :: rest =>
      match Agent.invoke json_loads reg (LLM.function_name call)
                         (LLM.function_arguments call) with
      | Returns (args_dict, result) =>
          Tracer.mkRecord (LLM.function_name call) args_dict (py_str result)
          :: tool_records reg rest
      | Raises _ => []
      end
  end.

(** the observations that these calls append to the conversation *)
Fixpoint tool_observations (reg : Registry.ToolRegistry) (calls : list LLM.ToolCall)
    : list Agent.ChatMessage :=
  match calls with
  | [] => []
  | call :: rest =>
      match Agent.invoke json_loads reg (LLM.function_name call)
                         (LLM.function_arguments call) with
      | Returns (_, result) =>
          Agent.ToolMsg (LLM.function_name call) (py_str result)
          :: tool_observations reg rest
      | Raises _ => []
      end
  end.

End Observed.

(** two states of a run that differ at most in the limiters of the registry *)
Definition same_but_limiters {TS LD : Type} (s t : Agent.State TS LD) : Prop :=
  Agent.tracer t = Agent.tracer s /\
  Agent.cost_tracker t = Agent.cost_tracker s /\
  Agent.loop_detector t = Agent.loop_detector s /\
  Agent.transport t = Agent.transport s /\
  Registry._tools (Agent.registry t) = Registry._tools (Agent.registry s) /\
  Agent._step_number t = Agent._step_number s /\
  Agent.messages t = Agent.messages s /\
  Agent.final_answer t = Agent.final_answer s.

(** a state with other limiters in its registry *)
Definition with_limiters {TS LD : Type}
    (limiters : gmap string RateLimiter.ToolRateLimiter) (s : Agent.State TS LD)
    : Agent.State TS LD :=
  Agent.mkState (Agent.tracer s) (Agent.cost_tracker s) (Agent.loop_detector s)
    (Agent.transport s)
    (Registry.mkRegistry (Registry._tools (Agent.registry s)) limiters)
    (Agent._step_number s) (Agent.messages s) (Agent.final_answer s).

Module Scenario.

(** a response that answers in text, without tool calls *)
Definition answers (text : string) : outcome LLM.Response :=
  Returns (LLM.mkResponse (Some (LLM.mkUsage (Some 12%Z) (Some 5%Z)))
             (Some "gpt-4o") [LLM.mkMessage (Some text) None]).


(** a run in progress after a step that called [ping], the model about to
    request the same call twice more and then [divide] *)
Definition pinged_once : Agent.State (list (outcome LLM.Response)) Demo.Detector :=
  Agent.mkState [] Cost.init
    (Demo.mkDetector [("ping", "{}")] None)
    [Demo.requests [LLM.mkToolCall "ping" "{}"; LLM.mkToolCall "ping" "{}";
                    LLM.mkToolCall "divide" "{}"]]
    Demo.registry0 1 [Agent.UserMsg "is the service up?"] None.

End Scenario.

(** ** ListFilesTool: filesystem.py *)
Module ListFiles.

Definition BASE_DIR : string := ".".

Section WithFilesystem.

(** [os.getcwd()] and [os.listdir] *)
Variable cwd : string.
Variable listdir : string -> outcome (list string).

(** [ListFilesTool.execute(path)]; [os.listdir] raises no [SecurityError],
    so a fault of it is reported by the second handler *)
Definition execute (path : string) : PyVal :=
  match PathGuard.validate_safe_path cwd BASE_DIR path with
  | Returns safe_path =>
      match listdir safe_path with
      | Returns files =>
          Registry.result_dict true (PList (List.map PStr files)) PNone
      | Raises e => Registry.failure ("Error: " +:+ exc_msg e)
      end
  | Raises e =>
      match exc_class e with
      | SecurityError => Registry.failure ("Security error: " +:+ exc_msg e)
      | _ => Registry.failure ("Error: " +:+ exc_msg e)
      end
  end.

End WithFilesystem.
End ListFiles.

(** a path made of [n + 1] parent steps: "..", "../..", ... *)
Definition parents (n : nat) : string :=
  PathGuard.join_sep (repeat ".." (S n)).

(** a component that [normpath] keeps as it is *)
Definition kept (c : string) : bool :=
  negb (String.eqb c "" || String.eqb c ".").

(** the sum of a list of rationals *)
Fixpoint Qsum (l : list Q) : Q :=
  match l with
  | [] => 0
  | x :: l' => x + Qsum l'
  end.

(** ** HuggingFaceClient.query: hf_client.py *)
Module HFClient.

(** the exceptions that can leave [query] *)
Inductive Exn : Type :=
  | HTTPError (status : Z)        (* raised by [response.raise_for_status()] *)
  | AttributeError                (* [None.raise_for_status()] *)
  | RuntimeError (max_retries : Z) (last_status : option Z) (body : option string)
  | OtherError (e : PyExc).       (* any other fault of [requests.post] or [json()] *)

Inductive result (A : Type) : Type :=
  | Ok (a : A)
  | Err (e : Exn).
Arguments Ok {A} a.
Arguments Err {A} e.

Record Response : Type := mkResponse {
  status_code : Z;
  text : string
}.

(** what one [requests.post] call does *)
Inductive posted : Type :=
  | Got (r : Response)
  | TimedOut                      (* raises [requests.exceptions.Timeout] *)
  | Failed (e : PyExc).           (* raises anything else *)

(** [Response.raise_for_status()] *)
Definition raise_for_status (r : Response) : result unit :=
  if ((400 <=? status_code r) && (status_code r <? 600))%Z
  then Err (HTTPError (status_code r)) else Ok tt.

(** [bool(response)] is [response.ok] *)
Definition ok (r : Response) : bool :=
  match raise_for_status r with Ok _ => true | Err _ => false end.

Record Client : Type := mkClient {
  max_retries : Z;
  retry_delay : Q
}.

(** the locals of [query] and what it has done so far: the last response
    assigned, the [time.sleep] durations in order, the requests sent *)
Record State : Type := mkState {
  response : option Response;
  slept : list Q;
  posts : nat
}.

Section Query.

(** the outcome of the i-th request of this call (the request itself is the
    same at every attempt) and [response.json()] *)
Variable outcomes : nat -> posted.
Variable json : Response -> outcome PyVal.

(** the [raise RuntimeError(...)] after the loop *)
Definition exhausted (self : Client) (st : State) : Exn :=
  match response st with
  | Some r =>
      if ok r
      then RuntimeError (max_retries self) (Some (status_code r))
                        (Some (String.substring 0 200 (text r)))
      else RuntimeError (max_retries self) None None
  | None => RuntimeError (max_retries self) None None
  end.

(** [time.sleep(seconds)]: refuses a negative duration *)
Definition sleep (seconds : Q) (st : State) : result State :=
  if RateLimiter.Qltb seconds 0
  then Err (OtherError (Exc OtherException "sleep length must be non-negative"))
  else Ok (mkState (response st) (slept st ++ [seconds]) (posts st)).

(** [for attempt in range(self.max_retries): ...] from [attempt] on *)
Fixpoint attempts (self : Client) (remaining : nat) (attempt : Z) (st : State)
    : result PyVal * State :=
  match remaining with
  | O => (Err (exhausted self st), st)
  | S remaining' =>
      let sent := mkState (response st) (slept st) (S (posts st)) in
      match outcomes (posts st) with
      | Got r =>
          let st := mkState (Some r) (slept sent) (posts sent) in
          if (status_code r =? 200)%Z then
            (match json r with
             | Returns v => Ok v
             | Raises e => Err (OtherError e)
             end, st)
          else if (status_code r =? 503)%Z then
            match sleep (retry_delay self) st with
            | Ok st => attempts self remaining' (attempt + 1) st
            | Err e => (Err e, st)
            end
          else if (status_code r =? 429)%Z then
            let wait_time := (retry_delay self * inject_Z (2 ^ attempt))%Q in
            match sleep wait_time st with
            | Ok st => attempts self remaining' (attempt + 1) st
            | Err e => (Err e, st)
            end
          else
            match raise_for_status r with
            | Err e => (Err e, st)
            | Ok _ => attempts self remaining' (attempt + 1) st
            end
      | TimedOut =>
          match response sent with
          | None => (Err AttributeError, sent)
          | Some r =>
              match raise_for_status r with
              | Err e => (Err e, sent)
              | Ok _ => attempts self remaining' (attempt + 1) sent
              end
          end
      | Failed e => (Err (OtherError e), sent)
      end
  end.

(** [HuggingFaceClient.query(model_id, payload)] *)
Definition query (self : Client) : result PyVal * State :=
  attempts self (Z.to_nat (max_retries self)) 0 (mkState None [] 0).

(** a response that makes the loop wait and try again *)
Definition retried (p : posted) : bool :=
  match p with
  | Got r => negb (status_code r =? 200)%Z
             && ((status_code r =? 503)%Z || (status_code r =? 429)%Z)
  | _ => false
  end.

(** the wait that follows a retried response at attempt [attempt] *)
Definition wait (self : Client) (attempt : Z) (p : posted) : Q :=
  match p with
  | Got r => if (status_code r =? 503)%Z then retry_delay self
             else (retry_delay self * inject_Z (2 ^ attempt))%Q
  | _ => 0
  end.

(** the waits of the requests [p], [p + 1], ... made at attempts
    [attempt], [attempt + 1], ... *)
Fixpoint waits (self : Client) (p : nat) (attempt : Z) (i : nat) : list Q :=
  match i with
  | O => []
  | S i' => wait self attempt (outcomes p) :: waits self (S p) (attempt + 1) i'
  end.

End Query.

(** the exponential waits of the attempts [p], [p + 1], ... *)
Definition backoff (self : Client) (p i : nat) : list Q :=
  List.map (fun j => retry_delay self * inject_Z (2 ^ Z.of_nat j))%Q (seq p i).

(** the defaults of [__init__]: three attempts, five seconds *)
Definition default_client : Client := mkClient 3 5.

(** a server that is rate limiting, one that is loading a model and then
    times out, and one that is loading a model and then answers *)
Definition rate_limiting (i : nat) : posted := Got (mkResponse 429 "slow down").

Definition loading_then_timeout (i : nat) : posted :=
  match i with
  | O => Got (mkResponse 503 "loading")
  | _ => TimedOut
  end.

Definition loading_then_ok (i : nat) : posted :=
  match i with
  | O => Got (mkResponse 503 "loading")
  | _ => Got (mkResponse 200 "done")
  end.

(** [response.json()] on the bodies of the examples *)
Definition body_json (r : Response) : outcome PyVal := Returns (PStr (text r)).

End HFClient.

(** * Properties *)

(** * PathGuard *)
Section PathFacts.
Import PathGuard.

Lemma app_cons (c : ascii) (s t : string) :
  String c s +:+ t = String c (s +:+ t).
Proof. reflexivity. Qed.

Lemma app_nil_l (s : string) : "" +:+ s = s.
Proof. reflexivity. Qed.

Lemma app_nil_r (s : string) : s +:+ "" = s.
Proof. induction s as [|c s IH]; [reflexivity|]. rewrite app_cons, IH. reflexivity. Qed.

Lemma app_assoc (a b c : string) : (a +:+ b) +:+ c = a +:+ b +:+ c.
Proof.
  induction a as [|x a IH]; [reflexivity|]. rewrite !app_cons, IH. reflexivity.
Qed.

Lemma prefix_cons (x : ascii) (a b : string) :
  String.prefix (String x a) (String x b) = String.prefix a b.
Proof. cbn. destruct (ascii_dec x x); [reflexivity | congruence]. Qed.

Lemma prefix_app (a b c : string) :
  String.prefix (a +:+ b) (a +:+ c) = String.prefix b c.
Proof.
  induction a as [|x a IH]; [reflexivity|].
  rewrite !app_cons, prefix_cons. exact IH.
Qed.

Lemma prefix_app_l (a c : string) : String.prefix a (a +:+ c) = true.
Proof.
  rewrite <- (app_nil_r a) at 1. rewrite prefix_app. destruct c; reflexivity.
Qed.

Lemma split_cons (s : string) : exists h t, split s = h :: t.
Proof.
  induction s as [|c s (h & t & IH)]; [eauto|].
  cbn [split]. destruct (Ascii.eqb c "/"); [eauto|]. rewrite IH. eauto.
Qed.

Lemma split_app_sep (a b : string) :
  split (a +:+ String "/" b) = split a ++ split b.
Proof.
  induction a as [|c a IH]; [reflexivity|].
  rewrite app_cons. cbn [split]. destruct (Ascii.eqb c "/").
  - rewrite IH. reflexivity.
  - rewrite IH. destruct (split_cons a) as (h & t & E). rewrite E. reflexivity.
Qed.

Lemma split_no_slash (c : string) : no_slash c = true -> split c = [c].
Proof.
  induction c as [|x c IH]; [reflexivity|].
  cbn [no_slash split]. intros H. apply andb_true_iff in H as [H1 H2].
  apply negb_true_iff in H1. rewrite H1, (IH H2). reflexivity.
Qed.

Lemma split_components (s : string) :
  Forall (fun c => no_slash c = true) (split s).
Proof.
  induction s as [|x s IH]; [repeat constructor|].
  cbn [split]. destruct (Ascii.eqb x "/") eqn:E.
  - constructor; [reflexivity | exact IH].
  - destruct (split s) as [|h t]; [repeat constructor; cbn; rewrite E; reflexivity|].
    inversion IH; subst. constructor; [|assumption].
    cbn. rewrite E. assumption.
Qed.

Lemma split_join_sep (cs : list string) :
  cs <> [] -> Forall (fun c => no_slash c = true) cs -> split (join_sep cs) = cs.
Proof.
  induction cs as [|c cs IH]; [congruence|]. intros _ H.
  inversion H as [|? ? Hc Hcs]; subst.
  destruct cs as [|c2 cs].
  - cbn. apply split_no_slash. exact Hc.
  - change (join_sep (c :: c2 :: cs)) with (c +:+ "/" +:+ join_sep (c2 :: cs)).
    change ("/" +:+ join_sep (c2 :: cs)) with (String "/" (join_sep (c2 :: cs))).
    rewrite split_app_sep, (split_no_slash c Hc), IH; [reflexivity | congruence | assumption].
Qed.

Lemma split_slashes (k : nat) (s : string) :
  split (slashes k +:+ s) = repeat "" k ++ split s.
Proof.
  induction k as [|k IH]; [reflexivity|].
  cbn [slashes repeat]. rewrite app_cons. cbn [split]. cbn. rewrite IH. reflexivity.
Qed.

Lemma endswith_sep_app (a : string) :
  endswith_sep a = true -> exists a', a = a' +:+ "/".
Proof.
  induction a as [|c a IH]; [discriminate|]. cbn [endswith_sep].
  destruct a as [|c2 a].
  - intros H. apply Ascii.eqb_eq in H. subst. exists "". reflexivity.
  - intros H. destruct (IH H) as (a' & E). exists (String c a').
    rewrite app_cons, <- E. reflexivity.
Qed.


#[local] Abbreviation norm_fold k := (List.fold_left (norm_step k)).


Lemma norm_fold_empties (k n : nat) (l acc : list string) :
  norm_fold k (repeat "" n ++ l) acc = norm_fold k l acc.
Proof. induction n as [|n IH]; [reflexivity|]. cbn. exact IH. Qed.

Lemma last_good (acc : list string) :
  Forall good acc -> acc <> [] -> List.last acc "" <> "..".
Proof.
  intros H Hne.
  destruct (exists_last Hne) as (pre & l & E). subst acc.
  rewrite List.last_last. apply Forall_app in H as [_ H].
  inversion H as [|? ? (_ & Hl & _) _]; subst. exact Hl.
Qed.

Lemma norm_step_good (k : nat) (acc : list string) (c : string) :
  k <> 0%nat -> Forall good acc -> no_slash c = true ->
  Forall good (norm_step k acc c).
Proof.
  intros Hk Hacc Hc. unfold norm_step.
  destruct (String.eqb_spec c ""); [assumption|].
  destruct (String.eqb_spec c "."); [assumption|]. cbn [orb].
  destruct (String.eqb_spec c "..") as [E|E]; cbn [negb orb].
  - destruct k as [|k]; [congruence|]. cbn [Nat.eqb andb orb].
    destruct acc as [|a acc]; [assumption|]. cbn [is_nil negb andb].
    destruct (String.eqb_spec (List.last (a :: acc) "") "..") as [E'|E'].
    + exfalso. revert E'. apply last_good; [assumption | congruence].
    + apply Forall_forall. intros x Hx.
      rewrite Forall_forall in Hacc. apply Hacc.
      destruct (exists_last (l := a :: acc)) as (pre & l & E2); [congruence|].
      rewrite E2 in *. rewrite List.removelast_last in Hx.
      apply list_elem_of_In. apply list_elem_of_In in Hx.
      apply in_or_app. left. exact Hx.
  - apply Forall_app. split; [assumption|]. repeat constructor; assumption.
Qed.

Lemma norm_fold_good (k : nat) (l acc : list string) :
  k <> 0%nat -> Forall good acc -> Forall (fun c => no_slash c = true) l ->
  Forall good (norm_fold k l acc).
Proof.
  intros Hk. revert acc. induction l as [|c l IH]; intros acc Hacc Hl; [assumption|].
  inversion Hl; subst. cbn [List.fold_left].
  apply IH; [apply norm_step_good; assumption | assumption].
Qed.

(** relative second argument: the components of the join are those of the
    first part followed by those of the second *)
Lemma norm_fold_join (k : nat) (a b : string) (acc : list string) :
  startswith b "/" = false ->
  norm_fold k (split (join a b)) acc
  = norm_fold k (split b) (norm_fold k (split a) acc).
Proof.
  intros Hb. unfold join. rewrite Hb.
  destruct (String.eqb_spec a "") as [->|Ha]; [reflexivity|]. cbn [orb].
  destruct (endswith_sep a) eqn:E.
  - destruct (endswith_sep_app a E) as (a' & ->).
    rewrite app_assoc. change ("/" +:+ b) with (String "/" b).
    change (a' +:+ "/") with (a' +:+ String "/" "").
    rewrite !split_app_sep, !List.fold_left_app. reflexivity.
  - change ("/" +:+ b) with (String "/" b).
    rewrite split_app_sep, List.fold_left_app. reflexivity.
Qed.

Lemma startswith_cons (c : ascii) (s : string) :
  startswith (String c s) "/" = Ascii.eqb c "/".
Proof.
  unfold startswith. cbn [String.prefix].
  destruct (ascii_dec "/" c) as [<-|N].
  - rewrite Ascii.eqb_refl. destruct s; reflexivity.
  - symmetry. apply Ascii.eqb_neq. congruence.
Qed.

Lemma isabs_app (a t : string) : isabs a = true -> isabs (a +:+ t) = true.
Proof.
  destruct a as [|c a]; [discriminate|]. unfold isabs.
  rewrite app_cons, !startswith_cons. trivial.
Qed.

Lemma isabs_join (a b : string) :
  isabs a = true -> startswith b "/" = false -> isabs (join a b) = true.
Proof.
  intros Ha Hb. unfold join. rewrite Hb.
  destruct (_ || _); apply isabs_app; assumption.
Qed.

Lemma isrel_join (a b : string) :
  isabs a = false -> startswith b "/" = false -> isabs (join a b) = false.
Proof.
  intros Ha Hb. unfold join. rewrite Hb.
  destruct a as [|c a]; [exact Hb|]. cbn [String.eqb orb].
  unfold isabs in *. rewrite startswith_cons in Ha.
  destruct (endswith_sep _); rewrite app_cons, startswith_cons; exact Ha.
Qed.


Lemma startswith_nil (s : string) : startswith s "" = true.
Proof. destruct s; reflexivity. Qed.

Lemma startswith_step (c d : ascii) (s p : string) :
  startswith (String c s) (String d p) = Ascii.eqb c d && startswith s p.
Proof.
  unfold startswith. cbn [String.prefix].
  destruct (ascii_dec d c) as [<-|N].
  - rewrite Ascii.eqb_refl. reflexivity.
  - assert (Ascii.eqb c d = false) as -> by (apply Ascii.eqb_neq; congruence).
    reflexivity.
Qed.

Lemma startswith_empty (d : ascii) (p : string) :
  startswith "" (String d p) = false.
Proof. reflexivity. Qed.

Ltac starts :=
  repeat (rewrite ?app_cons, ?app_nil_l, ?startswith_step, ?startswith_nil,
                  ?startswith_empty, ?Ascii.eqb_refl;
          cbn [andb orb negb]).

Lemma initial_slashes_abs (p : string) :
  isabs p = true -> initial_slashes p = 1%nat \/ initial_slashes p = 2%nat.
Proof.
  unfold isabs, initial_slashes. intros ->. destruct (_ && _); auto.
Qed.

Lemma initial_slashes_join (a b : string) :
  isabs a = true -> startswith b "/" = false ->
  initial_slashes (join a b) = initial_slashes a.
Proof.
  intros Ha Hb. unfold join. rewrite Hb.
  destruct a as [|c1 a]; [discriminate|].
  unfold isabs in Ha. rewrite startswith_step in Ha.
  apply andb_true_iff in Ha as [Ha _]. apply Ascii.eqb_eq in Ha. subst c1.
  cbn [String.eqb orb].
  destruct a as [|c2 a].
  - cbn [endswith_sep]. rewrite Ascii.eqb_refl.
    unfold initial_slashes. starts.
    change ("" +:+ b) with b. rewrite Hb. reflexivity.
  - destruct (Ascii.eqb_spec c2 "/") as [->|N2].
    + destruct a as [|c3 a].
      * cbn [endswith_sep]. rewrite Ascii.eqb_refl.
        unfold initial_slashes. starts.
        change ("" +:+ b) with b. rewrite Hb. reflexivity.
      * unfold initial_slashes.
        destruct (endswith_sep _); starts; reflexivity.
    + apply Ascii.eqb_neq in N2. unfold initial_slashes.
      destruct (endswith_sep _); starts; rewrite N2; reflexivity.
Qed.

Lemma normpath_abs (p : string) :
  isabs p = true ->
  normpath p = slashes (initial_slashes p) +:+ join_sep (norm_comps p).
Proof.
  intros Hp. unfold normpath.
  destruct p as [|c p]; [discriminate|]. cbn [String.eqb].
  destruct (initial_slashes_abs _ Hp) as [-> | ->]; reflexivity.
Qed.

Lemma norm_comps_good (p : string) :
  isabs p = true -> Forall good (norm_comps p).
Proof.
  intros Hp. unfold norm_comps. apply norm_fold_good.
  - destruct (initial_slashes_abs _ Hp) as [-> | ->]; discriminate.
  - constructor.
  - apply split_components.
Qed.

Section WithCwd.
Variable cwd : string.
Hypothesis cwd_abs : isabs cwd = true.

Lemma absolute_abs (path : string) : isabs (absolute cwd path) = true.
Proof.
  unfold absolute. destruct (isabs path) eqn:E; [exact E|].
  apply isabs_join; assumption.
Qed.

Lemma abspath_canonical (path : string) :
  abspath cwd path
  = slashes (initial_slashes (absolute cwd path))
    +:+ join_sep (norm_comps (absolute cwd path)).
Proof. apply normpath_abs, absolute_abs. Qed.

(** the components of [base] joined with a relative [target] *)
Lemma absolute_join (base target : string) :
  startswith target "/" = false ->
  initial_slashes (absolute cwd (join base target)) = initial_slashes (absolute cwd base) /\
  norm_comps (absolute cwd (join base target))
  = norm_fold (initial_slashes (absolute cwd base)) (split target)
              (norm_comps (absolute cwd base)).
Proof.
  intros Ht. unfold absolute.
  destruct (isabs base) eqn:Hb.
  - rewrite (isabs_join base target Hb Ht).
    pose proof (initial_slashes_join base target Hb Ht) as E.
    split; [exact E|]. unfold norm_comps. rewrite E.
    apply norm_fold_join. exact Ht.
  - rewrite (isrel_join base target Hb Ht).
    assert (startswith (join base target) "/" = false) as Hj
      by (apply (isrel_join base target Hb Ht)).
    rewrite (initial_slashes_join cwd _ cwd_abs Hj).
    rewrite (initial_slashes_join cwd base cwd_abs Hb).
    split; [reflexivity|]. unfold norm_comps.
    rewrite (initial_slashes_join cwd _ cwd_abs Hj).
    rewrite (initial_slashes_join cwd base cwd_abs Hb).
    rewrite (norm_fold_join _ cwd (join base target) [] Hj).
    rewrite (norm_fold_join _ base target _ Ht).
    rewrite (norm_fold_join _ cwd base [] Hb). reflexivity.
Qed.


Lemma join_sep_snoc (pre : list string) (c : string) :
  join_sep (pre ++ [c]) = dirs pre +:+ c.
Proof.
  induction pre as [|d pre IH]; [reflexivity|].
  cbn [app dirs]. rewrite !app_assoc.
  destruct pre as [|d2 pre].
  - reflexivity.
  - change (join_sep (d :: (d2 :: pre) ++ [c]))
      with (d +:+ "/" +:+ join_sep ((d2 :: pre) ++ [c])).
    rewrite IH. reflexivity.
Qed.

Lemma join_sep_app (cs rest : list string) :
  exists tl, join_sep (cs ++ rest) = join_sep cs +:+ tl.
Proof.
  induction cs as [|c cs IH]; [exists (join_sep rest); reflexivity|].
  destruct cs as [|c2 cs].
  - destruct rest as [|r rest].
    + exists "". cbn. rewrite app_nil_r. reflexivity.
    + exists ("/" +:+ join_sep (r :: rest)). reflexivity.
  - destruct IH as (tl & E). exists tl.
    change (join_sep ((c :: c2 :: cs) ++ rest))
      with (c +:+ "/" +:+ join_sep ((c2 :: cs) ++ rest)).
    rewrite E.
    change (join_sep (c :: c2 :: cs)) with (c +:+ "/" +:+ join_sep (c2 :: cs)).
    rewrite !app_assoc. reflexivity.
Qed.

Lemma norm_fold_parent_x (k : nat) (cs : list string) :
  k <> 0%nat -> Forall good cs ->
  norm_fold k [".."; "x"] cs = List.removelast cs ++ ["x"].
Proof.
  intros Hk Hcs. cbn [List.fold_left].
  assert (norm_step k cs ".." = List.removelast cs) as ->; [|reflexivity].
  unfold norm_step. cbn [String.eqb Ascii.eqb Bool.eqb andb orb negb].
  destruct k as [|k]; [congruence|]. cbn [Nat.eqb andb orb].
  destruct cs as [|c cs]; [reflexivity|]. cbn [is_nil negb andb].
  destruct (String.eqb_spec (List.last (c :: cs) "") "..") as [E|E]; [|reflexivity].
  exfalso. revert E. apply last_good; [assumption | congruence].
Qed.

Lemma prefix_of_x (l : string) :
  String.prefix l "x" = true -> l = "" \/ l = "x".
Proof.
  destruct l as [|c l]; [auto|]. cbn [String.prefix].
  destruct (ascii_dec c "x") as [->|]; [|discriminate].
  destruct l; [auto | discriminate].
Qed.

Lemma length_app (a b : string) :
  String.length (a +:+ b) = (String.length a + String.length b)%nat.
Proof.
  induction a as [|c a IH]; [reflexivity|].
  rewrite app_cons. cbn [String.length]. rewrite IH. reflexivity.
Qed.

Lemma substring_all (c : string) : String.substring 0 (String.length c) c = c.
Proof. induction c as [|x c IH]; [reflexivity|]. cbn. rewrite IH. reflexivity. Qed.

Lemma substring_skip (q c : string) :
  String.substring (String.length q) (String.length c) (q +:+ c) = c.
Proof.
  induction q as [|x q IH]; [apply substring_all|].
  rewrite app_cons. cbn [String.length String.substring]. exact IH.
Qed.

Lemma rfind_sep_no_slash (c : string) : no_slash c = true -> rfind_sep c = None.
Proof.
  induction c as [|x c IH]; [reflexivity|]. cbn [no_slash rfind_sep].
  intros H. apply andb_true_iff in H as [H1 H2]. rewrite (IH H2).
  apply negb_true_iff in H1. rewrite H1. reflexivity.
Qed.

Lemma rfind_sep_app (q c : string) :
  no_slash c = true -> rfind_sep (q +:+ String "/" c) = Some (String.length q).
Proof.
  intros Hc. induction q as [|x q IH].
  - change ("" +:+ String "/" c) with (String "/" c). cbn [rfind_sep].
    rewrite (rfind_sep_no_slash c Hc). reflexivity.
  - rewrite app_cons. cbn [rfind_sep]. rewrite IH. reflexivity.
Qed.

Lemma basename_app (q c : string) :
  no_slash c = true -> basename (q +:+ String "/" c) = c.
Proof.
  intros Hc. unfold basename. rewrite (rfind_sep_app q c Hc).
  rewrite length_app. cbn [String.length].
  replace (String.length q + S (String.length c) - S (String.length q))%nat
    with (String.length c) by lia.
  change (q +:+ String "/" c) with (q +:+ "/" +:+ c).
  rewrite <- app_assoc.
  replace (S (String.length q)) with (String.length (q +:+ "/"))
    by (rewrite length_app; cbn; lia).
  apply substring_skip.
Qed.

Lemma slashes_snoc (k : nat) : slashes (S k) = slashes k +:+ "/".
Proof.
  induction k as [|k IH]; [reflexivity|].
  cbn [slashes] in *. rewrite app_cons. rewrite <- IH. reflexivity.
Qed.

Lemma dirs_end (pre : list string) :
  pre <> [] -> exists q, dirs pre = q +:+ "/".
Proof.
  induction pre as [|d pre IH]; [congruence|]. intros _.
  destruct pre as [|d2 pre].
  - exists d. cbn. reflexivity.
  - destruct IH as (q & E); [congruence|].
    exists (d +:+ "/" +:+ q). cbn [dirs] in *. rewrite E, !app_assoc. reflexivity.
Qed.

Lemma lead_end (k : nat) (pre : list string) :
  k <> 0%nat -> exists q, slashes k +:+ dirs pre = q +:+ "/".
Proof.
  intros Hk. destruct pre as [|d pre].
  - destruct k as [|k]; [congruence|]. exists (slashes k).
    cbn [dirs]. rewrite app_nil_r. apply slashes_snoc.
  - destruct (dirs_end (d :: pre)) as (q & E); [congruence|].
    exists (slashes k +:+ q). rewrite E, app_assoc. reflexivity.
Qed.


Lemma join_sep_rel (cs : list string) :
  Forall good cs -> startswith (join_sep cs) "/" = false.
Proof.
  intros H. destruct cs as [|c cs]; [reflexivity|].
  inversion H as [|? ? (Hne & _ & Hns) _]; subst.
  destruct c as [|x c]; [congruence|].
  cbn [no_slash] in Hns. apply andb_true_iff in Hns as [Hx _].
  apply negb_true_iff in Hx.
  destruct cs as [|c2 cs].
  - cbn [join_sep]. rewrite startswith_step, Hx. reflexivity.
  - change (join_sep (String x c :: c2 :: cs))
      with (String x c +:+ "/" +:+ join_sep (c2 :: cs)).
    rewrite app_cons, startswith_step, Hx. reflexivity.
Qed.

Lemma canonical_initial_slashes (k : nat) (cs : list string) :
  k = 1%nat \/ k = 2%nat -> Forall good cs ->
  initial_slashes (slashes k +:+ join_sep cs) = k.
Proof.
  intros Hk Hcs. pose proof (join_sep_rel cs Hcs) as Hr.
  unfold initial_slashes.
  destruct Hk as [-> | ->]; cbn [slashes]; starts; rewrite Hr; reflexivity.
Qed.

Lemma filter_empties (n : nat) :
  List.filter (fun c => negb (String.eqb c "")) (repeat "" n) = [].
Proof. induction n as [|n IH]; [reflexivity|]. cbn. exact IH. Qed.

Lemma filter_good (cs : list string) :
  Forall good cs -> List.filter (fun c => negb (String.eqb c "")) cs = cs.
Proof.
  induction 1 as [|c cs (Hne & _) _ IH]; [reflexivity|].
  cbn [List.filter]. destruct (String.eqb_spec c ""); [congruence|].
  cbn [negb]. rewrite IH. reflexivity.
Qed.

Lemma canonical_comps (k : nat) (cs : list string) :
  Forall good cs -> path_comps (slashes k +:+ join_sep cs) = cs.
Proof.
  intros Hcs. unfold path_comps.
  rewrite split_slashes, List.filter_app, filter_empties. cbn [app].
  destruct cs as [|c cs]; [reflexivity|].
  rewrite split_join_sep; [apply filter_good; assumption | congruence |].
  eapply Forall_impl; [exact Hcs|]. intros a (_ & _ & Ha). exact Ha.
Qed.

(** C1 (amended). With the working directory an absolute path:
    [validate_safe_path] raises the security error whenever the normalised
    absolute target does not begin with the text of the normalised absolute
    root; for every root whose normalised absolute form has a parent
    different from itself and a last component other than "x", the path
    "../x" is rejected; and a target that lies component-wise inside the
    root is returned in its normalised absolute form. *)
Theorem validate_safe_path_amended (base : string) :
  (forall target,
     startswith (abspath cwd (join base target)) (abspath cwd base) = false ->
     validate_safe_path cwd base target
     = Raises (Exc SecurityError ("Path traversal blocked: " +:+ target))) /\
  (dirname (abspath cwd base) <> abspath cwd base ->
   basename (abspath cwd base) <> "x" ->
   validate_safe_path cwd base "../x"
   = Raises (Exc SecurityError "Path traversal blocked: ../x")) /\
  (forall target,
     contained (abspath cwd base) (abspath cwd (join base target)) ->
     validate_safe_path cwd base target
     = Returns (abspath cwd (join base target))).
Proof.
  pose proof (absolute_abs base) as Habs.
  pose proof (norm_comps_good _ Habs) as Hgood.
  pose proof (initial_slashes_abs _ Habs) as Hk.
  assert (initial_slashes (absolute cwd base) <> 0%nat) as Hk0
    by (destruct Hk as [-> | ->]; discriminate).
  split; [|split].
  - intros target H. unfold validate_safe_path. rewrite H. reflexivity.
  - intros Hdir Hbase.
    assert (startswith (abspath cwd (join base "../x")) (abspath cwd base) = false)
      as H; [|unfold validate_safe_path; rewrite H; reflexivity].
    destruct (absolute_join base "../x" eq_refl) as [Ek Ec].
    rewrite !abspath_canonical in *. rewrite Ek, Ec.
    change (split "../x") with [".."; "x"].
    rewrite (norm_fold_parent_x _ _ Hk0 Hgood).
    destruct (norm_comps (absolute cwd base)) as [|c cs] eqn:Ecs.
    { exfalso. apply Hdir. destruct Hk as [-> | ->]; reflexivity. }
    destruct (exists_last (l := c :: cs)) as (pre & l & E); [congruence|].
    rewrite E in *. rewrite List.removelast_last, !join_sep_snoc.
    rewrite <- !app_assoc. unfold startswith. rewrite prefix_app.
    destruct (String.prefix l "x") eqn:Hp; [|reflexivity].
    exfalso. apply Forall_app in Hgood as [_ Hl].
    inversion Hl as [|? ? (Hne & _ & _) _]; subst.
    apply prefix_of_x in Hp as [-> | ->]; [congruence|].
    apply Hbase. rewrite join_sep_snoc, <- app_assoc.
    destruct (lead_end _ pre Hk0) as (q & ->).
    rewrite app_assoc. apply (basename_app q "x"). reflexivity.
  - intros target [Hs Hc].
    assert (startswith (abspath cwd (join base target)) (abspath cwd base) = true)
      as H; [|unfold validate_safe_path; rewrite H; reflexivity].
    pose proof (absolute_abs (join base target)) as Habs'.
    pose proof (norm_comps_good _ Habs') as Hgood'.
    pose proof (initial_slashes_abs _ Habs') as Hk'.
    rewrite !abspath_canonical in *.
    rewrite !canonical_initial_slashes in Hs by assumption.
    rewrite !canonical_comps in Hc by assumption.
    destruct Hc as (rest & Hc). rewrite <- Hs, Hc.
    destruct (join_sep_app (norm_comps (absolute cwd base)) rest) as (tl & ->).
    rewrite <- app_assoc. unfold startswith. apply prefix_app_l.
Qed.

End WithCwd.
End PathFacts.

(** * CostTracker *)


Lemma apply_ops_queries_grow (os : list Cost.op) (t : Cost.CostTracker) :
  Cost.queries t `prefix_of` Cost.queries (Cost.apply_ops os t).
Proof.
  revert t. induction os as [|o os IH]; intros t; [reflexivity|].
  change (Cost.apply_ops (o :: os) t)
    with (Cost.apply_ops os (Cost.apply_op o t)).
  transitivity (Cost.queries (Cost.apply_op o t)); [|apply IH].
  destruct o as [q|n r b|]; cbn.
  - reflexivity.
  - unfold Cost.log_completion. destruct (Cost._current_query t); [|reflexivity].
    destruct (LLM.usage r); reflexivity.
  - unfold Cost.end_query. destruct (Cost._current_query t); [|reflexivity].
    cbn. apply prefix_app_r. reflexivity.
Qed.

(** C10. [start_query] on a tracker with an open query replaces the open query
    by a fresh one: the list of completed queries is unchanged (whereas
    [end_query] would have appended the open query), the new open query has
    no steps and zero totals, closing it appends the fresh query only, and
    after any later sequence of calls the tracker is the one obtained had no
    query been open, its completed list extending the old one: the prior
    query, its steps and its totals are never recorded. *)
Theorem start_query_replaces_open_query
    (t : Cost.CostTracker) (prior : Cost.QueryCost) (q : string) :
  Cost._current_query t = Some prior ->
  Cost.queries (Cost.start_query q t) = Cost.queries t /\
  Cost.queries (Cost.end_query t) = Cost.queries t ++ [prior] /\
  Cost._current_query (Cost.start_query q t)
    = Some (Cost.mkQueryCost q [] 0%Q 0%Z 0%Z) /\
  Cost.end_query (Cost.start_query q t)
    = Cost.mkTracker (Cost.queries t ++ [Cost.new_query q]) None /\
  forall os : list Cost.op,
    Cost.apply_ops os (Cost.start_query q t)
    = Cost.apply_ops os (Cost.start_query q (Cost.mkTracker (Cost.queries t) None)) /\
    Cost.queries t `prefix_of` Cost.queries (Cost.apply_ops os (Cost.start_query q t)).
Proof.
  intros H. split; [reflexivity|]. split.
  { unfold Cost.end_query. rewrite H. reflexivity. }
  split; [reflexivity|]. split; [reflexivity|].
  intros os. split; [reflexivity|].
  apply (apply_ops_queries_grow os (Cost.start_query q t)).
Qed.

(** * RateLimiter *)
Section LimiterFacts.
Import RateLimiter.

Lemma Qltb_lt (x y : Q) : Qltb x y = true <-> (x < y)%Q.
Proof.
  unfold Qltb. rewrite negb_true_iff. split.
  - intros H. apply Qnot_le_lt. intros Hle.
    apply Qle_bool_iff in Hle. congruence.
  - intros H. destruct (Qle_bool y x) eqn:E; [|reflexivity].
    apply Qle_bool_iff in E. exfalso. apply (Qlt_not_le _ _ H E).
Qed.

Lemma Qltb_ge (x y : Q) : Qltb x y = false <-> (y <= x)%Q.
Proof.
  unfold Qltb. rewrite negb_false_iff. apply Qle_bool_iff.
Qed.

Lemma is_allowed_unfold (current : Q) (self : ToolRateLimiter) :
  is_allowed current self =
  if Qltb (refilled current self) 1
  then (false, mkLimiter (calls_per_minute self) (refilled current self) current)
  else (true, mkLimiter (calls_per_minute self) (refilled current self - 1)%Q current).
Proof. reflexivity. Qed.

Lemma is_allowed_capacity (current : Q) (self : ToolRateLimiter) :
  calls_per_minute (snd (is_allowed current self)) = calls_per_minute self.
Proof. rewrite is_allowed_unfold. destruct (Qltb _ 1); reflexivity. Qed.


Lemma refilled_bounds (current : Q) (self : ToolRateLimiter) :
  (0 <= calls_per_minute self)%Z ->
  (last_check self <= current)%Q ->
  (0 <= allowance self)%Q ->
  (0 <= refilled current self <= inject_Z (calls_per_minute self))%Q.
Proof.
  intros Hc Ht Ha. unfold refilled.
  assert (0 <= inject_Z (calls_per_minute self))%Q as Hc'.
  { change 0%Q with (inject_Z 0). rewrite <- Zle_Qle. exact Hc. }
  destruct (Qltb _ _) eqn:E.
  - split; [exact Hc' | apply Qle_refl].
  - apply Qltb_ge in E. split; [|exact E].
    assert (0 <= (current - last_check self) * (inject_Z (calls_per_minute self) / 60))%Q.
    { apply Qmult_le_0_compat; [lra|].
      apply Qle_shift_div_l; [reflexivity | lra]. }
    lra.
Qed.

(** one call keeps the allowance inside [0, capacity] *)
Lemma is_allowed_bounds (current : Q) (self : ToolRateLimiter) :
  (0 <= calls_per_minute self)%Z ->
  (last_check self <= current)%Q ->
  (0 <= allowance self)%Q ->
  (0 <= allowance (snd (is_allowed current self))
     <= inject_Z (calls_per_minute self))%Q.
Proof.
  intros Hc Ht Ha.
  destruct (refilled_bounds current self Hc Ht Ha) as [H0 H1].
  rewrite is_allowed_unfold.
  destruct (Qltb (refilled current self) 1) eqn:E; simpl.
  - split; assumption.
  - apply Qltb_ge in E. split; lra.
Qed.


Lemma calls_bounds (dts : list Q) (self : ToolRateLimiter) :
  (0 <= calls_per_minute self)%Z ->
  Forall (fun dt => 0 <= dt)%Q dts ->
  (0 <= allowance self <= inject_Z (calls_per_minute self))%Q ->
  (0 <= allowance (snd (calls dts self)) <= inject_Z (calls_per_minute self))%Q.
Proof.
  intros Hc Hdts. revert self Hc.
  induction Hdts as [|dt dts Hdt _ IH]; intros self Hc Ha; [exact Ha|].
  simpl.
  pose proof (is_allowed_capacity (last_check self + dt)%Q self) as Hcap.
  pose proof (is_allowed_bounds (last_check self + dt)%Q self Hc) as Hb.
  destruct (is_allowed _ self) as [b self']. simpl in Hcap, Hb.
  specialize (IH self'). destruct (calls dts self') as [bs self''].
  simpl in *. rewrite Hcap in IH. apply IH; [exact Hc|].
  apply Hb; [lra | tauto].
Qed.

(** C8. Starting from a freshly constructed limiter of capacity
    [C >= 0], after any sequence of [is_allowed()] calls separated by
    non-negative elapsed times the allowance lies between 0 and the capacity
    (every prefix of a sequence is a sequence, so this holds after each call). *)
Theorem allowance_within_bounds (C : Z) (now : Q) (dts : list Q) :
  (0 <= C)%Z ->
  Forall (fun dt => 0 <= dt)%Q dts ->
  (0 <= allowance (snd (calls dts (init C now))) <= inject_Z C)%Q.
Proof.
  intros HC Hdts.
  apply (calls_bounds dts (init C now) HC Hdts). simpl.
  split; [|apply Qle_refl].
  change 0%Q with (inject_Z 0). rewrite <- Zle_Qle. exact HC.
Qed.

Lemma allowance_within_bounds_witness :
  (0 <= allowance (snd (calls [0; 30; 1 # 2; 600]%Q (init 2 0))) <= inject_Z 2)%Q.
Proof.
  apply (allowance_within_bounds 2 0 [0; 30; 1 # 2; 600]%Q).
  - lia.
  - repeat constructor; discriminate.
Defined.

(** an immediate call on a limiter holding [k] whole tokens, [k <= capacity] *)
Lemma immediate_call (self : ToolRateLimiter) (k : Z) :
  (allowance self == inject_Z k)%Q ->
  (k <= calls_per_minute self)%Z ->
  let r := is_allowed (last_check self + 0)%Q self in
  fst r = (1 <=? k)%Z /\
  calls_per_minute (snd r) = calls_per_minute self /\
  (allowance (snd r) == inject_Z (if (1 <=? k)%Z then k - 1 else k))%Q.
Proof.
  intros Ha Hk r. subst r. rewrite is_allowed_unfold.
  assert (refilled (last_check self + 0) self == inject_Z k)%Q as Hr.
  { unfold refilled.
    assert ((allowance self + (last_check self + 0 - last_check self)
              * (inject_Z (calls_per_minute self) / 60)) == inject_Z k)%Q as E.
    { rewrite Ha. field. }
    destruct (Qltb _ _) eqn:L; [|exact E].
    apply Qltb_lt in L. rewrite E in L. rewrite <- Zlt_Qlt in L. lia. }
  destruct (Qltb (refilled (last_check self + 0) self) 1) eqn:L; simpl.
  - apply Qltb_lt in L. rewrite Hr in L. change 1%Q with (inject_Z 1) in L.
    rewrite <- Zlt_Qlt in L.
    destruct (Z.leb_spec 1 k); [lia|]. repeat split. exact Hr.
  - apply Qltb_ge in L. rewrite Hr in L. change 1%Q with (inject_Z 1) in L.
    rewrite <- Zle_Qle in L.
    destruct (Z.leb_spec 1 k); [|lia]. repeat split.
    rewrite Hr. unfold Qminus. change (- (1))%Q with (inject_Z (-1)).
    rewrite <- inject_Z_plus. reflexivity.
Qed.

Lemma burst_from (n : nat) (self : ToolRateLimiter) :
  (allowance self == inject_Z (Z.of_nat n))%Q ->
  (Z.of_nat n <= calls_per_minute self)%Z ->
  fst (calls (repeat 0%Q (n + 1)) self) = repeat true n ++ [false].
Proof.
  revert self. induction n as [|n IH]; intros self Ha Hk.
  - simpl. destruct (immediate_call self 0 Ha Hk) as (Hb & _ & _).
    destruct (is_allowed _ self) as [b self']. simpl in Hb. subst b. reflexivity.
  - cbn [Nat.add repeat calls].
    destruct (immediate_call self (Z.of_nat (S n)) Ha Hk) as (Hb & Hc & Ha').
    destruct (is_allowed _ self) as [b self']. simpl in Hb, Hc, Ha'.
    assert ((1 <=? Z.of_nat (S n))%Z = true) as E by (apply Z.leb_le; lia).
    rewrite E in Hb, Ha'. subst b.
    specialize (IH self').
    destruct (calls (repeat 0%Q (n + 1)) self') as [bs self''].
    cbn [fst repeat app] in *. f_equal. apply IH.
    + rewrite Ha'. replace (Z.of_nat (S n) - 1)%Z with (Z.of_nat n) by lia.
      reflexivity.
    + lia.
Qed.

(** C7. On a freshly constructed limiter of capacity [C >= 1], [C] immediate
    calls (no time elapsed) all return [True] and the next immediate call
    returns [False]. *)
Theorem burst_then_deny (C : Z) (now : Q) :
  (1 <= C)%Z ->
  fst (calls (repeat 0%Q (Z.to_nat C + 1)) (init C now))
  = repeat true (Z.to_nat C) ++ [false].
Proof.
  intros HC. apply burst_from; unfold init; cbn [allowance calls_per_minute];
    rewrite Z2Nat.id by lia.
  - reflexivity.
  - apply Z.le_refl.
Qed.

Lemma burst_then_deny_witness :
  fst (calls (repeat 0%Q (Z.to_nat 5 + 1)) (init 5 0))
  = repeat true (Z.to_nat 5) ++ [false].
Proof. apply (burst_then_deny 5 0). lia. Defined.

End LimiterFacts.

(** * ToolRegistry *)
Section RegistryFacts.
Import Registry.

Lemma failure_shaped (msg : string) : well_shaped (failure msg).
Proof.
  exists false, PNone, (PStr msg). repeat split; eauto.
Qed.

Lemma guarded_call_shaped (tool : Base.BaseTool) (arguments : PyVal) :
  well_shaped (guarded_call tool arguments).
Proof.
  unfold guarded_call. destruct (Base.execute tool [arguments] []) as [r|e].
  - exists true, r, PNone. repeat split; eauto; discriminate.
  - apply failure_shaped.
Qed.

(** C6. [execute] is a total error boundary: for every registry, tool name
    and arguments the call returns a dict of exactly the three keys
    success/result/error; an unregistered name, a denied rate-limit check and
    a tool body that raises each give [success = False] with the error text,
    and a tool body that returns gives [success = True] with its result. *)
Theorem execute_error_boundary
    (now : Q) (self : ToolRegistry) (tool_name : string) (arguments : PyVal) :
  let r := fst (execute now self tool_name arguments) in
  well_shaped r /\
  keys r = ["success"; "result"; "error"] /\
  (get_tool tool_name self = None ->
     r = failure ("Tool '" +:+ tool_name +:+ "' not found.")) /\
  (forall tool limiter,
     get_tool tool_name self = Some tool ->
     _limiters self !! tool_name = Some limiter ->
     fst (RateLimiter.is_allowed now limiter) = false ->
     r = failure ("Rate limit exceeded for tool '" +:+ tool_name +:+ "'.")) /\
  (forall tool,
     get_tool tool_name self = Some tool ->
     (forall limiter, _limiters self !! tool_name = Some limiter ->
        fst (RateLimiter.is_allowed now limiter) = true) ->
     r = match Base.execute tool [arguments] [] with
         | Returns result => result_dict true result PNone
         | Raises e => failure (exc_msg e)
         end).
Proof.
  intros r. subst r. unfold execute.
  destruct (get_tool tool_name self) as [tool|] eqn:Ht.
  - destruct (_limiters self !! tool_name) as [limiter|] eqn:Hl.
    + destruct (RateLimiter.is_allowed now limiter) as [ok limiter'] eqn:Ha.
      destruct ok; cbn [negb fst].
      * split; [apply guarded_call_shaped|]. split.
        { unfold guarded_call. destruct (Base.execute tool [arguments] []); reflexivity. }
        split; [discriminate|]. split.
        { intros t l Et El. inversion Et; inversion El; subst.
          rewrite Ha. discriminate. }
        { intros t Et _. inversion Et; subst. reflexivity. }
      * split; [apply failure_shaped|]. split; [reflexivity|].
        split; [discriminate|]. split; [reflexivity|].
        intros t Et Hok. specialize (Hok limiter eq_refl).
        rewrite Ha in Hok. discriminate.
    + cbn [fst]. split; [apply guarded_call_shaped|]. split.
      { unfold guarded_call. destruct (Base.execute tool [arguments] []); reflexivity. }
      split; [discriminate|]. split; [discriminate|].
      intros t Et _. inversion Et; subst. reflexivity.
  - cbn [fst]. split; [apply failure_shaped|]. split; [reflexivity|].
    split; [reflexivity|]. split; discriminate.
Qed.

Section SecureFacts.
Variable list_str : list string -> string.

Lemma missing_permissions_spec (tool : Base.BaseTool) (granted : list string) (p : string) :
  p ∈ missing_permissions tool granted <-> p ∈ Base.permissions tool /\ p ∉ granted.
Proof.
  unfold missing_permissions.
  rewrite (list_elem_of_In (List.filter _ _) p), filter_In.
  rewrite negb_true_iff, bool_decide_eq_false, <- list_elem_of_In. reflexivity.
Qed.

Lemma missing_permissions_nil (tool : Base.BaseTool) (granted : list string) :
  missing_permissions tool granted = [] <-> Base.permissions tool ⊆ granted.
Proof.
  split.
  - intros H p Hp. destruct (decide (p ∈ granted)) as [|Hn]; [assumption|].
    assert (p ∈ missing_permissions tool granted) as Hm
      by (apply missing_permissions_spec; auto).
    rewrite H in Hm. inversion Hm.
  - intros H. destruct (missing_permissions tool granted) as [|p l] eqn:E;
      [reflexivity|].
    assert (p ∈ missing_permissions tool granted) as Hm
      by (rewrite E; left).
    apply missing_permissions_spec in Hm as [Hp Hn]. destruct Hn. auto.
Qed.

(** C5. For a registered tool requiring the permissions [P]: a caller whose
    granted list does not contain all of [P] gets the access-denied failure
    naming exactly the missing scopes, and the registry, in particular the
    tool's limiter and its allowance, is left unchanged; a caller
    whose granted list contains all of [P] gets exactly the result and the
    state change of [execute]. *)
Theorem execute_secure_permissions_first
    (now : Q) (self : ToolRegistry) (tool_name : string) (arguments : PyVal)
    (granted : list string) (tool : Base.BaseTool) :
  get_tool tool_name self = Some tool ->
  (~ Base.permissions tool ⊆ granted ->
     let missing := missing_permissions tool granted in
     execute_secure list_str now self tool_name arguments granted
       = (failure ("Access Denied. Missing permissions: " +:+ list_str missing),
          self) /\
     missing <> [] /\
     (forall p, p ∈ missing <-> p ∈ Base.permissions tool /\ p ∉ granted) /\
     RateLimiter.allowance <$>
       (_limiters (snd (execute_secure list_str now self tool_name arguments
                          granted)) !! tool_name)
     = RateLimiter.allowance <$> (_limiters self !! tool_name)) /\
  (Base.permissions tool ⊆ granted ->
     execute_secure list_str now self tool_name arguments granted
     = execute now self tool_name arguments).
Proof.
  intros Ht. unfold execute_secure. rewrite Ht. split.
  - intros Hn. cbv zeta.
    assert (missing_permissions tool granted <> []) as Hm.
    { intros E. apply Hn. apply missing_permissions_nil. exact E. }
    assert (is_nil (missing_permissions tool granted) = false) as Hnil
      by (destruct (missing_permissions tool granted); [congruence | reflexivity]).
    rewrite Hnil. cbn [negb snd].
    split; [reflexivity|]. split; [exact Hm|]. split; [|reflexivity].
    intros p. apply missing_permissions_spec.
  - intros Hs. apply missing_permissions_nil in Hs. rewrite Hs. reflexivity.
Qed.

End SecureFacts.
End RegistryFacts.

(** * ObservableAgent *)
Section AgentFacts.
Import Agent.

Variable TS : Type.
Variable acompletion :
  TS -> string -> list ChatMessage -> outcome LLM.Response * TS.
Variable LD : Type.
Variable reset : LD -> LD.
Variable check_tool_call : LD -> string -> string -> LoopCheck * LD.
Variable check_output_stagnation : LD -> option string -> LoopCheck * LD.
Variable json_loads : string -> outcome PyVal.
Variable py_str : PyVal -> string.

#[local] Abbreviation State := (Agent.State TS LD).
#[local] Abbreviation dispatch := (Agent.dispatch TS LD check_tool_call json_loads py_str).
#[local] Abbreviation iteration :=
  (Agent.iteration TS acompletion LD check_tool_call check_output_stagnation
                   json_loads py_str).
#[local] Abbreviation while_loop :=
  (Agent.while_loop TS acompletion LD check_tool_call check_output_stagnation
                    json_loads py_str).
#[local] Abbreviation begin_run := (Agent.begin_run TS LD reset).
#[local] Abbreviation run :=
  (Agent.run TS acompletion LD reset check_tool_call check_output_stagnation
             json_loads py_str).
#[local] Abbreviation after :=
  (Agent.after TS acompletion LD check_tool_call check_output_stagnation
               json_loads py_str).
#[local] Abbreviation smooth_calls := (Agent.smooth_calls LD check_tool_call json_loads).
#[local] Abbreviation step_ok :=
  (Agent.step_ok TS acompletion LD check_tool_call json_loads).
#[local] Abbreviation invoke := (Agent.invoke json_loads).
#[local] Abbreviation records := (tool_records json_loads py_str).
#[local] Abbreviation observations := (tool_observations json_loads py_str).

Lemma dispatch_frame (calls : list LLM.ToolCall) (step : Tracer.AgentStep)
    (s : State) :
  same_outside s (snd (dispatch calls step s)).
Proof.
  revert step s. induction calls as [|call rest IH]; intros step s.
  - repeat split.
  - cbn [Agent.dispatch].
    destruct (check_tool_call _ _ _) as [lr d].
    destruct (is_looping lr); [repeat split|].
    destruct (invoke _ _ _) as [[args_dict result]|e]; [|repeat split].
    match goal with |- same_outside _ (snd (Agent.dispatch _ _ _ _ _ _ ?st ?s')) =>
      destruct (IH st s') as (H1 & H2 & H3 & H4 & H5) end.
    repeat split; assumption.
Qed.

Lemma iteration_registry (self : ObservableAgent) (trace_id : nat) (s : State) :
  registry (snd (iteration self trace_id s)) = registry s.
Proof.
  unfold Agent.iteration.
  destruct (acompletion _ _ _) as [[response|e] ts]; [|reflexivity].
  cbn [set_transport set_step_number set_cost transport _step_number
       cost_tracker messages registry tracer loop_detector final_answer].
  destruct (LLM.choices response) as [|msg rest]; [reflexivity|].
  destruct (no_tool_calls (LLM.tool_calls msg)).
  - destruct (check_output_stagnation _ _) as [lc d]. reflexivity.
  - match goal with |- context [Agent.dispatch _ _ _ _ _ ?c ?st ?s'] =>
      pose proof (dispatch_frame c st s') as (_ & _ & _ & H4 & _);
      destruct (dispatch c st s') as [step' s''] end.
    cbn [snd] in H4.
    destruct (truthy _); cbn [snd set_tracer registry]; exact H4.
Qed.

Lemma while_loop_registry (self : ObservableAgent) (trace_id : nat) (n : nat)
    (s : State) :
  registry (snd (while_loop self trace_id n s)) = registry s.
Proof.
  revert s. induction n as [|n IH]; intros s; [reflexivity|].
  cbn [Agent.while_loop].
  pose proof (iteration_registry self trace_id s) as H.
  destruct (iteration self trace_id s) as [[[|]|e] s']; cbn [snd] in *;
    try exact H.
  rewrite IH. exact H.
Qed.

Lemma run_registry (self : ObservableAgent) (q : string) (s : State) :
  registry (snd (run self q s)) = registry s.
Proof.
  unfold Agent.run, Agent.begin_run.
  destruct (Tracer.start_trace _ _ _ _) as [trace_id tr].
  match goal with |- context [Agent.while_loop _ _ _ _ _ _ _ ?a ?i ?n ?s0] =>
    pose proof (while_loop_registry a i n s0) as H;
    destruct (while_loop a i n s0) as [[u|e] s1] end; cbn [snd] in *.
  - destruct (negb (truthy (final_answer s1))); exact H.
  - exact H.
Qed.


Lemma end_query_closed (t : Cost.CostTracker) :
  Cost._current_query (Cost.end_query t) = None.
Proof. unfold Cost.end_query. destruct (Cost._current_query t) eqn:E; auto. Qed.

Lemma iteration_transport_raises (self : ObservableAgent) (trace_id : nat)
    (s : State) (e : PyExc) (ts : TS) :
  acompletion (transport s) (model self) (messages s) = (Raises e, ts) ->
  iteration self trace_id s
  = (Raises e, set_transport ts (set_step_number (_step_number s + 1) s)).
Proof.
  intros H. unfold Agent.iteration.
  cbn [set_step_number transport messages]. rewrite H. reflexivity.
Qed.

Lemma after_then_raise (self : ObservableAgent) (trace_id : nat) (k n : nat)
    (s sk sk' : State) (e : PyExc) :
  after self trace_id k s = Some sk ->
  iteration self trace_id sk = (Raises e, sk') ->
  (k < n)%nat ->
  while_loop self trace_id n s = (Raises e, sk').
Proof.
  revert n s. induction k as [|k IH]; intros n s Hk Hi Hlt.
  - cbn in Hk. inversion Hk; subst. destruct n as [|n]; [lia|].
    cbn [Agent.while_loop]. rewrite Hi. reflexivity.
  - destruct n as [|n]; [lia|]. cbn [Agent.after] in Hk.
    cbn [Agent.while_loop].
    destruct (iteration self trace_id s) as [[[|]|e'] s1]; try discriminate.
    apply IH; [assumption | assumption | lia].
Qed.

(** C2. [run] always returns a dict whose only key is "answer" and closes
    the cost query and the trace; when the transport raises at some step of
    the run, the run returns the dict with the text "Agent failed: ..." and
    the trace is ended with status "error" and the error text. *)
Theorem run_never_raises (self : ObservableAgent) (q : string) (s : State) :
  let r := run self q s in
  let trace_id := fst (begin_run self q s) in
  let s0 := snd (begin_run self q s) in
  (exists a, fst r = PDict [("answer", PStr a)]) /\
  Cost._current_query (cost_tracker (snd r)) = None /\
  (exists output status error,
     last (tracer (snd r)) = Some (Tracer.EndTrace trace_id output status error) /\
     (status = "completed" \/ status = "error")) /\
  forall (k : nat) (sk : State) (e : PyExc) (ts : TS),
    (k < Z.to_nat (max_steps self))%nat ->
    after self trace_id k s0 = Some sk ->
    acompletion (transport sk) (model self) (messages sk) = (Raises e, ts) ->
    fst r = PDict [("answer", PStr ("Agent failed: " +:+ exc_msg e))] /\
    tracer (snd r)
    = tracer sk ++ [Tracer.EndTrace trace_id "" "error" (Some (exc_msg e))].
Proof.
  cbv zeta. unfold Agent.run.
  destruct (begin_run self q s) as [trace_id s0]. cbn [fst snd].
  destruct (while_loop self trace_id (Z.to_nat (max_steps self)) s0)
    as [[u|e0] s1] eqn:Hloop.
  - cbn [fst snd set_cost set_tracer cost_tracker tracer].
    split; [eexists; reflexivity|]. split; [apply end_query_closed|].
    split.
    { do 3 eexists. split; [|left; reflexivity].
      unfold Tracer.end_trace. apply last_snoc. }
    intros k sk e ts Hk Ha Ht.
    pose proof (iteration_transport_raises self trace_id sk e ts Ht) as Hi.
    pose proof (after_then_raise _ _ _ _ _ _ _ _ Ha Hi Hk) as Hw.
    rewrite Hloop in Hw. discriminate.
  - cbn [fst snd set_cost set_tracer cost_tracker tracer].
    split; [eexists; reflexivity|]. split; [apply end_query_closed|].
    split.
    { do 3 eexists. split; [|right; reflexivity].
      unfold Tracer.end_trace. apply last_snoc. }
    intros k sk e ts Hk Ha Ht.
    pose proof (iteration_transport_raises self trace_id sk e ts Ht) as Hi.
    pose proof (after_then_raise _ _ _ _ _ _ _ _ Ha Hi Hk) as Hw.
    rewrite Hloop in Hw. inversion Hw; subst. split; reflexivity.
Qed.


Lemma tool_error_answer_truthy (e : PyExc) :
  truthy (Some (tool_error_answer e)) = true.
Proof.
  unfold tool_error_answer. destruct (exc_class e); reflexivity.
Qed.





Lemma dispatch_smooth (calls : list LLM.ToolCall) (step : Tracer.AgentStep)
    (s : State) (d : LD) :
  smooth_calls (registry s) calls (loop_detector s) = Some d ->
  loop_detector (snd (dispatch calls step s)) = d /\
  final_answer (snd (dispatch calls step s)) = final_answer s.
Proof.
  revert step s. induction calls as [|call rest IH]; intros step s H.
  - cbn in H. inversion H. split; reflexivity.
  - cbn [Agent.smooth_calls] in H. cbn [Agent.dispatch].
    destruct (check_tool_call _ _ _) as [lr d0].
    destruct (is_looping lr); [discriminate|].
    cbn [set_detector registry].
    destruct (invoke _ _ _) as [[args_dict result]|e]; [|discriminate].
    match goal with |- context [Agent.dispatch _ _ _ _ _ _ ?st ?s'] =>
      destruct (IH st s' H) as [H1 H2] end.
    split; assumption.
Qed.

Lemma steps_logged_log_step (trace_id : nat) (step : Tracer.AgentStep)
    (t : Tracer.AgentTracer) :
  Tracer.steps_logged (Tracer.log_step trace_id step t)
  = S (Tracer.steps_logged t).
Proof.
  unfold Tracer.steps_logged, Tracer.log_step.
  rewrite List.filter_app, List.length_app. cbn. lia.
Qed.

Lemma iteration_smooth (self : ObservableAgent) (trace_id : nat) (s : State) :
  step_ok self s = true ->
  final_answer s = None ->
  exists s',
    iteration self trace_id s = (Returns Continue, s') /\
    final_answer s' = None /\
    _step_number s' = (_step_number s + 1)%Z /\
    Tracer.steps_logged (tracer s') = S (Tracer.steps_logged (tracer s)).
Proof.
  unfold Agent.step_ok, Agent.iteration. intros Hok Hfin.
  cbn [set_step_number transport messages].
  destruct (acompletion _ _ _) as [[response|e] ts]; [|discriminate].
  cbn [set_transport set_cost _step_number cost_tracker].
  destruct (LLM.choices response) as [|msg others]; [discriminate|].
  destruct (LLM.tool_calls msg) as [[|call rest]|]; try discriminate.
  cbn [no_tool_calls default set_messages messages].
  destruct (smooth_calls (registry s) (call :: rest) (loop_detector s))
    as [d|] eqn:Hs; [|discriminate].
  match goal with |- context [Agent.dispatch _ _ _ _ _ ?c ?st ?s1] =>
    pose proof (dispatch_smooth c st s1 d Hs) as [_ Hf];
    pose proof (dispatch_frame c st s1) as (Ht & _ & _ & _ & Hn);
    destruct (dispatch c st s1) as [step' s2] end.
  cbn [snd final_answer tracer _step_number set_messages set_cost
       set_transport set_step_number] in Hf, Ht, Hn.
  cbn [set_tracer final_answer]. rewrite Hf, Hfin. cbn [truthy].
  eexists. split; [reflexivity|].
  cbn [final_answer _step_number tracer set_tracer].
  split; [congruence|]. split; [exact Hn|].
  rewrite steps_logged_log_step, Ht. reflexivity.
Qed.

Lemma loop_smooth (self : ObservableAgent) (trace_id : nat) (n : nat) (s : State) :
  final_answer s = None ->
  (forall k sk, (k < n)%nat -> after self trace_id k s = Some sk ->
                step_ok self sk = true) ->
  exists s',
    while_loop self trace_id n s = (Returns tt, s') /\
    final_answer s' = None /\
    _step_number s' = (_step_number s + Z.of_nat n)%Z /\
    Tracer.steps_logged (tracer s') = (Tracer.steps_logged (tracer s) + n)%nat.
Proof.
  revert s. induction n as [|n IH]; intros s Hfin Hall.
  - exists s. cbn [Agent.while_loop]. repeat split; [assumption | lia | lia].
  - assert (step_ok self s = true) as H0 by (apply (Hall 0%nat); [lia | reflexivity]).
    destruct (iteration_smooth self trace_id s H0 Hfin) as (s1 & Hi & Hf & Hn & Hl).
    destruct (IH s1 Hf) as (s' & Hw & Hf' & Hn' & Hl').
    { intros k sk Hk Ha. apply (Hall (S k)); [lia|].
      cbn [Agent.after]. rewrite Hi. exact Ha. }
    exists s'. cbn [Agent.while_loop]. rewrite Hi.
    repeat split; [assumption | assumption | lia | lia].
Qed.

(** C9 (amended). If at every step of the run the transport answers with a
    non-empty tool-call list all of whose calls pass the loop check, parse
    and execute without raising, then the loop runs exactly [max_steps]
    steps (none if [max_steps] is not positive), one step is logged per
    iteration, and the run returns the fixed fallback message with the trace
    ended as "completed". *)
Theorem max_steps_fallback (self : ObservableAgent) (q : string) (s : State) :
  let r := run self q s in
  let trace_id := fst (begin_run self q s) in
  let s0 := snd (begin_run self q s) in
  (forall (k : nat) (sk : State),
     (k < Z.to_nat (max_steps self))%nat ->
     after self trace_id k s0 = Some sk ->
     step_ok self sk = true) ->
  fst r = PDict [("answer", PStr "Max steps reached without final answer.")] /\
  _step_number (snd r) = Z.max 0 (max_steps self) /\
  Tracer.steps_logged (tracer (snd r))
  = (Tracer.steps_logged (tracer s) + Z.to_nat (max_steps self))%nat /\
  last (tracer (snd r))
  = Some (Tracer.EndTrace trace_id "Max steps reached without final answer."
                          "completed" None).
Proof.
  cbv zeta. unfold Agent.run.
  assert (final_answer (snd (begin_run self q s)) = None /\
          _step_number (snd (begin_run self q s)) = 0%Z /\
          Tracer.steps_logged (tracer (snd (begin_run self q s)))
          = Tracer.steps_logged (tracer s)) as (Hf0 & Hn0 & Hl0).
  { unfold Agent.begin_run, Tracer.start_trace, Tracer.steps_logged. cbn.
    rewrite List.filter_app, List.length_app. cbn. repeat split; lia. }
  destruct (begin_run self q s) as [trace_id s0]. cbn [fst snd] in *.
  intros Hall.
  destruct (loop_smooth self trace_id _ s0 Hf0 Hall) as (s1 & Hw & Hf & Hn & Hl).
  rewrite Hw, Hf.
  cbn [truthy negb set_final_answer final_answer default fst snd set_cost
       set_tracer tracer _step_number].
  split; [reflexivity|]. split; [lia|]. split.
  - unfold Tracer.end_trace, Tracer.steps_logged in *.
    rewrite List.filter_app, List.length_app. cbn. lia.
  - unfold Tracer.end_trace. apply last_snoc.
Qed.


(** the state in which the loop reaches the calls after a prefix whose
    calls all go through *)
Lemma dispatch_prefix (pre more : list LLM.ToolCall) (step : Tracer.AgentStep)
    (s : State) (d : LD) :
  smooth_calls (registry s) pre (loop_detector s) = Some d ->
  dispatch (pre ++ more) step s
  = dispatch more
      (Tracer.mkStep (Tracer.step_number step) (Tracer.reasoning step)
         (Tracer.tool_calls step ++ records (registry s) pre))
      (set_messages (messages s ++ observations (registry s) pre)
         (set_detector d s)).
Proof.
  revert step s. induction pre as [|call pre IH]; intros step s H.
  - cbn in H. inversion H; subst d. destruct step, s. cbn.
    rewrite !List.app_nil_r. reflexivity.
  - cbn [Agent.smooth_calls] in H.
    cbn [app Agent.dispatch tool_records tool_observations].
    destruct (check_tool_call _ _ _) as [lr d0].
    destruct (is_looping lr); [discriminate|].
    cbn [set_detector registry].
    destruct (invoke _ _ _) as [[args_dict result]|e]; [|discriminate].
    match goal with |- context [Agent.dispatch _ _ _ _ _ (pre ++ more) ?st ?s'] =>
      rewrite (IH st s' H) end.
    cbn [Tracer.step_number Tracer.reasoning Tracer.tool_calls registry
         messages set_messages set_detector tracer cost_tracker loop_detector
         transport _step_number final_answer].
    rewrite <- !List.app_assoc. reflexivity.
Qed.

Lemma dispatch_appends (calls : list LLM.ToolCall) (step : Tracer.AgentStep)
    (s : State) :
  exists later, messages (snd (dispatch calls step s)) = messages s ++ later.
Proof.
  revert step s. induction calls as [|call rest IH]; intros step s.
  - exists []. cbn. rewrite List.app_nil_r. reflexivity.
  - cbn [Agent.dispatch].
    destruct (check_tool_call _ _ _) as [lr d].
    destruct (is_looping lr).
    { exists []. cbn. rewrite List.app_nil_r. reflexivity. }
    destruct (invoke _ _ _) as [[args_dict result]|e].
    + match goal with |- context [Agent.dispatch _ _ _ _ _ _ ?st ?s'] =>
        destruct (IH st s') as [later H] end.
      rewrite H. cbn [set_messages set_detector messages].
      rewrite <- List.app_assoc. eexists. reflexivity.
    + exists []. cbn. rewrite List.app_nil_r. reflexivity.
Qed.

(** an iteration whose response requests tool calls *)
Lemma iteration_calls (self : ObservableAgent) (trace_id : nat) (s : State)
    (response : LLM.Response) (ts : TS) (msg : LLM.Message)
    (others : list LLM.Message) (calls : list LLM.ToolCall) :
  acompletion (transport s) (model self) (messages s) = (Returns response, ts) ->
  LLM.choices response = msg :: others ->
  LLM.tool_calls msg = Some calls ->
  calls <> [] ->
  iteration self trace_id s
  = (let s1 :=
       mkState (tracer s)
               (Cost.log_completion (_step_number s + 1) response false
                                    (cost_tracker s))
               (loop_detector s) ts (registry s) (_step_number s + 1)
               (messages s ++ [AssistantMsg (LLM.content msg) calls])
               (final_answer s) in
     let r := dispatch calls
                (Tracer.mkStep (_step_number s + 1) (LLM.content msg) []) s1 in
     let s2 := set_tracer (Tracer.log_step trace_id (fst r) (tracer (snd r)))
                          (snd r) in
     (Returns (if truthy (final_answer (snd r)) then Break else Continue), s2)).
Proof.
  intros Hr Hc Htc Hne. unfold Agent.iteration.
  cbn [set_step_number transport messages]. rewrite Hr.
  cbn [set_transport set_cost _step_number cost_tracker]. rewrite Hc, Htc.
  destruct calls as [|call calls]; [congruence|].
  cbn [no_tool_calls default from_option id set_messages messages tracer
       loop_detector registry final_answer transport cost_tracker _step_number].
  cbv zeta.
  destruct (Agent.dispatch _ _ _ _ _ _ _ _) as [step' s'].
  cbn [fst snd set_tracer final_answer].
  destruct (truthy (final_answer s')); reflexivity.
Qed.

(** the loop at a call that the check lets through and that raises *)
Lemma dispatch_failure (call : LLM.ToolCall) (rest : list LLM.ToolCall)
    (step : Tracer.AgentStep) (s : State) (e : PyExc) :
  is_looping (fst (check_tool_call (loop_detector s) (LLM.function_name call)
                                   (LLM.function_arguments call))) = false ->
  invoke (registry s) (LLM.function_name call) (LLM.function_arguments call)
  = Raises e ->
  dispatch (call :: rest) step s
  = (step,
     set_final_answer (Some (tool_error_answer e))
       (set_detector
          (snd (check_tool_call (loop_detector s) (LLM.function_name call)
                                (LLM.function_arguments call))) s)).
Proof.
  intros Hl Hi. cbn [Agent.dispatch].
  destruct (check_tool_call _ _ _) as [lr d]. cbn [fst snd] in *.
  rewrite Hl. cbn [set_detector registry]. rewrite Hi. reflexivity.
Qed.

Lemma iteration_step_number (self : ObservableAgent) (trace_id : nat) (s : State) :
  _step_number (snd (iteration self trace_id s)) = (_step_number s + 1)%Z.
Proof.
  unfold Agent.iteration.
  destruct (acompletion _ _ _) as [[response|e] ts]; [|reflexivity].
  cbn [set_transport set_step_number set_cost transport _step_number
       cost_tracker messages registry tracer loop_detector final_answer].
  destruct (LLM.choices response) as [|msg rest]; [reflexivity|].
  destruct (no_tool_calls (LLM.tool_calls msg)).
  - destruct (check_output_stagnation _ _) as [lc d]. reflexivity.
  - match goal with |- context [Agent.dispatch _ _ _ _ _ ?c ?st ?s'] =>
      pose proof (dispatch_frame c st s')
        as (_ & _ & _ & _ & H5);
      destruct (dispatch c st s') as [step' s''] end.
    cbn [snd] in H5.
    destruct (truthy _); cbn [snd set_tracer _step_number]; exact H5.
Qed.

Lemma after_step_number (self : ObservableAgent) (trace_id : nat) (k : nat)
    (s sk : State) :
  after self trace_id k s = Some sk ->
  _step_number sk = (_step_number s + Z.of_nat k)%Z.
Proof.
  revert s. induction k as [|k IH]; intros s H.
  - cbn in H. inversion H. lia.
  - cbn [Agent.after] in H.
    pose proof (iteration_step_number self trace_id s) as Hn.
    destruct (iteration self trace_id s) as [[[|]|e] s1]; try discriminate.
    cbn [snd] in Hn. rewrite (IH _ H), Hn. lia.
Qed.

Lemma after_then_break (self : ObservableAgent) (trace_id : nat) (k n : nat)
    (s sk sk' : State) :
  after self trace_id k s = Some sk ->
  iteration self trace_id sk = (Returns Break, sk') ->
  (k < n)%nat ->
  while_loop self trace_id n s = (Returns tt, sk').
Proof.
  revert n s. induction k as [|k IH]; intros n s Hk Hi Hlt.
  - cbn in Hk. inversion Hk; subst. destruct n as [|n]; [lia|].
    cbn [Agent.while_loop]. rewrite Hi. reflexivity.
  - destruct n as [|n]; [lia|]. cbn [Agent.after] in Hk.
    cbn [Agent.while_loop].
    destruct (iteration self trace_id s) as [[[|]|e'] s1]; try discriminate.
    apply IH; [assumption | assumption | lia].
Qed.

(** the limiters of the registry take no part in the loop *)
Lemma invoke_tools (reg reg' : Registry.ToolRegistry) (tool_name tool_args : string) :
  Registry._tools reg' = Registry._tools reg ->
  invoke reg' tool_name tool_args = invoke reg tool_name tool_args.
Proof.
  intros H. unfold Agent.invoke, Registry.get_tool. rewrite H. reflexivity.
Qed.

Lemma same_but_limiters_eta (s t : State) :
  same_but_limiters s t ->
  exists reg',
    Registry._tools reg' = Registry._tools (registry s) /\
    t = mkState (tracer s) (cost_tracker s) (loop_detector s) (transport s)
                reg' (_step_number s) (messages s) (final_answer s).
Proof.
  intros (H1 & H2 & H3 & H4 & H5 & H6 & H7 & H8). destruct s, t.
  cbn [tracer cost_tracker loop_detector transport registry _step_number
       messages final_answer] in *.
  subst. eexists. split; [eassumption | reflexivity].
Qed.

Lemma with_limiters_same (limiters : gmap string RateLimiter.ToolRateLimiter)
    (s : State) :
  same_but_limiters s (with_limiters limiters s).
Proof. unfold same_but_limiters, with_limiters. cbn. repeat split. Qed.

Ltac same_states := unfold same_but_limiters; cbn; repeat split; auto.

Lemma dispatch_limiters (calls : list LLM.ToolCall) (step : Tracer.AgentStep)
    (s t : State) :
  same_but_limiters s t ->
  fst (dispatch calls step t) = fst (dispatch calls step s) /\
  same_but_limiters (snd (dispatch calls step s)) (snd (dispatch calls step t)).
Proof.
  revert step s t. induction calls as [|call rest IH]; intros step s t H.
  - split; [reflexivity | exact H].
  - destruct (same_but_limiters_eta s t H) as (reg' & Hreg & ->).
    cbn [Agent.dispatch loop_detector].
    destruct (check_tool_call _ _ _) as [lr d].
    destruct (is_looping lr); [split; [reflexivity | same_states]|].
    cbn [set_detector registry].
    rewrite (invoke_tools (registry s) reg' _ _ Hreg).
    destruct (invoke _ _ _) as [[args_dict result]|e].
    + apply IH. same_states.
    + split; [reflexivity | same_states].
Qed.

Lemma iteration_limiters (self : ObservableAgent) (trace_id : nat) (s t : State) :
  same_but_limiters s t ->
  fst (iteration self trace_id t) = fst (iteration self trace_id s) /\
  same_but_limiters (snd (iteration self trace_id s))
                    (snd (iteration self trace_id t)).
Proof.
  intros H. destruct (same_but_limiters_eta s t H) as (reg' & Hreg & ->).
  destruct (acompletion (transport s) (model self) (messages s))
    as [[response|e] ts] eqn:Hr.
  2:{ unfold Agent.iteration. cbn [set_step_number transport messages].
      rewrite Hr. split; [reflexivity | same_states]. }
  destruct (LLM.choices response) as [|msg others] eqn:Hc.
  { unfold Agent.iteration. cbn [set_step_number transport messages].
    rewrite Hr. cbn [set_transport set_cost _step_number cost_tracker].
    rewrite Hc. split; [reflexivity | same_states]. }
  destruct (LLM.tool_calls msg) as [[|c cs]|] eqn:Htc.
  - unfold Agent.iteration. cbn [set_step_number transport messages].
    rewrite Hr. cbn [set_transport set_cost _step_number cost_tracker].
    rewrite Hc, Htc. cbn [no_tool_calls loop_detector].
    destruct (check_output_stagnation _ _) as [lc d].
    split; [reflexivity | same_states].
  - rewrite (iteration_calls self trace_id s response ts msg others _
               Hr Hc Htc ltac:(discriminate)).
    match goal with
    | |- fst (Agent.iteration _ _ _ _ _ _ _ self trace_id ?t0) = _ /\ _ =>
        rewrite (iteration_calls self trace_id t0 response ts msg others _
                   Hr Hc Htc ltac:(discriminate))
    end.
    cbv zeta.
    cbn [tracer cost_tracker loop_detector transport registry _step_number
         messages final_answer].
    match goal with
    | |- context [fst (Agent.dispatch _ _ _ _ _ ?c0 ?st ?t1) = fst (Agent.dispatch _ _ _ _ _ _ _ ?s1)] => idtac
    | _ => idtac
    end.
    match goal with
    | |- (Returns (if truthy (final_answer (snd (Agent.dispatch _ _ _ _ _ ?c0 ?st ?t1))) then _ else _), _).1 = _ /\ _ =>
        match goal with
        | |- _ = (Returns (if truthy (final_answer (snd (Agent.dispatch _ _ _ _ _ _ _ ?s1))) then _ else _), _).1 /\ _ =>
            assert (same_but_limiters s1 t1) as Hsame by same_states;
            destruct (dispatch_limiters c0 st s1 t1 Hsame)
              as (Hf & H1 & H2 & H3 & H4 & H5 & H6 & H7 & H8);
            destruct (dispatch c0 st s1) as [st1 s2];
            destruct (dispatch c0 st t1) as [st2 t2]
        end
    end.
    cbn [fst snd] in *. subst st2. rewrite H8.
    split; [reflexivity|].
    unfold same_but_limiters. cbn [set_tracer tracer cost_tracker loop_detector
      transport registry _step_number messages final_answer].
    rewrite H1. repeat split; assumption.
  - unfold Agent.iteration. cbn [set_step_number transport messages].
    rewrite Hr. cbn [set_transport set_cost _step_number cost_tracker].
    rewrite Hc, Htc. cbn [no_tool_calls loop_detector].
    destruct (check_output_stagnation _ _) as [lc d].
    split; [reflexivity | same_states].
Qed.

Lemma while_loop_limiters (self : ObservableAgent) (trace_id : nat) (n : nat)
    (s t : State) :
  same_but_limiters s t ->
  fst (while_loop self trace_id n t) = fst (while_loop self trace_id n s) /\
  same_but_limiters (snd (while_loop self trace_id n s))
                    (snd (while_loop self trace_id n t)).
Proof.
  revert s t. induction n as [|n IH]; intros s t H.
  - split; [reflexivity | exact H].
  - cbn [Agent.while_loop].
    destruct (iteration_limiters self trace_id s t H) as [Hf Hs].
    destruct (iteration self trace_id s) as [r1 s1].
    destruct (iteration self trace_id t) as [r2 t1].
    cbn [fst snd] in *. subst r2.
    destruct r1 as [[|]|e]; [split; [reflexivity | exact Hs] | | split; [reflexivity | exact Hs]].
    apply IH. exact Hs.
Qed.

Lemma run_limiters (self : ObservableAgent) (q : string) (s t : State) :
  same_but_limiters s t ->
  fst (run self q t) = fst (run self q s) /\
  same_but_limiters (snd (run self q s)) (snd (run self q t)).
Proof.
  intros H. destruct (same_but_limiters_eta s t H) as (reg' & Hreg & ->).
  unfold Agent.run, Agent.begin_run. cbn [tracer].
  destruct (Tracer.start_trace _ _ _ _) as [trace_id tr].
  match goal with
  | |- context [Agent.while_loop _ _ _ _ _ _ _ self trace_id ?n ?t0] =>
      match goal with
      | |- _ = fst (let '(_, _) := Agent.while_loop _ _ _ _ _ _ _ _ _ _ ?s0 in _) /\ _ =>
          assert (same_but_limiters s0 t0) as Hsame by same_states;
          destruct (while_loop_limiters self trace_id n s0 t0 Hsame)
            as (Hf & H1 & H2 & H3 & H4 & H5 & H6 & H7 & H8);
          destruct (while_loop self trace_id n s0) as [r1 s1];
          destruct (while_loop self trace_id n t0) as [r2 t1]
      end
  end.
  cbn [fst snd] in *. subst r2. destruct r1 as [u|e].
  - rewrite H8. destruct (negb (truthy (final_answer s1)));
      cbn [fst snd set_final_answer final_answer default from_option id];
      (split; [try rewrite H8; reflexivity|]);
      unfold same_but_limiters;
      cbn [set_tracer set_cost set_final_answer tracer cost_tracker
           loop_detector transport registry _step_number messages final_answer];
      rewrite ?H1, ?H2, ?H8; repeat split; assumption.
  - cbn [fst snd]. split; [reflexivity|].
    unfold same_but_limiters;
      cbn [set_tracer set_cost set_final_answer tracer cost_tracker
           loop_detector transport registry _step_number messages final_answer];
      rewrite ?H1, ?H2; repeat split; assumption.
Qed.

(** C4 (amended). When the run reaches, at any step and at any position of
    the step's tool-call list, a requested call that the loop check lets
    through and whose arguments fail to parse or whose tool raises, the run
    does not raise: the error text is its answer, the conversation ends with
    the observations of the calls before the failing one, so that neither
    the failing call nor the calls after it leave an observation, the step
    is logged with the records of the earlier calls only, and the trace is
    ended right after this step. *)
Theorem tool_failure_ends_run (self : ObservableAgent) (q : string) (s : State)
    (k : nat) (sk : State) (pre : list LLM.ToolCall) (call : LLM.ToolCall)
    (rest : list LLM.ToolCall) (response : LLM.Response) (ts : TS)
    (msg : LLM.Message) (others : list LLM.Message) (d : LD) (e : PyExc) :
  let trace_id := fst (begin_run self q s) in
  let s0 := snd (begin_run self q s) in
  let tool_name := LLM.function_name call in
  let tool_args := LLM.function_arguments call in
  (k < Z.to_nat (max_steps self))%nat ->
  after self trace_id k s0 = Some sk ->
  acompletion (transport sk) (model self) (messages sk) = (Returns response, ts) ->
  LLM.choices response = msg :: others ->
  LLM.tool_calls msg = Some (pre ++ call :: rest) ->
  smooth_calls (registry sk) pre (loop_detector sk) = Some d ->
  is_looping (fst (check_tool_call d tool_name tool_args)) = false ->
  (json_loads tool_args = Raises e \/
   exists kwargs tool,
     json_loads tool_args = Returns (PDict kwargs) /\
     Registry.get_tool tool_name (registry sk) = Some tool /\
     Base.execute tool [] kwargs = Raises e) ->
  let text := match exc_class e with
              | ValidationError => "Tool validation error: " +:+ exc_msg e
              | _ => "Tool execution error: " +:+ exc_msg e
              end in
  let r := run self q s in
  fst r = PDict [("answer", PStr text)] /\
  _step_number (snd r) = Z.of_nat (S k) /\
  messages (snd r)
  = messages sk
    ++ AssistantMsg (LLM.content msg) (pre ++ call :: rest)
       :: observations (registry sk) pre /\
  tracer (snd r)
  = tracer sk
    ++ [Tracer.LogStep trace_id
          (Tracer.mkStep (Z.of_nat (S k)) (LLM.content msg)
                         (records (registry sk) pre));
        Tracer.EndTrace trace_id text "completed" None].
Proof.
  cbv zeta. intros Hk Ha Hr Hc Htc Hs Hl Hfail.
  assert (invoke (registry sk) (LLM.function_name call)
                 (LLM.function_arguments call) = Raises e) as Hinv.
  { unfold Agent.invoke.
    destruct Hfail as [H | (kwargs & tool & H1 & H2 & H3)].
    - rewrite H. reflexivity.
    - rewrite H1, H2. cbn [call_tool]. rewrite H3. reflexivity. }
  assert (_step_number sk = Z.of_nat k) as Hn.
  { rewrite (after_step_number _ _ _ _ _ Ha).
    unfold Agent.begin_run. destruct (Tracer.start_trace _ _ _ _). cbn. lia. }
  assert (pre ++ call :: rest <> []) as Hne by (destruct pre; discriminate).
  pose proof (iteration_calls self (fst (begin_run self q s)) sk response ts msg
                others _ Hr Hc Htc Hne) as Hi.
  cbv zeta in Hi.
  match type of Hi with context [Agent.dispatch _ _ _ _ _ _ ?st ?s1] =>
    rewrite (dispatch_prefix pre (call :: rest) st s1 d Hs) in Hi end.
  match type of Hi with context [Agent.dispatch _ _ _ _ _ _ ?st ?s2] =>
    rewrite (dispatch_failure call rest st s2 e Hl Hinv) in Hi end.
  cbn [fst snd set_final_answer final_answer] in Hi.
  rewrite tool_error_answer_truthy in Hi.
  pose proof (after_then_break _ _ _ _ _ _ _ Ha Hi Hk) as Hw.
  unfold Agent.run.
  destruct (begin_run self q s) as [trace_id s0]. cbn [fst snd] in *.
  rewrite Hw.
  cbn [set_tracer set_cost set_final_answer set_detector set_messages
       final_answer tracer messages _step_number registry loop_detector
       cost_tracker transport Tracer.step_number Tracer.reasoning
       Tracer.tool_calls app fst snd].
  rewrite tool_error_answer_truthy.
  cbn [negb default from_option id final_answer set_final_answer set_tracer
       set_cost tracer messages _step_number fst snd].
  unfold Tracer.end_trace, Tracer.log_step, Agent.answer_dict,
    Agent.tool_error_answer.
  rewrite Hn. replace (Z.of_nat k + 1)%Z with (Z.of_nat (S k)) by lia.
  rewrite <- !List.app_assoc. cbn [app].
  repeat split.
Qed.

(** C3 (amended). A tool call requested by the model, once the loop reaches
    it and the loop check lets it through, is served by looking the tool up
    with [registry.get_tool] and calling the tool's [execute] on the parsed
    keyword arguments: what the body returns is appended to the
    conversation as the observation of the call, and what it raises ends
    the run with the error text. Nothing else decides: no permission set
    takes part, with any other limiters in the registry the iteration leaves
    the same conversation and final answer and the run returns the same
    answer, and the iteration and the run leave the registry and its
    limiters as they were. *)
Theorem dispatch_calls_tool_body (self : ObservableAgent) (trace_id : nat)
    (s : State) (pre : list LLM.ToolCall) (call : LLM.ToolCall)
    (rest : list LLM.ToolCall) (response : LLM.Response) (ts : TS)
    (msg : LLM.Message) (others : list LLM.Message) (d : LD)
    (kwargs : list (string * PyVal)) (tool : Base.BaseTool) :
  let tool_name := LLM.function_name call in
  let tool_args := LLM.function_arguments call in
  acompletion (transport s) (model self) (messages s) = (Returns response, ts) ->
  LLM.choices response = msg :: others ->
  LLM.tool_calls msg = Some (pre ++ call :: rest) ->
  smooth_calls (registry s) pre (loop_detector s) = Some d ->
  is_looping (fst (check_tool_call d tool_name tool_args)) = false ->
  json_loads tool_args = Returns (PDict kwargs) ->
  Registry.get_tool tool_name (registry s) = Some tool ->
  let s' := snd (iteration self trace_id s) in
  let before := messages s
                ++ AssistantMsg (LLM.content msg) (pre ++ call :: rest)
                   :: observations (registry s) pre in
  match Base.execute tool [] kwargs with
  | Returns result =>
      exists later,
        messages s' = before ++ ToolMsg tool_name (py_str result) :: later
  | Raises e =>
      messages s' = before /\
      final_answer s'
      = Some (match exc_class e with
              | ValidationError => "Tool validation error: " +:+ exc_msg e
              | _ => "Tool execution error: " +:+ exc_msg e
              end)
  end /\
  registry s' = registry s /\
  forall (q : string) (limiters : gmap string RateLimiter.ToolRateLimiter),
    registry (snd (run self q s)) = registry s /\
    messages (snd (iteration self trace_id (with_limiters limiters s)))
    = messages s' /\
    final_answer (snd (iteration self trace_id (with_limiters limiters s)))
    = final_answer s' /\
    fst (run self q (with_limiters limiters s)) = fst (run self q s).
Proof.
  cbv zeta. intros Hr Hc Htc Hs Hl Hj Hg.
  split; [|split; [apply iteration_registry|]].
  2:{ intros q limiters. split; [apply run_registry|].
      pose proof (with_limiters_same limiters s) as Hsame.
      destruct (iteration_limiters self trace_id _ _ Hsame)
        as (_ & _ & _ & _ & _ & _ & _ & Hm & Hf).
      destruct (run_limiters self q _ _ Hsame) as (Ha & _).
      split; [exact Hm|]. split; [exact Hf | exact Ha]. }
  assert (invoke (registry s) (LLM.function_name call)
                 (LLM.function_arguments call)
          = match Base.execute tool [] kwargs with
            | Returns result => Returns (PDict kwargs, result)
            | Raises e => Raises e
            end) as Hinv.
  { unfold Agent.invoke. rewrite Hj, Hg. reflexivity. }
  assert (pre ++ call :: rest <> []) as Hne by (destruct pre; discriminate).
  rewrite (iteration_calls self trace_id s response ts msg others _ Hr Hc Htc Hne).
  cbv zeta.
  match goal with |- context [Agent.dispatch _ _ _ _ _ _ ?st ?s1] =>
    rewrite (dispatch_prefix pre (call :: rest) st s1 d Hs) end.
  destruct (Base.execute tool [] kwargs) as [result|e] eqn:Hex.
  - cbn [Agent.dispatch].
    cbn [loop_detector set_messages set_detector].
    destruct (check_tool_call d _ _) as [lr d1]. cbn [fst] in Hl. rewrite Hl.
    cbn [registry set_detector set_messages]. rewrite Hinv.
    match goal with |- context [Agent.dispatch _ _ _ _ _ _ ?st ?s3] =>
      destruct (dispatch_appends rest st s3) as [later Hlater];
      destruct (dispatch rest st s3) as [step' s4] end.
    cbn [fst snd set_tracer messages] in *. exists later. rewrite Hlater.
    cbn [set_messages set_detector messages].
    rewrite <- !List.app_assoc. reflexivity.
  - match goal with |- context [Agent.dispatch _ _ _ _ _ _ ?st ?s2] =>
      rewrite (dispatch_failure call rest st s2 e Hl Hinv) end.
    cbn [fst snd set_tracer set_final_answer set_detector set_messages
         messages final_answer].
    rewrite <- List.app_assoc. split; reflexivity.
Qed.

End AgentFacts.

(** * The theorems on the examples *)

Lemma start_query_replaces_open_query_witness :
  let t := Cost.log_completion 1 (LLM.mkResponse None None []) false
             (Cost.start_query "first" Cost.init) in
  Cost.queries (Cost.start_query "second" t) = [] /\
  Cost.end_query (Cost.start_query "second" t)
  = Cost.mkTracker [Cost.new_query "second"] None.
Proof.
  intros t.
  destruct (start_query_replaces_open_query t
              (Cost.add_step
                 (Cost.mkStepCost 1 "unknown" 0 0 (inject_Z (0 + 0) * (1 # 100000))%Q false)
                 (Cost.new_query "first"))
              "second" eq_refl) as (H1 & _ & _ & H3 & _).
  split; [exact H1 | exact H3].
Defined.

Lemma execute_secure_permissions_first_witness :
  Registry.execute_secure Demo.list_str 0 Demo.registry0 "list_files" (PDict []) []
  = (Registry.failure "Access Denied. Missing permissions: ['filesystem:read']",
     Demo.registry0) /\
  Registry.execute_secure Demo.list_str 0 Demo.registry0 "list_files" (PDict [])
    ["filesystem:read"]
  = Registry.execute 0 Demo.registry0 "list_files" (PDict []).
Proof.
  split.
  - refine (proj1 (proj1 (execute_secure_permissions_first Demo.list_str 0
                    Demo.registry0 "list_files" (PDict []) [] Demo.list_files
                    eq_refl) _)).
    intros H. specialize (H "filesystem:read").
    assert ("filesystem:read" ∈ @nil string) as Hin
      by (apply H; vm_compute; left).
    inversion Hin.
  - refine (proj2 (execute_secure_permissions_first Demo.list_str 0
                    Demo.registry0 "list_files" (PDict []) ["filesystem:read"]
                    Demo.list_files eq_refl) _).
    intros p Hp. exact Hp.
Defined.

Lemma run_never_raises_witness :
  fst (Demo.run_scripted (Demo.agent 10) "hi"
         (Demo.fresh Demo.script_raising Demo.registry0))
  = PDict [("answer", PStr "Agent failed: connection reset")].
Proof.
  pose proof (run_never_raises _ Demo.scripted _ Demo.detector_reset
                Demo.check_tool_call Demo.check_output_stagnation
                Demo.json_loads Demo.py_str (Demo.agent 10) "hi"
                (Demo.fresh Demo.script_raising Demo.registry0)) as H.
  cbv zeta in H. destruct H as (_ & _ & _ & H).
  refine (proj1 (H 1%nat _ (Exc OtherException "connection reset") [] _ _ _)).
  - vm_compute. lia.
  - vm_compute. reflexivity.
  - reflexivity.
Defined.

(** C3 (as stated) fails: with the limiter of [ping] exhausted the governed
    path [execute] denies the call, and without the scope "filesystem:read"
    [execute_secure] denies [list_files], both before any tool body is
    called, yet the agent's dispatch runs both tool bodies; a run on that
    registry appends the tool's output to the conversation and leaves the
    limiter as it was. *)
Lemma agent_dispatch_not_governed :
  fst (Registry.execute 0 Demo.registry1 "ping" (PDict []))
  = Registry.failure "Rate limit exceeded for tool 'ping'." /\
  Agent.invoke Demo.json_loads Demo.registry1 "ping" "{}"
  = Returns (PDict [], PStr "pong") /\
  fst (Registry.execute_secure Demo.list_str 0 Demo.registry1 "list_files"
         (PDict []) [])
  = Registry.failure "Access Denied. Missing permissions: ['filesystem:read']" /\
  Agent.invoke Demo.json_loads Demo.registry1 "list_files" "{}"
  = Returns (PDict [],
             Registry.result_dict true (PList [PStr "notes.txt"]) PNone) /\
  let r := Demo.run_always [LLM.mkToolCall "ping" "{}"] (Demo.agent 1) "hi"
             (Demo.fresh tt Demo.registry1) in
  Agent.messages (snd r)
  = [Agent.UserMsg "hi";
     Agent.AssistantMsg None [LLM.mkToolCall "ping" "{}"];
     Agent.ToolMsg "ping" "pong"] /\
  Agent.registry (snd r) = Demo.registry1.
Proof. vm_compute. repeat split. Qed.


Lemma dispatch_calls_tool_body_witness :
  let s' := snd (Agent.iteration unit
                   (Demo.always [LLM.mkToolCall "list_files" "{}";
                                 LLM.mkToolCall "ping" "{}"])
                   Demo.Detector Demo.check_tool_call
                   Demo.check_output_stagnation Demo.json_loads Demo.py_str
                   (Demo.agent 3) 0 (Demo.fresh tt Demo.registry1)) in
  (exists later,
     Agent.messages s'
     = [Agent.AssistantMsg None [LLM.mkToolCall "list_files" "{}";
                                 LLM.mkToolCall "ping" "{}"];
        Agent.ToolMsg "list_files" "<object>";
        Agent.ToolMsg "ping" "pong"] ++ later) /\
  Agent.registry s' = Demo.registry1.
Proof.
  intros s'.
  epose proof (dispatch_calls_tool_body unit
               (Demo.always [LLM.mkToolCall "list_files" "{}";
                             LLM.mkToolCall "ping" "{}"])
               Demo.Detector Demo.detector_reset Demo.check_tool_call
               Demo.check_output_stagnation Demo.json_loads Demo.py_str
               (Demo.agent 3) 0%nat (Demo.fresh tt Demo.registry1)
               [LLM.mkToolCall "list_files" "{}"] (LLM.mkToolCall "ping" "{}") []
               _ _ _ _ _ [] Demo.ping) as H.
  cbv zeta in H. edestruct H as (H1 & H2 & _); clear H.
  - reflexivity.
  - reflexivity.
  - reflexivity.
  - vm_compute. reflexivity.
  - reflexivity.
  - reflexivity.
  - reflexivity.
  - split; [exact H1 | exact H2].
Defined.

(** C4 (as stated) fails: the transport requests [divide], whose body
    raises. No tool observation is appended to the conversation and the run
    does not continue: it ends at step 1 of 10 with the error text as its
    answer. The same happens for arguments that do not parse. *)
Lemma tool_failure_not_an_observation :
  let r := Demo.run_always [LLM.mkToolCall "divide" "{}"] (Demo.agent 10) "hi"
             (Demo.fresh tt Demo.registry0) in
  fst r = PDict [("answer", PStr "Tool execution error: division by zero")] /\
  Agent.messages (snd r)
  = [Agent.UserMsg "hi"; Agent.AssistantMsg None [LLM.mkToolCall "divide" "{}"]] /\
  Agent._step_number (snd r) = 1%Z /\
  let r' := Demo.run_always [LLM.mkToolCall "ping" "{oops"] (Demo.agent 10) "hi"
              (Demo.fresh tt Demo.registry0) in
  Agent.messages (snd r')
  = [Agent.UserMsg "hi"; Agent.AssistantMsg None [LLM.mkToolCall "ping" "{oops"]] /\
  Agent._step_number (snd r') = 1%Z.
Proof. vm_compute. repeat split. Qed.


Lemma tool_failure_ends_run_witness :
  let r := Demo.run_scripted (Demo.agent 10) "hi"
             (Demo.fresh
                [Demo.requests [LLM.mkToolCall "ping" "{}"];
                 Demo.requests [LLM.mkToolCall "ping" "{}";
                                LLM.mkToolCall "divide" "{}";
                                LLM.mkToolCall "ping" "{}"]]
                Demo.registry0) in
  fst r = PDict [("answer", PStr "Tool execution error: division by zero")] /\
  Agent._step_number (snd r) = 2%Z /\
  Agent.messages (snd r)
  = [Agent.UserMsg "hi";
     Agent.AssistantMsg None [LLM.mkToolCall "ping" "{}"];
     Agent.ToolMsg "ping" "pong";
     Agent.AssistantMsg None [LLM.mkToolCall "ping" "{}";
                              LLM.mkToolCall "divide" "{}";
                              LLM.mkToolCall "ping" "{}"];
     Agent.ToolMsg "ping" "pong"].
Proof.
  intros r.
  epose proof (tool_failure_ends_run _ Demo.scripted _ Demo.detector_reset
               Demo.check_tool_call Demo.check_output_stagnation
               Demo.json_loads Demo.py_str (Demo.agent 10) "hi"
               (Demo.fresh
                  [Demo.requests [LLM.mkToolCall "ping" "{}"];
                   Demo.requests [LLM.mkToolCall "ping" "{}";
                                  LLM.mkToolCall "divide" "{}";
                                  LLM.mkToolCall "ping" "{}"]]
                  Demo.registry0)
               1%nat _ [LLM.mkToolCall "ping" "{}"]
               (LLM.mkToolCall "divide" "{}") [LLM.mkToolCall "ping" "{}"]
               _ _ _ _ _ (Exc OtherException "division by zero")) as H.
  cbv zeta in H. edestruct H as (H1 & H2 & H3 & _); clear H.
  - vm_compute. lia.
  - vm_compute. reflexivity.
  - vm_compute. reflexivity.
  - reflexivity.
  - reflexivity.
  - vm_compute. reflexivity.
  - reflexivity.
  - right. exists [], Demo.divide. repeat split.
  - split; [exact H1|]. split; [exact H2 | exact H3].
Defined.

(** C9 (as stated) fails: a transport that requests a tool call on every
    step, with arguments that do not parse, ends the run at step 1 of 3 with
    the error text, not with the fallback message. *)
Lemma always_tool_calls_not_max_steps :
  let r := Demo.run_always [LLM.mkToolCall "ping" "{oops"] (Demo.agent 3) "hi"
             (Demo.fresh tt Demo.registry0) in
  fst r
  = PDict [("answer",
            PStr "Tool execution error: Expecting property name enclosed in double quotes: line 1 column 2 (char 1)")] /\
  fst r <> PDict [("answer", PStr "Max steps reached without final answer.")] /\
  Agent._step_number (snd r) = 1%Z /\
  Tracer.steps_logged (Agent.tracer (snd r)) = 1%nat.
Proof. vm_compute. repeat split. discriminate. Qed.

(** with the detector of the examples, the same call requested on every
    step trips the loop check on its third occurrence *)
Example repeated_call_trips_detector :
  let r := Demo.run_always [LLM.mkToolCall "ping" "{}"] (Demo.agent 10) "hi"
             (Demo.fresh tt Demo.registry0) in
  fst r = PDict [("answer", PStr "Loop detected: the same tool call was repeated.")] /\
  Agent._step_number (snd r) = 3%Z.
Proof. vm_compute. split; reflexivity. Qed.

Lemma max_steps_fallback_witness :
  let r := Demo.run_always [LLM.mkToolCall "ping" "{}"] (Demo.agent 2) "hi"
             (Demo.fresh tt Demo.registry0) in
  fst r = PDict [("answer", PStr "Max steps reached without final answer.")] /\
  Agent._step_number (snd r) = 2%Z.
Proof.
  pose proof (max_steps_fallback unit (Demo.always [LLM.mkToolCall "ping" "{}"])
                Demo.Detector Demo.detector_reset Demo.check_tool_call
                Demo.check_output_stagnation Demo.json_loads Demo.py_str
                (Demo.agent 2) "hi" (Demo.fresh tt Demo.registry0)) as H.
  cbv zeta in H.
  refine (let H' := H _ in conj (proj1 H') (proj1 (proj2 H'))).
  intros k sk Hk Ha.
  destruct k as [|[|k]].
  - vm_compute in Ha. inversion Ha. vm_compute. reflexivity.
  - vm_compute in Ha. inversion Ha. vm_compute. reflexivity.
  - vm_compute in Hk. lia.
Defined.

(** C1 (as stated) fails on its second clause: the parent of "/a/x" differs
    from it, yet "../x" resolves to the root itself and is accepted. *)
Lemma parent_x_not_rejected :
  PathGuard.dirname (PathGuard.abspath "/srv" "/a/x")
    <> PathGuard.abspath "/srv" "/a/x" /\
  PathGuard.validate_safe_path "/srv" "/a/x" "../x" = Returns "/a/x".
Proof. vm_compute. split; [discriminate | reflexivity]. Qed.

(** a sibling directory whose name extends the root's name passes the
    text-prefix test although it is not inside the root *)
Example sibling_prefix_accepted :
  PathGuard.validate_safe_path "/srv" "/a/b" "../bc/secret"
  = Returns "/a/bc/secret" /\
  ~ PathGuard.contained "/a/b" "/a/bc/secret".
Proof.
  split; [reflexivity|]. intros [_ (rest & H)]. vm_compute in H. discriminate.
Qed.

Lemma validate_safe_path_amended_witness :
  PathGuard.validate_safe_path "/home/u" "./workspace" "../../etc/passwd"
  = Raises (Exc SecurityError "Path traversal blocked: ../../etc/passwd") /\
  PathGuard.validate_safe_path "/home/u" "./workspace" "../x"
  = Raises (Exc SecurityError "Path traversal blocked: ../x") /\
  PathGuard.validate_safe_path "/home/u" "./workspace" "reports/q1.txt"
  = Returns "/home/u/workspace/reports/q1.txt".
Proof.
  destruct (validate_safe_path_amended "/home/u" eq_refl "./workspace")
    as (HA & HB & HC).
  split; [|split].
  - apply HA. reflexivity.
  - apply HB; vm_compute; discriminate.
  - apply HC. split; [reflexivity|]. exists ["reports"; "q1.txt"]. reflexivity.
Defined.

Lemma execute_error_boundary_witness :
  fst (Registry.execute 0 Demo.registry1 "search" (PDict []))
  = Registry.failure "Tool 'search' not found." /\
  fst (Registry.execute 0 Demo.registry1 "ping" (PDict []))
  = Registry.failure "Rate limit exceeded for tool 'ping'." /\
  fst (Registry.execute 0 Demo.registry1 "divide" (PDict []))
  = Registry.failure "division by zero".
Proof.
  split; [|split].
  - destruct (execute_error_boundary 0 Demo.registry1 "search" (PDict []))
      as (_ & _ & H & _).
    apply H. reflexivity.
  - destruct (execute_error_boundary 0 Demo.registry1 "ping" (PDict []))
      as (_ & _ & _ & H & _).
    apply (H Demo.ping (RateLimiter.mkLimiter 1 (1 + (0 - 0) * (1 / 60) - 1) 0)).
    + reflexivity.
    + vm_compute. reflexivity.
    + vm_compute. reflexivity.
  - destruct (execute_error_boundary 0 Demo.registry1 "divide" (PDict []))
      as (_ & _ & _ & _ & H).
    apply (H Demo.divide); [reflexivity|].
    intros limiter Hl. vm_compute in Hl. inversion Hl. vm_compute. reflexivity.
Defined.


(** * More on the registry *)
Section RegistryMore.
Import RateLimiter Registry.

(** X4. Registration round trip: after [register] the tool is found under its
    name with a full limiter of the given rate, whatever was registered or
    consumed under that name before, and every other name keeps its tool and
    its limiter. *)
Theorem register_lookup (now : Q) (tool : Base.BaseTool) (cpm : Z)
    (self : ToolRegistry) :
  let self' := register now tool cpm self in
  get_tool (Base.name tool) self' = Some tool /\
  _limiters self' !! Base.name tool = Some (mkLimiter cpm (inject_Z cpm) now) /\
  forall other : string,
    other <> Base.name tool ->
    get_tool other self' = get_tool other self /\
    _limiters self' !! other = _limiters self !! other.
Proof.
  cbv zeta. unfold register, get_tool. cbn [_tools _limiters].
  split; [apply lookup_insert_eq|]. split; [apply lookup_insert_eq|].
  intros other Hne. split; apply lookup_insert_ne; congruence.
Qed.

Lemma register_lookup_witness :
  get_tool "list_files" (register 5 Demo.ping 9 Demo.registry1)
  = get_tool "list_files" Demo.registry1.
Proof.
  refine (proj1 (proj2 (proj2 (register_lookup 5 Demo.ping 9 Demo.registry1))
                   "list_files" _)).
  discriminate.
Defined.

(** X5. Isolation: a call of [execute] or [execute_secure] never changes the
    set of registered tools nor the limiter of any other tool, and a call
    for an unregistered name changes nothing at all. *)
Theorem execute_frame (list_str : list string -> string) (now : Q)
    (self : ToolRegistry) (tool_name : string) (arguments : PyVal)
    (granted : list string) :
  let after := snd (execute now self tool_name arguments) in
  let after' := snd (execute_secure list_str now self tool_name arguments granted) in
  _tools after = _tools self /\ _tools after' = _tools self /\
  (forall other : string,
     other <> tool_name ->
     _limiters after !! other = _limiters self !! other /\
     _limiters after' !! other = _limiters self !! other) /\
  (get_tool tool_name self = None -> after = self /\ after' = self).
Proof.
  cbv zeta.
  assert (_tools (snd (execute now self tool_name arguments)) = _tools self /\
          (forall other, other <> tool_name ->
             _limiters (snd (execute now self tool_name arguments)) !! other
             = _limiters self !! other) /\
          (get_tool tool_name self = None ->
             snd (execute now self tool_name arguments) = self)) as (H1 & H2 & H3).
  { unfold execute. destruct (get_tool tool_name self) as [tool|]; [|auto].
    destruct (_limiters self !! tool_name) as [l|]; [|split; [|split]; auto; discriminate].
    destruct (is_allowed now l) as [ok l'].
    destruct (negb ok); cbn [snd _tools _limiters];
      (split; [reflexivity|]; split; [|discriminate]);
      intros other Hne; apply lookup_insert_ne; congruence. }
  unfold execute_secure.
  destruct (get_tool tool_name self) as [tool|] eqn:Ht.
  - destruct (negb (is_nil (missing_permissions tool granted))); cbn [snd].
    + repeat split; try assumption; try discriminate. apply H2. assumption.
    + repeat split; try assumption; try discriminate; apply H2; assumption.
  - cbn [snd]. repeat split; auto.
Qed.

Lemma execute_frame_witness :
  _limiters (snd (execute 0 Demo.registry0 "ping" (PDict []))) !! "divide"
  = _limiters Demo.registry0 !! "divide" /\
  snd (execute 0 Demo.registry0 "search" (PDict [])) = Demo.registry0.
Proof.
  destruct (execute_frame Demo.list_str 0 Demo.registry0 "ping" (PDict []) [])
    as (_ & _ & H & _).
  destruct (execute_frame Demo.list_str 0 Demo.registry0 "search" (PDict []) [])
    as (_ & _ & _ & H').
  split.
  - apply H. discriminate.
  - apply H'. reflexivity.
Defined.

Lemma call_no_elapsed (self : ToolRateLimiter) (current : Q) (k : Z) :
  (current == last_check self)%Q ->
  (allowance self == inject_Z k)%Q ->
  (k <= calls_per_minute self)%Z ->
  let r := is_allowed current self in
  fst r = (1 <=? k)%Z /\
  calls_per_minute (snd r) = calls_per_minute self /\
  last_check (snd r) = current /\
  (allowance (snd r) == inject_Z (if (1 <=? k)%Z then k - 1 else k))%Q.
Proof.
  intros Hc Ha Hk r. subst r. rewrite is_allowed_unfold.
  assert (refilled current self == inject_Z k)%Q as Hr.
  { unfold refilled.
    assert ((allowance self + (current - last_check self)
              * (inject_Z (calls_per_minute self) / 60)) == inject_Z k)%Q as E.
    { rewrite Ha, Hc. field. }
    destruct (Qltb _ _) eqn:L; [|exact E].
    apply Qltb_lt in L. rewrite E in L. rewrite <- Zlt_Qlt in L. lia. }
  destruct (Qltb (refilled current self) 1) eqn:L; cbn [fst snd calls_per_minute
    last_check allowance].
  - apply Qltb_lt in L. rewrite Hr in L. change 1%Q with (inject_Z 1) in L.
    rewrite <- Zlt_Qlt in L.
    destruct (Z.leb_spec 1 k); [lia|]. repeat split. exact Hr.
  - apply Qltb_ge in L. rewrite Hr in L. change 1%Q with (inject_Z 1) in L.
    rewrite <- Zle_Qle in L.
    destruct (Z.leb_spec 1 k); [|lia]. repeat split.
    rewrite Hr. unfold Qminus. change (- (1))%Q with (inject_Z (-1)).
    rewrite <- inject_Z_plus. reflexivity.
Qed.

Lemma executes_burst (now : Q) (tool : Base.BaseTool) (arguments : PyVal)
    (n : nat) (self : ToolRegistry) (l : ToolRateLimiter) :
  get_tool (Base.name tool) self = Some tool ->
  _limiters self !! Base.name tool = Some l ->
  last_check l = now ->
  (allowance l == inject_Z (Z.of_nat n))%Q ->
  (Z.of_nat n <= calls_per_minute l)%Z ->
  fst (executes now (Base.name tool) arguments (n + 1) self)
  = repeat (guarded_call tool arguments) n
    ++ [failure ("Rate limit exceeded for tool '" +:+ Base.name tool +:+ "'.")].
Proof.
  revert self l. induction n as [|n IH]; intros self l Ht Hl Hlast Ha Hk.
  - cbn [Nat.add executes repeat app]. unfold execute. rewrite Ht, Hl.
    destruct (call_no_elapsed l now 0) as (Hb & _ & _ & _);
      [rewrite Hlast; reflexivity | exact Ha | exact Hk |].
    destruct (is_allowed now l) as [ok l']. cbn [fst] in Hb. subst ok.
    reflexivity.
  - cbn [Nat.add executes repeat app]. unfold execute at 1. rewrite Ht, Hl.
    destruct (call_no_elapsed l now (Z.of_nat (S n))) as (Hb & Hc & Hlc & Ha');
      [rewrite Hlast; reflexivity | exact Ha | exact Hk |].
    destruct (is_allowed now l) as [ok l']. cbn [fst snd] in Hb, Hc, Hlc, Ha'.
    assert ((1 <=? Z.of_nat (S n))%Z = true) as E by (apply Z.leb_le; lia).
    rewrite E in Hb, Ha'. subst ok. cbn [negb].
    match goal with |- context [executes _ _ _ _ ?s] =>
      specialize (IH s l') end.
    destruct (executes _ _ _ (n + 1) _) as [rs s'].
    cbn [fst] in *. f_equal. apply IH.
    + exact Ht.
    + cbn [_limiters]. apply lookup_insert_eq.
    + exact Hlc.
    + rewrite Ha'. replace (Z.of_nat (S n) - 1)%Z with (Z.of_nat n) by lia.
      reflexivity.
    + lia.
Qed.

(** X6. Quota through the registry: right after a tool is registered with a
    limit of [C >= 1] calls per minute, [C] immediate calls of [execute] all
    reach the tool body and the next one is refused with the rate-limit
    failure. *)
Theorem registered_tool_burst (now : Q) (tool : Base.BaseTool) (C : Z)
    (arguments : PyVal) (self : ToolRegistry) :
  (1 <= C)%Z ->
  fst (executes now (Base.name tool) arguments (Z.to_nat C + 1)
         (register now tool C self))
  = repeat (guarded_call tool arguments) (Z.to_nat C)
    ++ [failure ("Rate limit exceeded for tool '" +:+ Base.name tool +:+ "'.")].
Proof.
  intros HC.
  apply (executes_burst now tool arguments (Z.to_nat C) _ (init C now)).
  - unfold register, get_tool. cbn [_tools]. apply lookup_insert_eq.
  - unfold register. cbn [_limiters]. apply lookup_insert_eq.
  - reflexivity.
  - cbn [allowance init]. rewrite Z2Nat.id by lia. reflexivity.
  - cbn [calls_per_minute init]. rewrite Z2Nat.id by lia. apply Z.le_refl.
Qed.

Lemma registered_tool_burst_witness :
  fst (executes 0 "ping" (PDict []) (Z.to_nat 2 + 1)
         (register 0 Demo.ping 2 Registry.empty))
  = [result_dict true (PStr "pong") PNone; result_dict true (PStr "pong") PNone;
     failure "Rate limit exceeded for tool 'ping'."].
Proof.
  apply (registered_tool_burst 0 Demo.ping 2 (PDict []) Registry.empty). lia.
Defined.

End RegistryMore.

(** * More on the cost tracker *)
Section CostMore.
Import Cost.

Lemma Zsum_snoc (l : list Z) (x : Z) : Zsum (l ++ [x]) = (Zsum l + x)%Z.
Proof. induction l as [|y l IH]; cbn [app Zsum]; [lia | rewrite IH; lia]. Qed.


Lemma add_step_consistent (s : StepCost) (q : QueryCost) :
  consistent q -> consistent (add_step s q).
Proof.
  intros (H1 & H2). unfold consistent, add_step.
  cbn [steps total_input_tokens total_output_tokens].
  rewrite !List.map_app. cbn [List.map].
  rewrite !Zsum_snoc, H1, H2. split; reflexivity.
Qed.

Lemma new_query_consistent (q : string) : consistent (new_query q).
Proof. split; reflexivity. Qed.

Lemma apply_op_consistent (o : op) (t : CostTracker) :
  tracker_consistent t -> tracker_consistent (apply_op o t).
Proof.
  unfold tracker_consistent. intros [Hq Hc].
  destruct o as [q|n r b|]; cbn [apply_op].
  - split; [exact Hq|]. cbn. apply new_query_consistent.
  - unfold log_completion. destruct (_current_query t) as [cur|] eqn:E.
    + destruct (LLM.usage r) as [u|]; (split; cbn [queries _current_query];
        [exact Hq|]);
        (apply add_step_consistent; exact Hc).
    + split; [exact Hq|]. rewrite E. exact I.
  - unfold end_query. destruct (_current_query t) as [cur|] eqn:E.
    + split; cbn [queries _current_query].
      * apply Forall_app. split; [exact Hq|].
        constructor; [exact Hc | constructor].
      * exact I.
    + split; [exact Hq|]. rewrite E. exact I.
Qed.

Lemma apply_ops_consistent (os : list op) (t : CostTracker) :
  tracker_consistent t -> tracker_consistent (apply_ops os t).
Proof.
  revert t. induction os as [|o os IH]; intros t H; [exact H|].
  change (apply_ops (o :: os) t) with (apply_ops os (apply_op o t)).
  apply IH, apply_op_consistent, H.
Qed.

(** X7. Whatever sequence of [start_query], [log_completion] and [end_query]
    calls is made on a new tracker, in every recorded query and in the open
    one the total input and output token counts are the sums of the counts
    of the steps. *)
Theorem totals_match_steps (os : list op) :
  let t := apply_ops os init in
  Forall consistent (queries t) /\
  match _current_query t with
  | Some q => consistent q
  | None => True
  end.
Proof.
  apply (apply_ops_consistent os init). split; [constructor | exact I].
Qed.

(** X8. Outside an open query nothing is recorded: after [end_query], any
    further [log_completion] and [end_query] calls leave the tracker as it
    is until the next [start_query]; in particular [end_query] twice is
    [end_query] once. *)
Theorem closed_tracker_ignores_calls (os : list op) (t : CostTracker) :
  Forall (fun o => starts_query o = false) os ->
  apply_ops os (end_query t) = end_query t.
Proof.
  assert (forall t', _current_query t' = None ->
            Forall (fun o => starts_query o = false) os -> apply_ops os t' = t') as H.
  { induction os as [|o os IH]; intros t' Hc Hos; [reflexivity|].
    inversion Hos as [|? ? Ho Hos']; subst.
    change (apply_ops (o :: os) t') with (apply_ops os (apply_op o t')).
    assert (apply_op o t' = t') as ->.
    { destruct o as [q|n r b|]; [discriminate | |]; cbn [apply_op].
      - unfold log_completion. rewrite Hc. reflexivity.
      - unfold end_query. rewrite Hc. reflexivity. }
    apply IH; assumption. }
  intros Hos. apply H; [|exact Hos].
  unfold end_query. destruct (_current_query t) eqn:E; [reflexivity | exact E].
Qed.

Lemma closed_tracker_ignores_calls_witness :
  apply_ops [LogCompletion 1 (LLM.mkResponse None None []) false; EndQuery]
            (end_query (start_query "q" init))
  = end_query (start_query "q" init).
Proof.
  apply (closed_tracker_ignores_calls
           [LogCompletion 1 (LLM.mkResponse None None []) false; EndQuery]
           (start_query "q" init)).
  repeat constructor.
Defined.

Lemma log_completions_open (cs : list (Z * LLM.Response * bool)) (t : CostTracker)
    (cur : QueryCost) :
  _current_query t = Some cur ->
  exists cur',
    apply_ops (completions cs) t = mkTracker (queries t) (Some cur') /\
    query cur' = query cur /\
    List.map step_number (steps cur')
    = List.map step_number (steps cur) ++ List.map (fun c => fst (fst c)) cs /\
    (consistent cur -> consistent cur').
Proof.
  revert t cur. induction cs as [|[[n r] b] cs IH]; intros t cur Hc.
  - exists cur. cbn. rewrite List.app_nil_r. destruct t; cbn in *; subst. auto.
  - change (apply_ops (completions ((n, r, b) :: cs)) t)
      with (apply_ops (completions cs) (log_completion n r b t)).
    assert (exists s, log_completion n r b t
                      = mkTracker (queries t) (Some (add_step s cur)) /\
                      step_number s = n) as (s & E & Hn).
    { unfold log_completion. rewrite Hc.
      destruct (LLM.usage r); eexists; split; reflexivity. }
    rewrite E.
    destruct (IH (mkTracker (queries t) (Some (add_step s cur)))
                 (add_step s cur) eq_refl) as (cur' & E' & Hq & Hs & Hk).
    exists cur'. split; [exact E'|]. split; [exact Hq|]. split.
    + rewrite Hs. cbn [add_step steps]. rewrite List.map_app. cbn.
      rewrite <- List.app_assoc, Hn. reflexivity.
    + intros H. apply Hk, add_step_consistent; assumption.
Qed.

(** X9. A bracketed query is recorded whole and in order: [start_query q],
    then any completions, then [end_query] appends exactly one query to the
    completed list, with text [q], one step per completion carrying the step
    numbers in call order and token totals that are the sums over these
    steps, and leaves no query open, whatever the tracker held before. *)
Theorem bracketed_query_recorded (t : CostTracker) (q : string)
    (cs : list (Z * LLM.Response * bool)) :
  exists rec : QueryCost,
    apply_ops (StartQuery q :: completions cs ++ [EndQuery]) t
    = mkTracker (queries t ++ [rec]) None /\
    query rec = q /\
    List.map step_number (steps rec) = List.map (fun c => fst (fst c)) cs /\
    consistent rec.
Proof.
  change (apply_ops (StartQuery q :: completions cs ++ [EndQuery]) t)
    with (apply_ops (completions cs ++ [EndQuery]) (start_query q t)).
  unfold apply_ops at 1. rewrite List.fold_left_app.
  fold (apply_ops (completions cs) (start_query q t)).
  destruct (log_completions_open cs (start_query q t) (new_query q) eq_refl)
    as (rec & E & Hq & Hs & Hk).
  exists rec. rewrite E. cbn [List.fold_left apply_op]. unfold end_query.
  cbn [_current_query queries start_query]. split; [reflexivity|].
  split; [exact Hq|]. split; [exact Hs|].
  apply Hk, new_query_consistent.
Qed.

End CostMore.

(** * More on the agent loop *)
Section AgentMore.
Import Agent.

Variable TS : Type.
Variable acompletion :
  TS -> string -> list ChatMessage -> outcome LLM.Response * TS.
Variable LD : Type.
Variable reset : LD -> LD.
Variable check_tool_call : LD -> string -> string -> LoopCheck * LD.
Variable check_output_stagnation : LD -> option string -> LoopCheck * LD.
Variable json_loads : string -> outcome PyVal.
Variable py_str : PyVal -> string.

#[local] Abbreviation State := (Agent.State TS LD).
#[local] Abbreviation dispatch := (Agent.dispatch TS LD check_tool_call json_loads py_str).
#[local] Abbreviation iteration :=
  (Agent.iteration TS acompletion LD check_tool_call check_output_stagnation
                   json_loads py_str).
#[local] Abbreviation while_loop :=
  (Agent.while_loop TS acompletion LD check_tool_call check_output_stagnation
                    json_loads py_str).
#[local] Abbreviation begin_run := (Agent.begin_run TS LD reset).
#[local] Abbreviation run :=
  (Agent.run TS acompletion LD reset check_tool_call check_output_stagnation
             json_loads py_str).
#[local] Abbreviation invoke := (Agent.invoke json_loads).
#[local] Abbreviation smooth_calls := (Agent.smooth_calls LD check_tool_call json_loads).

Lemma zrange_snoc (start : Z) (len : nat) :
  zrange start (S len) = zrange start len ++ [(start + Z.of_nat len)%Z].
Proof.
  revert start. induction len as [|len IH]; intros start.
  - cbn. f_equal. lia.
  - change (zrange start (S (S len))) with (start :: zrange (start + 1) (S len)).
    rewrite IH.
    change (zrange start (S len)) with (start :: zrange (start + 1) len).
    rewrite Nat2Z.inj_succ. cbn [app]. do 2 f_equal. f_equal. lia.
Qed.

Lemma dispatch_step (calls : list LLM.ToolCall) (step : Tracer.AgentStep)
    (s : State) :
  Tracer.step_number (fst (dispatch calls step s)) = Tracer.step_number step /\
  messages s `prefix_of` messages (snd (dispatch calls step s)).
Proof.
  revert step s. induction calls as [|call rest IH]; intros step s.
  - split; reflexivity.
  - cbn [Agent.dispatch].
    destruct (check_tool_call _ _ _) as [lr d].
    destruct (is_looping lr); [split; reflexivity|].
    destruct (invoke _ _ _) as [[args_dict result]|e]; [|split; reflexivity].
    match goal with |- context [Agent.dispatch _ _ _ _ _ _ ?st ?s'] =>
      destruct (IH st s') as [H1 H2] end.
    split; [exact H1|].
    etransitivity; [|exact H2]. cbn [set_messages set_detector messages].
    apply prefix_app_r. reflexivity.
Qed.

(** what one iteration does to the step counter, the conversation, the
    trace and the cost tracker *)
Lemma iteration_effects (self : ObservableAgent) (trace_id : nat) (s : State) :
  let r := iteration self trace_id s in
  _step_number (snd r) = (_step_number s + 1)%Z /\
  messages s `prefix_of` messages (snd r) /\
  match fst r with
  | Returns _ =>
      (exists step,
         tracer (snd r) = tracer s ++ [Tracer.LogStep trace_id step] /\
         Tracer.step_number step = (_step_number s + 1)%Z) /\
      exists response,
        cost_tracker (snd r)
        = Cost.log_completion (_step_number s + 1) response false (cost_tracker s)
  | Raises _ =>
      tracer (snd r) = tracer s /\
      (cost_tracker (snd r) = cost_tracker s \/
       exists response,
         cost_tracker (snd r)
         = Cost.log_completion (_step_number s + 1) response false (cost_tracker s))
  end.
Proof.
  cbv zeta. unfold Agent.iteration.
  cbn [set_step_number transport messages].
  destruct (acompletion _ _ _) as [[response|e] ts].
  2:{ cbn. repeat split; auto. }
  cbn [set_transport set_cost _step_number cost_tracker].
  destruct (LLM.choices response) as [|msg others].
  { cbn. repeat split; eauto. }
  destruct (no_tool_calls (LLM.tool_calls msg)).
  - destruct (check_output_stagnation _ _) as [lc d]. cbn.
    repeat split; eauto.
  - match goal with |- context [Agent.dispatch _ _ _ _ _ ?c ?st ?s1] =>
      pose proof (dispatch_step c st s1) as [Hn Hm];
      pose proof (dispatch_frame TS LD check_tool_call json_loads py_str c st s1)
        as (Ht & Hc & _ & _ & Hk);
      destruct (dispatch c st s1) as [step' s2] end.
    cbn [fst snd] in *.
    cbn [set_messages set_cost set_transport set_step_number tracer cost_tracker
         _step_number messages] in *.
    assert (messages s `prefix_of` messages s2) as Hpre.
    { etransitivity; [|exact Hm]. apply prefix_app_r. reflexivity. }
    destruct (truthy _); cbn [fst snd set_tracer _step_number messages tracer
      cost_tracker Tracer.log_step];
      (split; [exact Hk|]; split; [exact Hpre|]; split;
       [exists step'; rewrite Ht; split; [reflexivity | exact Hn]
       | exists response; exact Hc]).
Qed.

(** the whole loop: the steps logged and the completions priced, both
    numbered consecutively from the step counter on *)
Lemma loop_effects (self : ObservableAgent) (trace_id : nat) (n : nat) (s : State) :
  let r := while_loop self trace_id n s in
  exists (steps : list Tracer.AgentStep) (cs : list (Z * LLM.Response * bool)),
    tracer (snd r) = tracer s ++ List.map (Tracer.LogStep trace_id) steps /\
    List.map Tracer.step_number steps
    = zrange (_step_number s + 1) (List.length steps) /\
    cost_tracker (snd r) = Cost.apply_ops (completions cs) (cost_tracker s) /\
    List.map (fun c => fst (fst c)) cs
    = zrange (_step_number s + 1) (List.length cs) /\
    (List.length steps <= List.length cs <= n)%nat /\
    (_step_number s <= _step_number (snd r) <= _step_number s + Z.of_nat n)%Z /\
    messages s `prefix_of` messages (snd r).
Proof.
  cbv zeta. revert s. induction n as [|n IH]; intros s.
  - exists [], []. cbn. rewrite List.app_nil_r. repeat split; try lia; reflexivity.
  - cbn [Agent.while_loop].
    pose proof (iteration_effects self trace_id s) as (Hk & Hm & He). cbv zeta in *.
    destruct (iteration self trace_id s) as [[c|e] s1]; cbn [fst snd] in *.
    + destruct He as ((step & Ht & Hn) & (response & Hc)).
      destruct c.
      * exists [step], [(_step_number s + 1, response, false)%Z].
        cbn [snd List.map List.length zrange fst].
        rewrite Ht, Hc, Hk, Hn. repeat split; try lia; try reflexivity.
        exact Hm.
      * destruct (IH s1) as (steps & cs & H1 & H2 & H3 & H4 & H5 & H6 & H7).
        exists (step :: steps), ((_step_number s + 1, response, false)%Z :: cs).
        cbn [List.map List.length zrange fst snd].
        rewrite H1, Ht, H3, Hc, H2, H4, Hn. rewrite Hk in *.
        rewrite <- List.app_assoc.
        repeat split; try lia; try reflexivity.
        etransitivity; eassumption.
    + destruct He as (Ht & [Hc | (response & Hc)]).
      * exists [], []. cbn [snd]. rewrite Ht, Hc, Hk. cbn.
        rewrite List.app_nil_r. repeat split; try lia; try reflexivity. exact Hm.
      * exists [], [(_step_number s + 1, response, false)%Z]. cbn [snd].
        rewrite Ht, Hc, Hk. cbn. rewrite List.app_nil_r.
        repeat split; try lia; try reflexivity. exact Hm.
Qed.

Lemma begin_run_state (self : ObservableAgent) (q : string) (s : State) :
  let s0 := snd (begin_run self q s) in
  let trace_id := fst (begin_run self q s) in
  tracer s0 = tracer s ++ [Tracer.StartTrace trace_id (agent_name self) q (model self)] /\
  cost_tracker s0 = Cost.start_query q (cost_tracker s) /\
  _step_number s0 = 0%Z /\
  messages s0 = opening self q /\
  final_answer s0 = None /\
  loop_detector s0 = reset (loop_detector s) /\
  transport s0 = transport s.
Proof. cbv zeta. unfold Agent.begin_run, Tracer.start_trace. cbn. repeat split. Qed.

(** X10. The trace of a run is bracketed: [run] appends to the tracer's log
    one [start_trace] call, then one [log_step] call per logged step with the
    step numbers 1, 2, ... in order and at most [max_steps] of them, then one
    [end_trace] call whose status is "completed" with the returned answer
    as output, or "error" with an empty output and the error text; the
    step counter ends between 0 and [max_steps]. *)
Theorem run_trace_bracket (self : ObservableAgent) (q : string) (s : State) :
  let r := run self q s in
  let trace_id := fst (begin_run self q s) in
  exists (steps : list Tracer.AgentStep) (output status : string)
         (error : option string),
    tracer (snd r)
    = tracer s
      ++ Tracer.StartTrace trace_id (agent_name self) q (model self)
         :: List.map (Tracer.LogStep trace_id) steps
      ++ [Tracer.EndTrace trace_id output status error] /\
    List.map Tracer.step_number steps = zrange 1 (List.length steps) /\
    (List.length steps <= Z.to_nat (max_steps self))%nat /\
    (0 <= _step_number (snd r) <= Z.max 0 (max_steps self))%Z /\
    ((status = "completed" /\ error = None /\
      fst r = PDict [("answer", PStr output)]) \/
     (status = "error" /\ output = "" /\
      exists msg, error = Some msg /\
                  fst r = PDict [("answer", PStr ("Agent failed: " +:+ msg))])).
Proof.
  cbv zeta. unfold Agent.run.
  pose proof (begin_run_state self q s) as (Ht & _ & Hn & _). cbv zeta in *.
  destruct (begin_run self q s) as [trace_id s0]. cbn [fst snd] in *.
  pose proof (loop_effects self trace_id (Z.to_nat (max_steps self)) s0)
    as (steps & cs & H1 & H2 & _ & _ & H5 & H6 & _). cbv zeta in *.
  rewrite Hn in *. rewrite Ht in H1.
  destruct (while_loop self trace_id (Z.to_nat (max_steps self)) s0)
    as [[u|e] s1]; cbn [fst snd] in *.
  - exists steps,
      (default "" (final_answer
                     (if negb (truthy (final_answer s1))
                      then set_final_answer (Some fallback) s1 else s1))),
      "completed", None.
    cbn [fst snd set_cost set_tracer tracer _step_number Tracer.end_trace].
    split.
    { destruct (negb (truthy (final_answer s1)));
        cbn [set_final_answer tracer final_answer]; unfold Tracer.end_trace;
        rewrite H1, <- !List.app_assoc; reflexivity. }
    split; [exact H2|]. split; [lia|]. split.
    { destruct (negb (truthy (final_answer s1)));
        cbn [set_final_answer _step_number]; lia. }
    left. split; [reflexivity|]. split; reflexivity.
  - exists steps, "", "error", (Some (exc_msg e)).
    cbn [fst snd set_cost set_tracer tracer _step_number Tracer.end_trace].
    split; [unfold Tracer.end_trace; rewrite H1, <- !List.app_assoc; reflexivity|].
    split; [exact H2|]. split; [lia|]. split; [lia|].
    right. repeat split. eexists. split; reflexivity.
Qed.

(** X11. The cost of a run is recorded as one query: [run] appends exactly one
    query to the agent's completed list, with the run's query text, steps
    numbered 1, 2, ... with at most [max_steps] of them and token totals
    that are the sums over the steps, and leaves no query open, whether the
    run completed or failed. *)
Theorem run_cost_record (self : ObservableAgent) (q : string) (s : State) :
  let r := run self q s in
  exists rec : Cost.QueryCost,
    cost_tracker (snd r)
    = Cost.mkTracker (Cost.queries (cost_tracker s) ++ [rec]) None /\
    Cost.query rec = q /\
    List.map Cost.step_number (Cost.steps rec)
    = zrange 1 (List.length (Cost.steps rec)) /\
    (List.length (Cost.steps rec) <= Z.to_nat (max_steps self))%nat /\
    consistent rec.
Proof.
  cbv zeta. unfold Agent.run.
  pose proof (begin_run_state self q s) as (_ & Hc & Hn & _). cbv zeta in *.
  destruct (begin_run self q s) as [trace_id s0]. cbn [fst snd] in *.
  pose proof (loop_effects self trace_id (Z.to_nat (max_steps self)) s0)
    as (steps & cs & _ & _ & H3 & H4 & H5 & _). cbv zeta in *.
  rewrite Hn, Hc in *.
  destruct (log_completions_open cs (Cost.start_query q (cost_tracker s))
              (Cost.new_query q) eq_refl) as (rec & E & Hq & Hs & Hk).
  rewrite E in H3. cbn [Cost.queries Cost.start_query] in H3.
  assert (List.length (Cost.steps rec) = List.length cs) as Hlen.
  { rewrite <- (List.length_map Cost.step_number), Hs. cbn.
    rewrite List.length_map. reflexivity. }
  assert (Cost.end_query (cost_tracker
            (snd (while_loop self trace_id (Z.to_nat (max_steps self)) s0)))
          = Cost.mkTracker (Cost.queries (cost_tracker s) ++ [rec]) None) as Hend.
  { rewrite H3. reflexivity. }
  exists rec.
  split.
  { destruct (while_loop self trace_id (Z.to_nat (max_steps self)) s0)
      as [[u|e] s1]; cbn [fst snd] in *.
    - cbn [snd cost_tracker set_cost set_tracer].
      destruct (negb (truthy (final_answer s1))); exact Hend.
    - cbn [snd cost_tracker set_cost set_tracer]. exact Hend. }
  split; [exact Hq|]. split.
  { rewrite Hs, Hlen. cbn. exact H4. }
  split; [lia|]. apply Hk, new_query_consistent.
Qed.

(** X12. The conversation of a run opens with the system prompt, if it is a
    non-empty string, followed by the user's query, and is only ever
    appended to: the opening is a prefix of the conversation at the end of
    the run. *)
Theorem run_conversation_opening (self : ObservableAgent) (q : string) (s : State) :
  opening self q `prefix_of` messages (snd (run self q s)).
Proof.
  unfold Agent.run.
  pose proof (begin_run_state self q s) as (_ & _ & _ & Hm & _). cbv zeta in *.
  destruct (begin_run self q s) as [trace_id s0]. cbn [fst snd] in *.
  pose proof (loop_effects self trace_id (Z.to_nat (max_steps self)) s0)
    as (steps & cs & _ & _ & _ & _ & _ & _ & H7). cbv zeta in *.
  rewrite Hm in H7.
  destruct (while_loop self trace_id (Z.to_nat (max_steps self)) s0)
    as [[u|e] s1]; cbn [fst snd] in *.
  - destruct (negb (truthy (final_answer s1))); exact H7.
  - exact H7.
Qed.

Lemma truthy_nonempty (x : option string) :
  truthy x = true -> exists a, x = Some a /\ a <> "".
Proof.
  destruct x as [a|]; [|discriminate]. cbn. intros H.
  exists a. split; [reflexivity|]. intros ->. discriminate.
Qed.

(** X13. The answer of a run is never empty: [run] returns the dict whose
    "answer" is a non-empty string, be it the model's text, a detector
    message, an error text or the fallback message. *)
Theorem run_answer_nonempty (self : ObservableAgent) (q : string) (s : State) :
  exists a : string,
    fst (run self q s) = PDict [("answer", PStr a)] /\ a <> "".
Proof.
  unfold Agent.run. destruct (begin_run self q s) as [trace_id s0].
  destruct (while_loop self trace_id (Z.to_nat (max_steps self)) s0)
    as [[u|e] s1]; cbn [fst].
  - destruct (truthy (final_answer s1)) eqn:E; cbn [negb].
    + destruct (truthy_nonempty _ E) as (a & Ha & Hne).
      exists a. rewrite Ha. split; [reflexivity | exact Hne].
    + exists fallback. split; [reflexivity | discriminate].
  - eexists. split; [reflexivity | discriminate].
Qed.

(** X14. A model that answers without tool calls ends the run at step 1:
    if the first response carries no tool calls, the run makes that single
    transport call, leaves the conversation at its opening and returns the
    response text, or the detector's message when the stagnation check
    trips; when that text is missing or empty the fallback message is
    returned instead. *)
Theorem direct_answer (self : ObservableAgent) (q : string) (s : State)
    (response : LLM.Response) (ts : TS) (msg : LLM.Message)
    (others : list LLM.Message) :
  (0 < max_steps self)%Z ->
  acompletion (transport s) (model self) (opening self q) = (Returns response, ts) ->
  LLM.choices response = msg :: others ->
  no_tool_calls (LLM.tool_calls msg) = true ->
  let check := fst (check_output_stagnation (reset (loop_detector s))
                                            (LLM.content msg)) in
  let candidate := if is_looping check then Some (message check)
                   else LLM.content msg in
  let r := run self q s in
  fst r = PDict [("answer",
                  PStr (if truthy candidate then default "" candidate
                        else "Max steps reached without final answer."))] /\
  _step_number (snd r) = 1%Z /\
  messages (snd r) = opening self q /\
  transport (snd r) = ts.
Proof.
  intros Hmax Hr Hc Hn. cbv zeta. unfold Agent.run.
  pose proof (begin_run_state self q s) as (_ & _ & Hk & Hm & _ & Hd & Ht).
  cbv zeta in *.
  destruct (begin_run self q s) as [trace_id s0]. cbn [fst snd] in *.
  destruct (Z.to_nat (max_steps self)) as [|n] eqn:En; [lia|].
  cbn [Agent.while_loop]. unfold Agent.iteration.
  cbn [set_step_number transport messages]. rewrite Ht, Hm, Hr.
  cbn [set_transport set_cost _step_number cost_tracker]. rewrite Hc, Hn.
  cbn [loop_detector set_cost set_transport set_step_number]. rewrite Hd.
  destruct (check_output_stagnation _ _) as [lc d]. cbn [fst].
  cbn [set_detector set_final_answer set_tracer final_answer].
  destruct (truthy (if is_looping lc then Some (message lc) else LLM.content msg));
    cbn [negb fst snd set_final_answer set_tracer set_cost final_answer
         _step_number messages transport default];
    rewrite ?Hk, ?Hm; repeat split;
    cbn [messages set_detector set_cost set_transport set_step_number];
    exact Hm.
Qed.


(** X15. A tripped tool-call check stops the run without running the tool:
    when the loop check flags a requested call with a non-empty message,
    after the calls before it in the step have gone through, the step is
    logged with the records of these earlier calls only, the conversation
    gets their observations only, so that neither the flagged call nor the
    calls after it are run, the message becomes the final answer, the while
    loop is left at this iteration and the registry is as it was. *)
Theorem loop_trip_stops_run (self : ObservableAgent) (trace_id : nat)
    (pre : list LLM.ToolCall) (call : LLM.ToolCall) (rest : list LLM.ToolCall)
    (s : State) (response : LLM.Response) (ts : TS) (msg : LLM.Message)
    (others : list LLM.Message) (d : LD) (n : nat) :
  let check := fst (check_tool_call d (LLM.function_name call)
                                    (LLM.function_arguments call)) in
  acompletion (transport s) (model self) (messages s) = (Returns response, ts) ->
  LLM.choices response = msg :: others ->
  LLM.tool_calls msg = Some (pre ++ call :: rest) ->
  smooth_calls (registry s) pre (loop_detector s) = Some d ->
  is_looping check = true ->
  message check <> "" ->
  exists s',
    while_loop self trace_id (S n) s = (Returns tt, s') /\
    final_answer s' = Some (message check) /\
    messages s'
    = messages s
      ++ AssistantMsg (LLM.content msg) (pre ++ call :: rest)
         :: tool_observations json_loads py_str (registry s) pre /\
    tracer s'
    = tracer s
      ++ [Tracer.LogStep trace_id
            (Tracer.mkStep (_step_number s + 1) (LLM.content msg)
               (tool_records json_loads py_str (registry s) pre))] /\
    registry s' = registry s.
Proof.
  cbv zeta. intros Hr Hc Htc Hs Hl Hne.
  assert (pre ++ call :: rest <> []) as Hnil by (destruct pre; discriminate).
  cbn [Agent.while_loop].
  rewrite (iteration_calls _ acompletion _ check_tool_call
             check_output_stagnation json_loads py_str self trace_id s
             response ts msg others _ Hr Hc Htc Hnil).
  cbv zeta.
  match goal with |- context [Agent.dispatch _ _ _ _ _ _ ?st ?s1] =>
    rewrite (dispatch_prefix _ _ check_tool_call json_loads py_str
               pre (call :: rest) st s1 d Hs) end.
  cbn [Agent.dispatch loop_detector set_messages set_detector].
  destruct (check_tool_call d _ _) as [lr d1]. cbn [fst] in *. rewrite Hl.
  cbn [fst snd set_final_answer set_detector set_messages set_tracer
       final_answer truthy].
  destruct (String.eqb_spec (message lr) ""); [congruence|]. cbn [negb].
  eexists. split; [reflexivity|].
  cbn [final_answer messages tracer registry Tracer.step_number
       Tracer.reasoning Tracer.tool_calls app].
  unfold Tracer.log_step. rewrite <- List.app_assoc. repeat split.
Qed.

End AgentMore.

Lemma loop_trip_stops_run_witness :
  exists s',
    Agent.while_loop (list (outcome LLM.Response)) Demo.scripted Demo.Detector
      Demo.check_tool_call Demo.check_output_stagnation Demo.json_loads
      Demo.py_str (Demo.agent 3) 0 1 Scenario.pinged_once = (Returns tt, s') /\
    Agent.final_answer s'
    = Some "Loop detected: the same tool call was repeated." /\
    Agent.messages s'
    = [Agent.UserMsg "is the service up?";
       Agent.AssistantMsg None [LLM.mkToolCall "ping" "{}";
                                LLM.mkToolCall "ping" "{}";
                                LLM.mkToolCall "divide" "{}"];
       Agent.ToolMsg "ping" "pong"] /\
    Agent.registry s' = Demo.registry0.
Proof.
  epose proof (loop_trip_stops_run _ Demo.scripted _ Demo.check_tool_call
               Demo.check_output_stagnation Demo.json_loads Demo.py_str
               (Demo.agent 3) 0 [LLM.mkToolCall "ping" "{}"]
               (LLM.mkToolCall "ping" "{}") [LLM.mkToolCall "divide" "{}"]
               Scenario.pinged_once _ _ _ _ _ 0) as H.
  cbv zeta in H. edestruct H as (s' & H1 & H2 & H3 & _ & H5); clear H.
  - reflexivity.
  - reflexivity.
  - reflexivity.
  - vm_compute. reflexivity.
  - reflexivity.
  - simpl. discriminate.
  - exists s'. split; [exact H1|]. split; [exact H2|].
    split; [exact H3 | exact H5].
Defined.

Lemma direct_answer_witness :
  fst (Demo.run_scripted (Demo.agent 3) "hi"
         (Demo.fresh [Scenario.answers "Hello"] Demo.registry0))
  = PDict [("answer", PStr "Hello")] /\
  Agent._step_number
    (snd (Demo.run_scripted (Demo.agent 3) "hi"
            (Demo.fresh [Scenario.answers "Hello"] Demo.registry0))) = 1%Z.
Proof.
  destruct (direct_answer _ Demo.scripted _ Demo.detector_reset
              Demo.check_tool_call Demo.check_output_stagnation
              Demo.json_loads Demo.py_str (Demo.agent 3) "hi"
              (Demo.fresh [Scenario.answers "Hello"] Demo.registry0)
              (LLM.mkResponse (Some (LLM.mkUsage (Some 12%Z) (Some 5%Z)))
                 (Some "gpt-4o") [LLM.mkMessage (Some "Hello") None])
              [] (LLM.mkMessage (Some "Hello") None) [])
    as (H1 & H2 & _).
  - simpl; lia.
  - reflexivity.
  - reflexivity.
  - reflexivity.
  - split; [exact H1 | exact H2].
Defined.


(** * More on the path guard *)
Section PathMore.
Import PathGuard.

#[local] Abbreviation norm_fold k := (List.fold_left (norm_step k)).

Lemma length_prefix (a b : string) :
  String.prefix a b = true -> (String.length a <= String.length b)%nat.
Proof.
  revert b. induction a as [|x a IH]; intros b H; [cbn; lia|].
  destruct b as [|y b]; [discriminate|]. cbn [String.prefix] in H.
  destruct (ascii_dec x y); [|discriminate]. apply IH in H. cbn. lia.
Qed.

Lemma good_length (c : string) : good c -> (0 < String.length c)%nat.
Proof. intros (H & _). destruct c; [congruence | cbn; lia]. Qed.

Lemma join_sep_longer (pre : list string) (c : string) (rest : list string) :
  (0 < String.length c)%nat ->
  (String.length (join_sep pre) < String.length (join_sep (pre ++ c :: rest)))%nat.
Proof.
  intros Hc. induction pre as [|p pre IH].
  - cbn [app join_sep String.length]. destruct rest as [|r rest]; [exact Hc|].
    rewrite length_app. lia.
  - destruct pre as [|p2 pre].
    + cbn [app]. change (join_sep (p :: c :: rest))
        with (p +:+ "/" +:+ join_sep (c :: rest)).
      cbn [join_sep]. rewrite !length_app. cbn [String.length]. lia.
    + change (join_sep ((p :: p2 :: pre) ++ c :: rest))
        with (p +:+ "/" +:+ join_sep ((p2 :: pre) ++ c :: rest)).
      change (join_sep (p :: p2 :: pre)) with (p +:+ "/" +:+ join_sep (p2 :: pre)).
      rewrite !length_app. lia.
Qed.

(** parent steps on an absolute path drop trailing components *)
Lemma norm_fold_parents (k n : nat) (cs : list string) :
  k <> 0%nat -> Forall good cs ->
  exists m, norm_fold k (repeat ".." n) cs = firstn m cs /\
            (n = 0%nat \/ cs = [] \/ m < List.length cs)%nat.
Proof.
  intros Hk. revert cs. induction n as [|n IH]; intros cs Hcs.
  - exists (List.length cs). cbn. rewrite firstn_all. auto.
  - cbn [repeat List.fold_left].
    assert (norm_step k cs ".." = List.removelast cs) as ->.
    { unfold norm_step. cbn [String.eqb Ascii.eqb Bool.eqb andb orb negb].
      destruct k as [|k]; [congruence|]. cbn [Nat.eqb andb orb].
      destruct cs as [|c cs]; [reflexivity|]. cbn [is_nil negb andb].
      destruct (String.eqb_spec (List.last (c :: cs) "") "..") as [E|E];
        [|reflexivity].
      exfalso. revert E. apply last_good; [assumption | congruence]. }
    destruct cs as [|c cs].
    { destruct (IH [] Hcs) as (m & E & _). exists 0%nat. cbn [List.removelast].
      rewrite E. destruct m; auto. }
    destruct (exists_last (l := c :: cs)) as (pre & l & E); [congruence|].
    rewrite E in *. rewrite List.removelast_last.
    apply Forall_app in Hcs as [Hpre _].
    destruct (IH pre Hpre) as (m & Em & Hm).
    exists (Nat.min m (List.length pre)). split.
    + rewrite Em. rewrite List.firstn_app.
      assert (firstn m pre = firstn (Nat.min m (List.length pre)) pre) as ->.
      { destruct (Nat.le_gt_cases m (List.length pre)).
        - rewrite Nat.min_l by assumption. reflexivity.
        - rewrite Nat.min_r by lia. rewrite !firstn_all2 by lia. reflexivity. }
      replace (Nat.min m (List.length pre) - List.length pre)%nat with 0%nat by lia.
      cbn [firstn]. rewrite List.app_nil_r. reflexivity.
    + right. right. rewrite List.length_app. cbn. lia.
Qed.

Lemma norm_fold_descend (k : nat) (comps acc : list string) :
  Forall (fun c => c <> "..") comps ->
  norm_fold k comps acc = acc ++ List.filter kept comps.
Proof.
  intros H. revert acc. induction H as [|c comps Hc _ IH]; intros acc.
  - cbn. rewrite List.app_nil_r. reflexivity.
  - cbn [List.fold_left List.filter]. rewrite IH. unfold norm_step, kept.
    destruct (String.eqb c "" || String.eqb c "."); cbn [negb]; [reflexivity|].
    destruct (String.eqb_spec c ".."); [congruence|]. cbn [negb orb].
    rewrite <- List.app_assoc. reflexivity.
Qed.

Lemma norm_fold_nodot (k : nat) (comps acc : list string) :
  Forall (fun c => c <> ".") acc ->
  Forall (fun c => c <> ".") (norm_fold k comps acc).
Proof.
  revert acc. induction comps as [|c comps IH]; intros acc H; [exact H|].
  cbn [List.fold_left]. apply IH. unfold norm_step.
  destruct (String.eqb_spec c ""); [exact H|].
  destruct (String.eqb_spec c "."); [exact H|]. cbn [orb].
  destruct (_ || _).
  - apply Forall_app. split; [exact H|]. constructor; [assumption | constructor].
  - destruct (negb (is_nil acc)); [|exact H].
    destruct acc as [|a acc]; [exact H|].
    destruct (exists_last (l := a :: acc)) as (pre & l & E); [congruence|].
    rewrite E in *. rewrite List.removelast_last.
    apply Forall_app in H as [H _]. exact H.
Qed.

Lemma parents_relative (n : nat) : startswith (parents n) "/" = false.
Proof. destruct n; reflexivity. Qed.

Lemma split_parents (n : nat) : split (parents n) = repeat ".." (S n).
Proof.
  unfold parents. apply split_join_sep; [discriminate|].
  apply Forall_forall. intros c Hc. apply list_elem_of_In, repeat_spec in Hc.
  subst. reflexivity.
Qed.

(** normalising a normalised absolute path changes nothing *)
Lemma normpath_canonical (k : nat) (ts : list string) :
  k = 1%nat \/ k = 2%nat ->
  Forall good ts -> Forall (fun c => c <> ".") ts ->
  normpath (slashes k +:+ join_sep ts) = slashes k +:+ join_sep ts.
Proof.
  intros Hk Hg Hd.
  assert (isabs (slashes k +:+ join_sep ts) = true) as Habs
    by (apply isabs_app; destruct Hk as [-> | ->]; reflexivity).
  rewrite (normpath_abs _ Habs).
  rewrite (canonical_initial_slashes k ts Hk Hg). f_equal. f_equal.
  unfold norm_comps. rewrite (canonical_initial_slashes k ts Hk Hg).
  rewrite split_slashes, norm_fold_empties.
  destruct ts as [|t ts]; [reflexivity|].
  rewrite split_join_sep.
  - rewrite norm_fold_descend.
    + cbn [app]. clear Hk Habs.
      induction (t :: ts) as [|c l IH]; [reflexivity|].
      inversion Hg as [|? ? (Hne & _) Hg']; inversion Hd as [|? ? Hnd Hd']; subst.
      cbn [List.filter]. unfold kept at 1.
      destruct (String.eqb_spec c ""); [congruence|].
      destruct (String.eqb_spec c "."); [congruence|]. cbn [orb negb].
      rewrite (IH Hg' Hd'). reflexivity.
    + eapply Forall_impl; [exact Hg|]. intros a (_ & Ha & _). exact Ha.
  - discriminate.
  - eapply Forall_impl; [exact Hg|]. intros a (_ & _ & Ha). exact Ha.
Qed.

Section WithCwd.
Variable cwd : string.
Hypothesis cwd_abs : isabs cwd = true.

Lemma abspath_parts (path : string) :
  exists k cs,
    (k = 1%nat \/ k = 2%nat) /\ Forall good cs /\ Forall (fun c => c <> ".") cs /\
    k = initial_slashes (absolute cwd path) /\
    cs = norm_comps (absolute cwd path) /\
    abspath cwd path = slashes k +:+ join_sep cs.
Proof.
  pose proof (absolute_abs cwd cwd_abs path) as Habs.
  exists (initial_slashes (absolute cwd path)), (norm_comps (absolute cwd path)).
  split; [apply initial_slashes_abs; exact Habs|].
  split; [apply norm_comps_good; exact Habs|].
  split; [apply norm_fold_nodot; constructor|].
  split; [reflexivity|]. split; [reflexivity|].
  apply abspath_canonical. exact cwd_abs.
Qed.

(** [abspath] of an absolute normalised path is the path itself *)
Lemma abspath_fixed (path : string) :
  abspath cwd (abspath cwd path) = abspath cwd path.
Proof.
  destruct (abspath_parts path) as (k & cs & Hk & Hg & Hd & _ & _ & E).
  rewrite E. unfold abspath at 1. unfold absolute.
  assert (isabs (slashes k +:+ join_sep cs) = true) as ->
    by (apply isabs_app; destruct Hk as [-> | ->]; reflexivity).
  apply normpath_canonical; assumption.
Qed.

Lemma descend_accepted (base target : string) :
  startswith target "/" = false ->
  Forall (fun c => c <> "..") (split target) ->
  abspath cwd (join base target)
  = slashes (initial_slashes (absolute cwd base))
    +:+ join_sep (norm_comps (absolute cwd base) ++ List.filter kept (split target)).
Proof.
  intros Hrel Hdesc.
  destruct (absolute_join cwd cwd_abs base target Hrel) as [Ek Ec].
  rewrite (abspath_canonical cwd cwd_abs), Ek, Ec, norm_fold_descend by assumption.
  reflexivity.
Qed.

Lemma parents_rejected (base : string) (n : nat) :
  dirname (abspath cwd base) <> abspath cwd base ->
  startswith (abspath cwd (join base (parents n))) (abspath cwd base) = false.
Proof.
  intros Hdir.
  pose proof (absolute_abs cwd cwd_abs base) as Habs.
  pose proof (norm_comps_good _ Habs) as Hgood.
  pose proof (initial_slashes_abs _ Habs) as Hk.
  assert (initial_slashes (absolute cwd base) <> 0%nat) as Hk0
    by (destruct Hk as [-> | ->]; discriminate).
  destruct (absolute_join cwd cwd_abs base (parents n) (parents_relative n))
    as [Ek Ec].
  rewrite !(abspath_canonical cwd cwd_abs) in *. rewrite Ek, Ec, split_parents.
  destruct (norm_fold_parents _ (S n) _ Hk0 Hgood) as (m & -> & Hm).
  destruct (norm_comps (absolute cwd base)) as [|c cs] eqn:Ecs.
  { exfalso. apply Hdir. destruct Hk as [-> | ->]; reflexivity. }
  destruct Hm as [Hm | [Hm | Hm]]; [discriminate | discriminate |].
  rewrite <- (firstn_skipn m (c :: cs)) at 2.
  rewrite <- (firstn_skipn m (c :: cs)) in Hgood.
  destruct (skipn m (c :: cs)) as [|x rest] eqn:Es.
  { exfalso. apply (f_equal (@List.length string)) in Es.
    rewrite List.length_skipn in Es. cbn [List.length] in Es, Hm. lia. }
  apply Forall_app in Hgood as [_ Hx]. inversion Hx as [|? ? Hgx _]; subst.
  unfold startswith. rewrite prefix_app.
  destruct (String.prefix _ _) eqn:Hp; [|reflexivity].
  apply length_prefix in Hp.
  pose proof (join_sep_longer (firstn m (c :: cs)) x rest (good_length x Hgx)).
  lia.
Qed.

(** X16. The root itself is allowed: a requested path whose components are
    all empty or ".", such as the empty path, "." or "./.", resolves to the
    normalised absolute root and is returned. *)
Theorem validate_dot_is_root (base target : string) :
  startswith target "/" = false ->
  Forall (fun c => c = "" \/ c = ".") (split target) ->
  validate_safe_path cwd base target = Returns (abspath cwd base).
Proof.
  intros Hrel Hdots.
  assert (abspath cwd (join base target) = abspath cwd base) as E.
  { rewrite descend_accepted; [|exact Hrel|].
    - assert (List.filter kept (split target) = []) as ->.
      { induction Hdots as [|c l [-> | ->] _ IH]; cbn; auto. }
      rewrite List.app_nil_r. symmetry. apply abspath_canonical. exact cwd_abs.
    - eapply Forall_impl; [exact Hdots|]. intros c [-> | ->]; discriminate. }
  unfold validate_safe_path. rewrite E. unfold startswith.
  rewrite <- (app_nil_r (abspath cwd base)) at 2. rewrite prefix_app_l.
  reflexivity.
Qed.

(** X17. Descending paths stay inside: a relative requested path none of
    whose components is ".." is never rejected; it is returned in normalised
    absolute form, which lies component-wise inside the root and extends the
    text of the normalised absolute root. *)
Theorem validate_descending (base target : string) :
  startswith target "/" = false ->
  Forall (fun c => c <> "..") (split target) ->
  validate_safe_path cwd base target = Returns (abspath cwd (join base target)) /\
  contained (abspath cwd base) (abspath cwd (join base target)) /\
  exists tl, abspath cwd (join base target) = abspath cwd base +:+ tl.
Proof.
  intros Hrel Hdesc.
  pose proof (descend_accepted base target Hrel Hdesc) as E.
  pose proof (abspath_canonical cwd cwd_abs base) as Eb.
  pose proof (absolute_abs cwd cwd_abs base) as Habs.
  pose proof (norm_comps_good _ Habs) as Hg.
  pose proof (initial_slashes_abs _ Habs) as Hk.
  assert (Forall good (List.filter kept (split target))) as Hext.
  { apply Forall_forall. intros c Hc. apply list_elem_of_In, filter_In in Hc.
    destruct Hc as [Hin Hkept].
    pose proof (split_components target) as Hns.
    rewrite !Forall_forall in Hns, Hdesc.
    apply list_elem_of_In in Hin. split; [|split; auto].
    intros ->. discriminate. }
  assert (Forall good (norm_comps (absolute cwd base)
                       ++ List.filter kept (split target))) as Hall
    by (apply Forall_app; split; assumption).
  assert (exists tl, abspath cwd (join base target) = abspath cwd base +:+ tl)
    as (tl & Etl).
  { rewrite E, Eb.
    destruct (join_sep_app (norm_comps (absolute cwd base))
                (List.filter kept (split target))) as (tl & ->).
    exists tl. rewrite app_assoc. reflexivity. }
  split; [|split].
  - unfold validate_safe_path. rewrite Etl at 1. unfold startswith.
    rewrite prefix_app_l. reflexivity.
  - rewrite E, Eb. split.
    + rewrite !canonical_initial_slashes by assumption. reflexivity.
    + rewrite !canonical_comps by assumption. eexists. reflexivity.
  - exists tl. exact Etl.
Qed.

(** X18. Climbing out is refused: for a root whose normalised absolute form
    has a parent different from itself, every requested path made only of
    parent steps ("..", "../..", ...) is rejected with the security error. *)
Theorem validate_parents_rejected (base : string) (n : nat) :
  dirname (abspath cwd base) <> abspath cwd base ->
  validate_safe_path cwd base (parents n)
  = Raises (Exc SecurityError ("Path traversal blocked: " +:+ parents n)).
Proof.
  intros Hdir. unfold validate_safe_path.
  rewrite (parents_rejected base n Hdir). reflexivity.
Qed.

(** what the sanitizer returns is absolute, normalised and accepted again *)
Lemma validated_fixed (base target safe : string) :
  validate_safe_path cwd base target = Returns safe ->
  validate_safe_path cwd base safe = Returns safe /\
  abspath cwd safe = safe /\
  isabs safe = true.
Proof.
  unfold validate_safe_path.
  destruct (startswith (abspath cwd (join base target)) (abspath cwd base)) eqn:Hs;
    [|discriminate].
  cbn [negb]. intros E. inversion E as [Esafe]. clear E. subst safe.
  assert (isabs (abspath cwd (join base target)) = true) as Habs.
  { destruct (abspath_parts (join base target)) as (k & cs & Hk & _ & _ & _ & _ & ->).
    apply isabs_app. destruct Hk as [-> | ->]; reflexivity. }
  assert (join base (abspath cwd (join base target)) = abspath cwd (join base target))
    as Ej.
  { unfold join at 1. unfold isabs in Habs. rewrite Habs. reflexivity. }
  rewrite Ej, abspath_fixed, Hs. cbn [negb].
  split; [reflexivity|]. split; [reflexivity | exact Habs].
Qed.

(** X19. A path returned by the sanitizer is a fixed point: it is absolute
    and normalised, so validating it again against the same root returns it
    unchanged. *)
Theorem validate_idempotent (base target safe : string) :
  validate_safe_path cwd base target = Returns safe ->
  validate_safe_path cwd base safe = Returns safe /\
  abspath cwd safe = safe /\
  isabs safe = true.
Proof. exact (validated_fixed base target safe). Qed.

End WithCwd.

Lemma validate_dot_is_root_witness :
  validate_safe_path "/home/u" "./workspace" "." = Returns "/home/u/workspace" /\
  validate_safe_path "/home/u" "./workspace" "" = Returns "/home/u/workspace".
Proof.
  split.
  - apply (validate_dot_is_root "/home/u" eq_refl "./workspace" ".").
    + reflexivity.
    + constructor; [right; reflexivity | constructor].
  - apply (validate_dot_is_root "/home/u" eq_refl "./workspace" "").
    + reflexivity.
    + constructor; [left; reflexivity | constructor].
Defined.

Lemma validate_descending_witness :
  validate_safe_path "/home/u" "ws" "a/./b" = Returns "/home/u/ws/a/b".
Proof.
  refine (proj1 (validate_descending "/home/u" eq_refl "ws" "a/./b" _ _)).
  - reflexivity.
  - repeat constructor; discriminate.
Defined.

Lemma validate_parents_rejected_witness :
  validate_safe_path "/home/u" "." "../.."
  = Raises (Exc SecurityError "Path traversal blocked: ../..").
Proof.
  apply (validate_parents_rejected "/home/u" eq_refl "." 1).
  vm_compute. discriminate.
Defined.

Lemma validate_idempotent_witness :
  validate_safe_path "/home/u" "ws" "/home/u/ws/a/b" = Returns "/home/u/ws/a/b".
Proof.
  refine (proj1 (validate_idempotent "/home/u" eq_refl "ws" "a/./b"
                   "/home/u/ws/a/b" _)).
  reflexivity.
Defined.

Section ListFilesFacts.
Variable cwd : string.
Hypothesis cwd_abs : isabs cwd = true.
Variable listdir : string -> outcome (list string).

(** X20. [ListFilesTool.execute] never lists outside the sanitizer: it
    always returns the three-key result dict, and whenever the result is a
    success the listing comes from [os.listdir] applied to the path that
    [validate_safe_path] returned for the base directory ".", a normalised
    absolute path that begins with the text of the absolute working
    directory. *)
Theorem list_files_only_validated (path : string) :
  let r := ListFiles.execute cwd listdir path in
  Registry.well_shaped r /\
  (dict_get "success" r = Some (PBool true) ->
   exists safe files,
     validate_safe_path cwd "." path = Returns safe /\
     listdir safe = Returns files /\
     startswith safe (abspath cwd ".") = true /\
     abspath cwd safe = safe /\
     r = Registry.result_dict true (PList (List.map PStr files)) PNone).
Proof.
  cbv zeta. unfold ListFiles.execute, ListFiles.BASE_DIR.
  destruct (validate_safe_path cwd "." path) as [safe|e] eqn:Ev.
  - destruct (listdir safe) as [files|e] eqn:El.
    + split.
      { exists true, (PList (List.map PStr files)), PNone.
        repeat split; auto; discriminate. }
      intros _. exists safe, files.
      destruct (validated_fixed cwd cwd_abs "." path safe Ev) as (_ & Hfix & _).
      repeat split; try assumption.
      unfold validate_safe_path in Ev.
      destruct (startswith (abspath cwd (join "." path)) (abspath cwd ".")) eqn:Hs;
        [|discriminate].
      inversion Ev; subst. exact Hs.
    + split; [apply failure_shaped | discriminate].
  - split.
    + destruct (exc_class e); apply failure_shaped.
    + destruct (exc_class e); discriminate.
Qed.

(** X21. The traversal attack of the tool is blocked: unless the working
    directory is the filesystem root, [ListFilesTool.execute] answers every
    path made only of parent steps ("..", "../..", ...) with the security
    failure and without consulting the file system. *)
Theorem list_files_blocks_parents (n : nat) :
  dirname (abspath cwd ".") <> abspath cwd "." ->
  ListFiles.execute cwd listdir (parents n)
  = Registry.failure ("Security error: Path traversal blocked: " +:+ parents n).
Proof.
  intros Hdir. unfold ListFiles.execute, ListFiles.BASE_DIR, validate_safe_path.
  rewrite (parents_rejected cwd cwd_abs "." n Hdir). reflexivity.
Qed.

End ListFilesFacts.

Lemma list_files_only_validated_witness :
  ListFiles.execute "/home/u" (fun _ => Returns ["notes.txt"]) "docs"
  = Registry.result_dict true (PList [PStr "notes.txt"]) PNone.
Proof.
  destruct (list_files_only_validated "/home/u" eq_refl
              (fun _ => Returns ["notes.txt"]) "docs") as [_ H].
  destruct (H eq_refl) as (safe & files & _ & Hl & _ & _ & E).
  inversion Hl; subst. exact E.
Defined.

Lemma list_files_blocks_parents_witness :
  ListFiles.execute "/home/u" (fun _ => Returns ["notes.txt"]) "../.."
  = Registry.failure "Security error: Path traversal blocked: ../..".
Proof.
  apply (list_files_blocks_parents "/home/u" eq_refl
           (fun _ => Returns ["notes.txt"]) 1).
  vm_compute. discriminate.
Defined.

End PathMore.

(** * The retry loop of the API client *)
Section ClientFacts.
Import HFClient.

Variable outcomes : nat -> posted.
Variable json : Response -> outcome PyVal.

#[local] Abbreviation attempts := (HFClient.attempts outcomes json).
#[local] Abbreviation query := (HFClient.query outcomes json).

Lemma pow2_succ (a : Z) :
  (0 <= a)%Z -> (inject_Z (2 ^ (a + 1)) == 2 * inject_Z (2 ^ a))%Q.
Proof.
  intros H. rewrite Z.pow_add_r by lia. rewrite inject_Z_mult.
  change (inject_Z (2 ^ 1)) with 2%Q. ring.
Qed.

Lemma pow2_pos (a : Z) : (0 <= a)%Z -> (1 <= inject_Z (2 ^ a))%Q.
Proof.
  intros H. change 1%Q with (inject_Z 1). rewrite <- Zle_Qle.
  pose proof (Z.pow_pos_nonneg 2 a). lia.
Qed.

Lemma sleep_ok (d : Q) (st : State) :
  (0 <= d)%Q ->
  sleep d st = Ok (mkState (response st) (slept st ++ [d]) (posts st)).
Proof.
  intros H. unfold sleep.
  destruct (RateLimiter.Qltb d 0) eqn:E; [|reflexivity].
  apply Qltb_lt in E. lra.
Qed.

Lemma Qsum_app (l1 l2 : list Q) : (Qsum (l1 ++ l2) == Qsum l1 + Qsum l2)%Q.
Proof. induction l1 as [|x l1 IH]; cbn [app Qsum]; [ring | rewrite IH; ring]. Qed.

(** effort spent from attempt [a] on with [r] attempts left *)
Lemma attempts_effort (self : Client) (r : nat) (a : Z) (st : State) :
  (0 <= retry_delay self)%Q -> (0 <= a)%Z ->
  let st' := snd (attempts self r a st) in
  (posts st <= posts st' <= posts st + r)%nat /\
  (exists more,
     slept st' = slept st ++ more /\
     (List.length more <= r)%nat /\
     Forall (fun d => 0 <= d)%Q more /\
     (Qsum more
      <= retry_delay self * (inject_Z (2 ^ (a + Z.of_nat r)) - inject_Z (2 ^ a)))%Q).
Proof.
  intros Hd. cbv zeta. revert a st. induction r as [|r IH]; intros a st Ha.
  - cbn [HFClient.attempts snd]. split; [lia|]. exists [].
    rewrite List.app_nil_r, Z.add_0_r. repeat split; [cbn; lia | constructor |].
    cbn. ring_simplify. apply Qle_refl.
  - assert (0 <= a + 1)%Z as Ha1 by lia.
    assert (inject_Z (2 ^ (a + Z.of_nat (S r)))
            == inject_Z (2 ^ (a + 1 + Z.of_nat r)))%Q as Epow
      by (replace (a + Z.of_nat (S r))%Z with (a + 1 + Z.of_nat r)%Z by lia;
          reflexivity).
    pose proof (pow2_succ a Ha) as E2. pose proof (pow2_pos a Ha) as P1.
    assert (inject_Z (2 ^ (a + 1)) <= inject_Z (2 ^ (a + 1 + Z.of_nat r)))%Q as Pmono.
    { rewrite <- Zle_Qle. apply Z.pow_le_mono_r; lia. }
    set (B := inject_Z (2 ^ (a + 1 + Z.of_nat r))) in *.
    set (A1 := inject_Z (2 ^ (a + 1))) in *.
    set (A := inject_Z (2 ^ a)) in *.
    (* a step that sleeps [d <= retry_delay * 2^a] and goes on *)
    assert (forall d st1,
              (0 <= d)%Q -> (d <= retry_delay self * A)%Q ->
              posts st1 = S (posts st) -> slept st1 = slept st ++ [d] ->
              let st' := snd (attempts self r (a + 1) st1) in
              (posts st <= posts st' <= posts st + S r)%nat /\
              (exists more,
                 slept st' = slept st ++ more /\ (List.length more <= S r)%nat /\
                 Forall (fun d => 0 <= d)%Q more /\
                 (Qsum more
                  <= retry_delay self * (inject_Z (2 ^ (a + Z.of_nat (S r))) - A))%Q))
      as Hsleep.
    { intros d st1 Hd0 Hdle Hp Hs. cbv zeta.
      destruct (IH (a + 1)%Z st1 Ha1) as (Hposts & more & Em & Hlen & Hpos & Hsum).
      split; [lia|]. exists (d :: more). rewrite Em, Hs, <- List.app_assoc.
      repeat split; [cbn; lia | constructor; assumption |].
      cbn [Qsum]. rewrite Epow. fold B A1 in Hsum.
      set (D := retry_delay self) in *.
      assert (D * (B - A) == D * (B - A1) + D * A)%Q as -> by (rewrite E2; ring).
      lra. }
    (* a step that goes on without sleeping *)
    assert (forall st1,
              posts st1 = S (posts st) -> slept st1 = slept st ->
              let st' := snd (attempts self r (a + 1) st1) in
              (posts st <= posts st' <= posts st + S r)%nat /\
              (exists more,
                 slept st' = slept st ++ more /\ (List.length more <= S r)%nat /\
                 Forall (fun d => 0 <= d)%Q more /\
                 (Qsum more
                  <= retry_delay self * (inject_Z (2 ^ (a + Z.of_nat (S r))) - A))%Q))
      as Hgo.
    { intros st1 Hp Hs. cbv zeta.
      destruct (IH (a + 1)%Z st1 Ha1) as (Hposts & more & Em & Hlen & Hpos & Hsum).
      split; [lia|]. exists more. rewrite Em, Hs.
      repeat split; [lia | assumption |].
      rewrite Epow. fold B A1 in Hsum. set (D := retry_delay self) in *.
      assert (0 <= D * (A1 - A))%Q.
      { apply Qmult_le_0_compat; [exact Hd|]. rewrite E2. lra. }
      assert (D * (B - A) == D * (B - A1) + D * (A1 - A))%Q as -> by ring.
      lra. }
    (* a step that stops *)
    assert (forall st1,
              posts st1 = S (posts st) -> slept st1 = slept st ->
              (posts st <= posts st1 <= posts st + S r)%nat /\
              (exists more,
                 slept st1 = slept st ++ more /\ (List.length more <= S r)%nat /\
                 Forall (fun d => 0 <= d)%Q more /\
                 (Qsum more
                  <= retry_delay self * (inject_Z (2 ^ (a + Z.of_nat (S r))) - A))%Q))
      as Hstop.
    { intros st1 Hp Hs. split; [lia|]. exists [].
      rewrite List.app_nil_r. repeat split; [exact Hs | cbn; lia | constructor |].
      cbn [Qsum]. rewrite Epow. apply Qmult_le_0_compat; [exact Hd | lra]. }
    cbn [HFClient.attempts].
    destruct (outcomes (posts st)) as [resp| |e].
    + cbn [response slept posts].
      destruct (status_code resp =? 200)%Z.
      { cbn [snd]. apply Hstop; reflexivity. }
      destruct (status_code resp =? 503)%Z.
      { rewrite sleep_ok by exact Hd.
        apply (Hsleep (retry_delay self)); try reflexivity; [exact Hd|].
        assert (0 <= retry_delay self * (A - 1))%Q as Hx
          by (apply Qmult_le_0_compat; [exact Hd | lra]).
        assert (retry_delay self * A
                == retry_delay self + retry_delay self * (A - 1))%Q as -> by ring.
        lra. }
      destruct (status_code resp =? 429)%Z.
      { assert (0 <= retry_delay self * A)%Q as Hw
          by (apply Qmult_le_0_compat; [exact Hd | lra]).
        rewrite sleep_ok by exact Hw.
        apply (Hsleep (retry_delay self * A)%Q); try reflexivity; [exact Hw|].
        apply Qle_refl. }
      destruct (raise_for_status resp); [apply Hgo | cbn [snd]; apply Hstop];
        reflexivity.
    + cbn [response].
      destruct (response st) as [prev|]; [|cbn [snd]; apply Hstop; reflexivity].
      destruct (raise_for_status prev); [apply Hgo | cbn [snd]; apply Hstop];
        reflexivity.
    + cbn [snd]. apply Hstop; reflexivity.
Qed.

#[local] Abbreviation waits := (HFClient.waits outcomes).

(** the loop walks through a prefix of retried responses *)
Lemma attempts_retried_prefix (self : Client) (i r : nat) (a : Z) (st : State) :
  (0 <= retry_delay self)%Q -> (0 <= a)%Z ->
  (forall j, (j < i)%nat -> retried (outcomes (posts st + j)) = true) ->
  exists st_i,
    attempts self (i + r) a st = attempts self r (a + Z.of_nat i) st_i /\
    posts st_i = (posts st + i)%nat /\
    slept st_i = slept st ++ waits self (posts st) a i /\
    match i with
    | O => response st_i = response st
    | S i' => exists resp, outcomes (posts st + i') = Got resp /\
                           response st_i = Some resp
    end.
Proof.
  intros Hd. revert a st. induction i as [|i IH]; intros a st Ha Hall.
  - exists st. rewrite Z.add_0_r, Nat.add_0_r. cbn [HFClient.waits].
    rewrite List.app_nil_r. repeat split.
  - pose proof (Hall 0%nat ltac:(lia)) as H0. rewrite Nat.add_0_r in H0.
    cbn [Nat.add HFClient.attempts HFClient.waits].
    destruct (outcomes (posts st)) as [resp| |e] eqn:Eo; try discriminate.
    cbn [retried] in H0. apply andb_true_iff in H0 as [H200 Hst].
    apply negb_true_iff in H200. rewrite H200.
    cbn [response slept posts HFClient.wait].
    assert (0 <= retry_delay self * inject_Z (2 ^ a))%Q as Hw.
    { apply Qmult_le_0_compat; [exact Hd|]. pose proof (pow2_pos a Ha). lra. }
    set (w := if (status_code resp =? 503)%Z then retry_delay self
              else (retry_delay self * inject_Z (2 ^ a))%Q).
    assert (attempts self (S (i + r)) a st
            = attempts self (i + r) (a + 1)
                (mkState (Some resp) (slept st ++ [w]) (S (posts st)))) as E.
    { cbn [HFClient.attempts]. rewrite Eo, H200. cbn [response slept posts].
      unfold w. destruct (status_code resp =? 503)%Z.
      - rewrite sleep_ok by exact Hd. reflexivity.
      - cbn [orb] in Hst. rewrite Hst. rewrite sleep_ok by exact Hw. reflexivity. }
    cbn [HFClient.attempts] in E. rewrite Eo, H200 in E.
    cbn [response slept posts] in E. rewrite E.
    destruct (IH (a + 1)%Z (mkState (Some resp) (slept st ++ [w]) (S (posts st))))
      as (st_i & E1 & E2 & E3 & E4); [lia | |].
    { intros j Hj. cbn [posts]. replace (S (posts st) + j)%nat
        with (posts st + S j)%nat by lia. apply Hall. lia. }
    exists st_i. cbn [posts slept response] in *.
    split; [rewrite E1; f_equal; lia|]. split; [lia|]. split.
    + rewrite E3, <- List.app_assoc. reflexivity.
    + destruct i as [|i'].
      * exists resp. rewrite Nat.add_0_r. split; [exact Eo | exact E4].
      * destruct E4 as (resp' & Er & Es). exists resp'.
        split; [|exact Es]. rewrite <- Er. f_equal. lia.
Qed.

(** X22. The effort of [query] is bounded: with a non-negative retry delay it
    sends at most [max_retries] requests and sleeps at most [max_retries]
    times, and the total time slept is at most
    [retry_delay * (2^max_retries - 1)], whatever the server answers. *)
Theorem query_effort_bounded (self : Client) :
  (0 <= retry_delay self)%Q ->
  let st := snd (query self) in
  (posts st <= Z.to_nat (max_retries self))%nat /\
  (List.length (slept st) <= Z.to_nat (max_retries self))%nat /\
  Forall (fun d => 0 <= d)%Q (slept st) /\
  (Qsum (slept st)
   <= retry_delay self * (inject_Z (2 ^ Z.max 0 (max_retries self)) - 1))%Q.
Proof.
  intros Hd. cbv zeta. unfold HFClient.query.
  destruct (attempts_effort self (Z.to_nat (max_retries self)) 0
              (mkState None [] 0) Hd ltac:(lia))
    as (Hp & more & Em & Hlen & Hpos & Hsum).
  cbn [posts slept app] in *. rewrite Em.
  split; [lia|]. split; [exact Hlen|]. split; [exact Hpos|].
  replace (Z.max 0 (max_retries self)) with (0 + Z.of_nat (Z.to_nat (max_retries self)))%Z
    by lia.
  exact Hsum.
Qed.

Lemma waits_rate_limited (self : Client) (p i : nat) :
  (forall j, (j < i)%nat ->
     exists resp, outcomes (p + j) = Got resp /\ status_code resp = 429%Z) ->
  waits self p (Z.of_nat p) i = backoff self p i.
Proof.
  revert p. induction i as [|i IH]; intros p Hall; [reflexivity|].
  unfold backoff. cbn [HFClient.waits seq List.map].
  destruct (Hall 0%nat ltac:(lia)) as (resp & Eo & Es).
  rewrite Nat.add_0_r in Eo. rewrite Eo. cbn [HFClient.wait]. rewrite Es.
  cbn [Z.eqb Pos.eqb]. f_equal.
  replace (Z.of_nat p + 1)%Z with (Z.of_nat (S p)) by lia.
  apply IH. intros j Hj. replace (S p + j)%nat with (p + S j)%nat by lia.
  apply Hall. lia.
Qed.

Lemma Qsum_backoff (self : Client) (p i : nat) :
  (Qsum (backoff self p i)
   == retry_delay self
      * (inject_Z (2 ^ Z.of_nat (p + i)) - inject_Z (2 ^ Z.of_nat p)))%Q.
Proof.
  revert p. induction i as [|i IH]; intros p.
  - rewrite Nat.add_0_r. cbn. ring.
  - unfold backoff in *. cbn [seq List.map Qsum]. rewrite IH.
    replace (S p + i)%nat with (p + S i)%nat by lia.
    assert (inject_Z (2 ^ Z.of_nat (S p)) == 2 * inject_Z (2 ^ Z.of_nat p))%Q as ->.
    { rewrite Nat2Z.inj_succ, <- Z.add_1_r. apply pow2_succ. lia. }
    ring.
Qed.

(** X23. Exponential backoff: if every one of the [max_retries] requests is
    answered with status 429, [query] sleeps [retry_delay * 2^k] after the
    k-th of them, [retry_delay * (2^max_retries - 1)] in all, and then raises
    the RuntimeError, which carries neither status nor body because the
    last response is an error response. *)
Theorem query_rate_limited_backoff (self : Client) :
  (0 <= retry_delay self)%Q ->
  (forall j, (j < Z.to_nat (max_retries self))%nat ->
     exists resp, outcomes j = Got resp /\ status_code resp = 429%Z) ->
  let n := Z.to_nat (max_retries self) in
  fst (query self) = Err (RuntimeError (max_retries self) None None) /\
  posts (snd (query self)) = n /\
  slept (snd (query self)) = backoff self 0 n /\
  (Qsum (slept (snd (query self)))
   == retry_delay self * (inject_Z (2 ^ Z.of_nat n) - 1))%Q.
Proof.
  intros Hd Hall. cbv zeta. unfold HFClient.query.
  set (n := Z.to_nat (max_retries self)) in *.
  destruct (attempts_retried_prefix self n 0 0 (mkState None [] 0) Hd ltac:(lia))
    as (st & E & Ep & Es & Er).
  { intros j Hj. cbn [posts Nat.add]. destruct (Hall j Hj) as (resp & -> & Hs).
    cbn [retried]. rewrite Hs. reflexivity. }
  rewrite Nat.add_0_r in E. rewrite E. cbn [HFClient.attempts fst snd].
  cbn [posts slept response app Nat.add] in *.
  pose proof (waits_rate_limited self 0 n Hall) as Hw.
  change (Z.of_nat 0) with 0%Z in Hw. rewrite Hw in Es. clear Hw.
  split.
  - unfold exhausted. destruct n as [|n'] eqn:En.
    + rewrite Er. reflexivity.
    + destruct Er as (resp & Eo & ->).
      destruct (Hall n' ltac:(lia)) as (resp' & Eo' & Hs).
      cbn [Nat.add] in Eo. rewrite Eo in Eo'. inversion Eo'; subst resp'.
      unfold ok, raise_for_status. rewrite Hs. reflexivity.
  - split; [exact Ep|]. split; [exact Es|].
    rewrite Es, Qsum_backoff. cbn [Nat.add Z.of_nat Z.pow]. reflexivity.
Qed.

(** X24. A timeout is not retried: when a request times out after only
    retried (503/429) responses, [query] neither sleeps for it nor sends
    another request; it raises AttributeError if it was the first request and
    otherwise the HTTPError of the previous response. *)
Theorem query_timeout_not_retried (self : Client) (i : nat) :
  (0 <= retry_delay self)%Q ->
  (i < Z.to_nat (max_retries self))%nat ->
  (forall j, (j < i)%nat -> retried (outcomes j) = true) ->
  outcomes i = TimedOut ->
  posts (snd (query self)) = S i /\
  slept (snd (query self)) = waits self 0 0 i /\
  match i with
  | O => fst (query self) = Err AttributeError
  | S i' => exists resp,
              outcomes i' = Got resp /\
              fst (query self) = Err (HTTPError (status_code resp))
  end.
Proof.
  intros Hd Hi Hall Ht. unfold HFClient.query.
  replace (Z.to_nat (max_retries self))
    with (i + S (Z.to_nat (max_retries self) - S i))%nat by lia.
  destruct (attempts_retried_prefix self i (S (Z.to_nat (max_retries self) - S i))
              0 (mkState None [] 0) Hd ltac:(lia)) as (st & E & Ep & Es & Er).
  { intros j Hj. apply Hall. exact Hj. }
  rewrite E. cbn [posts slept app Nat.add] in *.
  cbn [HFClient.attempts]. rewrite Ep, Ht. cbn [response].
  destruct i as [|i'].
  - rewrite Er. cbn [fst snd posts slept]. rewrite ?Ep, Es. repeat split.
  - destruct Er as (resp & Eo & ->).
    pose proof (Hall i' ltac:(lia)) as Hr. rewrite Eo in Hr. cbn [retried] in Hr.
    apply andb_true_iff in Hr as [_ Hr].
    assert (raise_for_status resp = Err (HTTPError (status_code resp))) as ->.
    { unfold raise_for_status. apply orb_true_iff in Hr as [Hr | Hr];
        apply Z.eqb_eq in Hr; rewrite Hr; reflexivity. }
    cbn [fst snd posts slept]. rewrite ?Ep, Es. split; [reflexivity|].
    split; [reflexivity|]. exists resp. split; [exact Eo | reflexivity].
Qed.

(** X25. Success after retries: when a request is answered with status 200
    after only retried (503/429) responses, [query] returns the parsed body
    of that response (or the fault of parsing it) having sent exactly these
    requests and slept once per retried response, [retry_delay] after a 503
    and [retry_delay * 2^attempt] after a 429. *)
Theorem query_success_after_retries (self : Client) (i : nat) (resp : Response) :
  (0 <= retry_delay self)%Q ->
  (i < Z.to_nat (max_retries self))%nat ->
  (forall j, (j < i)%nat -> retried (outcomes j) = true) ->
  outcomes i = Got resp ->
  status_code resp = 200%Z ->
  fst (query self) = match json resp with
                     | Returns v => Ok v
                     | Raises e => Err (OtherError e)
                     end /\
  posts (snd (query self)) = S i /\
  slept (snd (query self)) = waits self 0 0 i /\
  response (snd (query self)) = Some resp.
Proof.
  intros Hd Hi Hall Ho Hs. unfold HFClient.query.
  replace (Z.to_nat (max_retries self))
    with (i + S (Z.to_nat (max_retries self) - S i))%nat by lia.
  destruct (attempts_retried_prefix self i (S (Z.to_nat (max_retries self) - S i))
              0 (mkState None [] 0) Hd ltac:(lia)) as (st & E & Ep & Es & _).
  { intros j Hj. apply Hall. exact Hj. }
  rewrite E. cbn [posts slept app Nat.add] in *.
  cbn [HFClient.attempts]. rewrite Ep, Ho, Hs. cbn [Z.eqb Pos.eqb fst snd].
  cbn [posts slept response]. rewrite ?Ep, Es. repeat split.
Qed.

End ClientFacts.

Lemma query_effort_bounded_witness :
  (HFClient.posts (snd (HFClient.query HFClient.rate_limiting HFClient.body_json
                          HFClient.default_client)) <= 3)%nat.
Proof.
  refine (proj1 (query_effort_bounded HFClient.rate_limiting HFClient.body_json
                   HFClient.default_client _)).
  unfold Qle; simpl; lia.
Defined.

Lemma query_rate_limited_backoff_witness :
  fst (HFClient.query HFClient.rate_limiting HFClient.body_json
         HFClient.default_client)
  = HFClient.Err (HFClient.RuntimeError 3 None None) /\
  HFClient.slept (snd (HFClient.query HFClient.rate_limiting HFClient.body_json
                         HFClient.default_client))
  = [5 * inject_Z 1; 5 * inject_Z 2; 5 * inject_Z 4]%Q.
Proof.
  destruct (query_rate_limited_backoff HFClient.rate_limiting HFClient.body_json
              HFClient.default_client) as (H1 & _ & H3 & _).
  - unfold Qle; simpl; lia.
  - intros j _. exists (HFClient.mkResponse 429 "slow down").
    split; reflexivity.
  - split; [exact H1 | exact H3].
Defined.

Lemma query_timeout_not_retried_witness :
  fst (HFClient.query HFClient.loading_then_timeout HFClient.body_json
         HFClient.default_client)
  = HFClient.Err (HFClient.HTTPError 503) /\
  HFClient.posts (snd (HFClient.query HFClient.loading_then_timeout
                         HFClient.body_json HFClient.default_client)) = 2%nat.
Proof.
  destruct (query_timeout_not_retried HFClient.loading_then_timeout
              HFClient.body_json HFClient.default_client 1)
    as (H1 & _ & resp & Hr & H3).
  - unfold Qle; simpl; lia.
  - simpl; lia.
  - intros j Hj. destruct j; [reflexivity | lia].
  - reflexivity.
  - split; [|exact H1]. rewrite H3. injection Hr as <-. reflexivity.
Defined.

Lemma query_success_after_retries_witness :
  fst (HFClient.query HFClient.loading_then_ok HFClient.body_json
         HFClient.default_client) = HFClient.Ok (PStr "done") /\
  HFClient.slept (snd (HFClient.query HFClient.loading_then_ok
                         HFClient.body_json HFClient.default_client)) = [5%Q].
Proof.
  destruct (query_success_after_retries HFClient.loading_then_ok
              HFClient.body_json HFClient.default_client 1
              (HFClient.mkResponse 200 "done"))
    as (H1 & _ & H3 & _).
  - unfold Qle; simpl; lia.
  - simpl; lia.
  - intros j Hj. destruct j; [reflexivity | lia].
  - reflexivity.
  - reflexivity.
  - split; [exact H1 | exact H3].
Defined.
